(** * The executor engine of the CI agent: a shallow embedding

    The development follows [internal/executor] (the control loop
    [RunBuild], [BoundedCommands], [getScriptEnvironment], [performStep],
    the retry logic of [CloneRepository], [retryableCloneError]) and the
    launcher's [transportSettings].

    Go strings are byte sequences and are modelled by [String.string];
    maps with string keys are [gmap string _]; everything the code does to
    the outside (RPCs, processes, log sinks) is recorded in a trace of
    [Event]s, and everything the outside answers is read from an explicit
    oracle record. *)

From Stdlib Require Import ZArith Lia Bool Ascii String List DecimalString.
From stdpp Require Import base gmap strings list.
Import ListNotations.

Local Open Scope string_scope.
Local Open Scope list_scope.

(** ** The parts of Go's [strings] package the code uses *)

Module Strings.

(** [strings.HasPrefix(s, prefix)] *)
Definition HasPrefix (s prefix : string) : bool := String.prefix prefix s.

(** [strings.Contains(s, substr)]: some suffix of [s] starts with
    [substr]. *)
Fixpoint Contains (s substr : string) : bool :=
  HasPrefix s substr ||
  match s with
  | EmptyString => false
  | String _ s' => Contains s' substr
  end.

(** Drop the first [n] bytes, as the slice expression [s[n:]]. *)
Fixpoint skip (n : nat) (s : string) : string :=
  match n, s with
  | O, _ => s
  | S n', String _ s' => skip n' s'
  | S _, EmptyString => EmptyString
  end.

(** [strings.TrimPrefix(s, prefix)] *)
Definition TrimPrefix (s prefix : string) : string :=
  if HasPrefix s prefix then skip (String.length prefix) s else s.

(** Lower-casing of one byte: the letters [A]..[Z] are shifted by 32,
    every other byte is kept. *)
Definition lowerByte (c : ascii) : ascii :=
  let n := nat_of_ascii c in
  if (65 <=? n)%nat && (n <=? 90)%nat then ascii_of_nat (n + 32) else c.

(** Whether every byte of [s] is below [utf8.RuneSelf] (0x80). *)
Fixpoint isASCII (s : string) : bool :=
  match s with
  | EmptyString => true
  | String c s' => (nat_of_ascii c <? 128)%nat && isASCII s'
  end.

(** The loop of [strings.ToLower] over a string of ASCII bytes: every
    byte is lower-cased on its own (a string without upper-case letters
    comes out as it is). *)
Fixpoint lowerASCII (s : string) : string :=
  match s with
  | EmptyString => EmptyString
  | String c s' => String (lowerByte c) (lowerASCII s')
  end.

(** [strings.ToLower(s)].  A string of ASCII bytes is lower-cased byte by
    byte.  A string that holds a byte from 0x80 on is decoded as UTF-8 and
    mapped rune by rune, [strings.Map(unicode.ToLower, s)]; that result
    depends on the case tables of Go's [unicode] package (U+0130 becomes
    [i], U+212A becomes [k], an invalid byte becomes U+FFFD) and is taken
    from [mapToLower]. *)
Definition ToLower (mapToLower : string -> string) (s : string) : string :=
  if isASCII s then lowerASCII s else mapToLower s.

(** [s] has [sub] as a substring. *)
Definition substring_of (sub s : string) : Prop :=
  exists pre post, s = pre +:+ sub +:+ post.

End Strings.

(** ** The launcher: [transportSettings] *)

(** Returns the dial target and the [insecure] flag. *)
Definition transportSettings (apiEndpoint : string) : string * bool :=
  (* Insecure by default to preserve backwards compatibility *)
  let insecure := true in
  (* Use TLS if explicitly asked or no schema is in the target *)
  let insecure :=
    if Strings.Contains apiEndpoint "https://"
       || negb (Strings.Contains apiEndpoint "://")
    then false else insecure in
  (* sanitize but leave unix:// if presented *)
  let target :=
    Strings.TrimPrefix (Strings.TrimPrefix apiEndpoint "http://") "https://" in
  (target, insecure).

(** ** The classifier of retryable clone errors *)

(** A Go [error] value: [None] is [nil], [Some msg] an error whose
    [Error()] text is [msg]. *)
Definition error := option string.

Definition retryableCloneError (mapToLower : string -> string) (err : error)
    : bool :=
  match err with
  | None => false
  | Some msg =>
      let errorMessage := Strings.ToLower mapToLower msg in
      if Strings.Contains errorMessage "timeout" then true
      else if Strings.Contains errorMessage "tls" then true
      else if Strings.Contains errorMessage "connection" then true
      else if Strings.Contains errorMessage "authentication" then true
      else if Strings.Contains errorMessage "not found" then true
      else false
  end.

(** ** Data model (package [api]) *)

(** [api.Command_CommandExecutionBehavior] *)
Inductive ExecutionBehaviour :=
| Command_ON_SUCCESS
| Command_ON_FAILURE
| Command_ALWAYS.

(** The [Instruction] field of a command: one constructor per Go type the
    dispatcher switches on; [Command_NoInstruction] is the [default] case
    (a nil or unknown variant).  A file instruction carries the name of
    the environment variable it is created from ([None] for another
    source) and its destination path.  Payloads the control flow never
    inspects are left out. *)
Inductive Instruction :=
| Command_ExitInstruction
| Command_CloneInstruction
| Command_FileInstruction (fromEnvironmentVariable : option string)
    (destinationPath : string)
| Command_ScriptInstruction (scripts : list string)
| Command_BackgroundScriptInstruction (scripts : list string)
| Command_CacheInstruction
| Command_UploadCacheInstruction
| Command_ArtifactsInstruction
| Command_WaitForTerminalInstruction (terminalServerAddress : option string)
| Command_NoInstruction.

Record Command := {
  Name : string;
  Behaviour : ExecutionBehaviour;
  Instr : Instruction
}.

Inductive Status :=
| Status_EXECUTING
| Status_COMPLETED
| Status_FAILED
| Status_SKIPPED.

Record CommandResult := {
  ResultName : string;
  ResultStatus : Status;
  DurationInNanos : Z;
  ResultSignaledToExit : bool
}.

Record StepResult := {
  Success : bool;
  SignaledToExit : bool;
  Duration : Z
}.

(** What [performStep] returns: a step result with a nil error, or no
    result with the sentinel [ErrStepExit]. *)
Inductive StepReturn :=
| StepDone (r : StepResult)
| ErrStepExit.

Global Instance ExecutionBehaviour_eq_dec : EqDecision ExecutionBehaviour.
Proof. solve_decision. Defined.

Global Instance Status_eq_dec : EqDecision Status.
Proof. solve_decision. Defined.

(** ** [BoundedCommands] *)

(** The slice expression [s[low:high]] of Go; [None] is the run-time panic
    "slice bounds out of range". *)
Definition goSlice {A} (s : list A) (low high : nat) : option (list A) :=
  if (low <=? high)%nat && (high <=? List.length s)%nat
  then Some (take (high - low) (drop low s))
  else None.

(** The [for i, command := range commands] loop of [BoundedCommands],
    entered at index [i] with the current pair [(left, right)]. *)
Fixpoint scanBounds (fromName toName : string) (i : nat)
    (commands : list Command) (bounds : nat * nat) : nat * nat :=
  match commands with
  | [] => bounds
  | command :: rest =>
      let left :=
        if negb (fromName =? "") && (Name command =? fromName)
        then i else fst bounds in
      let right :=
        if negb (toName =? "") && (Name command =? toName)
        then i else snd bounds in
      scanBounds fromName toName (S i) rest (left, right)
  end.

(** BoundedCommands bounds a slice of commands with unique names to a
    half-open range [fromName, toName). *)
Definition BoundedCommands (commands : list Command) (fromName toName : string)
    : option (list Command) :=
  let bounds :=
    scanBounds fromName toName 0 commands (0%nat, List.length commands) in
  goSlice commands (fst bounds) (snd bounds).

(** Index of the first, and of the last, command with a given name. *)
Fixpoint firstIndexOf (name : string) (commands : list Command) : option nat :=
  match commands with
  | [] => None
  | command :: rest =>
      if Name command =? name then Some 0%nat
      else S <$> firstIndexOf name rest
  end.

Fixpoint lastIndexOf (name : string) (commands : list Command) : option nat :=
  match commands with
  | [] => None
  | command :: rest =>
      match lastIndexOf name rest with
      | Some j => Some (S j)
      | None => if Name command =? name then Some 0%nat else None
      end
  end.

(** A bound given by name: the default when the name is empty or absent. *)
Definition boundOf (index : string -> list Command -> option nat)
    (name : string) (commands : list Command) (default : nat) : nat :=
  if name =? "" then default
  else match index name commands with Some i => i | None => default end.

Definition script (name : string) (b : ExecutionBehaviour) : Command :=
  {| Name := name; Behaviour := b; Instr := Command_ScriptInstruction ["true"] |}.

Definition abcd : list Command :=
  [script "a" Command_ALWAYS; script "b" Command_ALWAYS;
   script "c" Command_ALWAYS; script "d" Command_ALWAYS].

(** ** The environment (package [internal/environment]) *)

Record Environment := {
  vars : gmap string string;
  sensitiveValues : gset string
}.

(** Modelled from the spec: package [internal/environment] is not part of
    the sources at hand; its operations follow the data model of the
    specification (a mapping string→string plus a set of sensitive values;
    [lookup], [get] with the empty string as default, [set],
    [merge(map, markSensitive)], [items], [addSensitiveValues]). *)
Module environment.

Definition NewEmpty : Environment :=
  {| vars := ∅; sensitiveValues := ∅ |}.

Definition Lookup (env : Environment) (key : string) : option string :=
  vars env !! key.

Definition Get (env : Environment) (key : string) : string :=
  match vars env !! key with Some v => v | None => "" end.

Definition Set_ (env : Environment) (key value : string) : Environment :=
  {| vars := <[key := value]> (vars env);
     sensitiveValues := sensitiveValues env |}.

Definition Items (env : Environment) : gmap string string := vars env.

Definition AddSensitiveValues (env : Environment) (values : list string)
    : Environment :=
  {| vars := vars env;
     sensitiveValues := sensitiveValues env ∪ list_to_set values |}.

(** Every pair of [otherEnv] is set; its values are registered as
    sensitive when [isSensitive] holds. *)
Definition Merge (env : Environment) (otherEnv : gmap string string)
    (isSensitive : bool) : Environment :=
  {| vars := otherEnv ∪ vars env;
     sensitiveValues :=
       if isSensitive
       then sensitiveValues env ∪ list_to_set (snd <$> map_to_list otherEnv)
       else sensitiveValues env |}.

End environment.

(** ** The executor *)

(** An entry of the background registry.  Process handles ([*exec.Cmd])
    and log sinks ([*LogUploader]) are pointers; the model numbers them in
    the order of their creation. *)
Record CommandAndLogs := {
  BgName : string;
  Cmd : nat;
  Logs : nat
}.

(** The fields of [Executor] the control flow reads or writes
    ([cacheAttempts] is only forwarded to the final report). *)
Record Executor := {
  taskId : Z;
  clientToken : string;
  serverToken : string;
  backgroundCommands : list CommandAndLogs;
  httpCacheHost : string;
  commandFrom : string;
  commandTo : string;
  preCreatedWorkingDir : string;
  env : Environment;
  terminalWrapper : option string
}.

Definition NewExecutor (taskId : Z) (clientToken serverToken commandFrom
    commandTo preCreatedWorkingDir : string) : Executor :=
  {| taskId := taskId;
     clientToken := clientToken;
     serverToken := serverToken;
     backgroundCommands := [];
     httpCacheHost := "";
     commandFrom := commandFrom;
     commandTo := commandTo;
     preCreatedWorkingDir := preCreatedWorkingDir;
     env := environment.NewEmpty;
     terminalWrapper := None |}.

Definition with_env (e : Executor) (v : Environment) : Executor :=
  {| taskId := taskId e; clientToken := clientToken e;
     serverToken := serverToken e;
     backgroundCommands := backgroundCommands e;
     httpCacheHost := httpCacheHost e;
     commandFrom := commandFrom e; commandTo := commandTo e;
     preCreatedWorkingDir := preCreatedWorkingDir e;
     env := v; terminalWrapper := terminalWrapper e |}.

Definition with_backgroundCommands (e : Executor) (bg : list CommandAndLogs)
    : Executor :=
  {| taskId := taskId e; clientToken := clientToken e;
     serverToken := serverToken e;
     backgroundCommands := bg;
     httpCacheHost := httpCacheHost e;
     commandFrom := commandFrom e; commandTo := commandTo e;
     preCreatedWorkingDir := preCreatedWorkingDir e;
     env := env e; terminalWrapper := terminalWrapper e |}.

Definition with_httpCacheHost (e : Executor) (h : string) : Executor :=
  {| taskId := taskId e; clientToken := clientToken e;
     serverToken := serverToken e;
     backgroundCommands := backgroundCommands e;
     httpCacheHost := h;
     commandFrom := commandFrom e; commandTo := commandTo e;
     preCreatedWorkingDir := preCreatedWorkingDir e;
     env := env e; terminalWrapper := terminalWrapper e |}.

Definition with_terminalWrapper (e : Executor) (t : option string) : Executor :=
  {| taskId := taskId e; clientToken := clientToken e;
     serverToken := serverToken e;
     backgroundCommands := backgroundCommands e;
     httpCacheHost := httpCacheHost e;
     commandFrom := commandFrom e; commandTo := commandTo e;
     preCreatedWorkingDir := preCreatedWorkingDir e;
     env := env e; terminalWrapper := t |}.

(** ** Effects *)

(** What the executor does to the outside world, in the order it does it. *)
Inductive Event :=
| RPC_InitialCommands (retry : bool)
| RPC_ReportAgentError
| RPC_ReportAgentWarning
| RPC_ReportAgentFinished (commandResults : list CommandResult)
| Queue (result : CommandResult)      (* ub.Queue *)
| Flush                               (* ub.Flush: ReportCommandUpdates *)
| PerformStep (name : string)
| LogWrite (sink : nat)
| LogFinalize (sink : nat)
| ProcessKill (process : nat)
| GitFetch (refSpec : string) (depth : Z)      (* repo.FetchContext *)
| GitClone (referenceName : string) (depth : Z) (* git.PlainClone[Context] *)
| RemoveAll (dir : string)
| WriteFile (path content : string)             (* os.WriteFile *)
| EnsureFolderExists (dir : string)
| Chdir (dir : string)
| HttpCacheStart
| TerminalStart (terminalServerAddress : string)
| MetricsCancel.

Global Instance CommandResult_eq_dec : EqDecision CommandResult.
Proof. solve_decision. Defined.

Global Instance Event_eq_dec : EqDecision Event.
Proof. solve_decision. Defined.

(** How [RunBuild] ends: by returning, or in a panic. *)
Inductive Ending :=
| Returned
| Panicked (message : string).

(** ** The host the agent runs on *)

(** The answers of the operating system and of the Go run time that
    [getScriptEnvironment] and [RunBuild] read.  [Join] is
    [filepath.Join]; [StatIsNotExist p] is [os.IsNotExist(err)] for the
    error of [os.Stat(p)]; [MkdirTemp dir pattern] is the path returned by
    [os.MkdirTemp] (its error is dropped by the code). *)
Record Host := {
  GOOS : string;
  GOARCH : string;
  Separator : ascii;
  LookupEnv : string -> option string;
  TempDir : string;
  Join : string -> string -> string;
  StatIsNotExist : string -> bool;
  MkdirTemp : string -> string -> string
}.

Module filepath.

Fixpoint replaceByte (old new : ascii) (s : string) : string :=
  match s with
  | EmptyString => EmptyString
  | String c s' =>
      String (if Ascii.eqb c old then new else c) (replaceByte old new s')
  end.

(** [filepath.ToSlash]: every separator becomes a slash; the identity
    where the separator is the slash. *)
Definition ToSlash (separator : ascii) (path : string) : string :=
  if Ascii.eqb separator "/" then path
  else replaceByte separator "/" path.

End filepath.

(** [fmt.Sprintf("%d", n)] *)
Definition formatInt (n : Z) : string :=
  DecimalString.NilZero.string_of_int (Z.to_int n).

(** ** [getScriptEnvironment] *)

Definition getScriptEnvironment (host : Host) (executor : Executor)
    (responseEnvironment : gmap string string) : gmap string string :=
  let responseEnvironment :=
    match responseEnvironment !! "OS" with
    | Some _ => responseEnvironment
    | None =>
        match LookupEnv host "OS" with
        | Some _ => responseEnvironment
        | None => <["OS" := GOOS host]> responseEnvironment
        end
    end in
  let responseEnvironment := <["CIRRUS_OS" := GOOS host]> responseEnvironment in
  let responseEnvironment := <["CIRRUS_ARCH" := GOARCH host]> responseEnvironment in
  (* Use directory created by the persistent worker if CIRRUS_WORKING_DIR
     was not overridden in the task specification by the user *)
  let hasWorkingDir :=
    bool_decide (is_Some (responseEnvironment !! "CIRRUS_WORKING_DIR")) in
  let responseEnvironment :=
    if negb hasWorkingDir && negb (preCreatedWorkingDir executor =? "")
    then <["CIRRUS_WORKING_DIR" := preCreatedWorkingDir executor]> responseEnvironment
    else responseEnvironment in
  match responseEnvironment !! "CIRRUS_WORKING_DIR" with
  | Some _ => responseEnvironment
  | None =>
      let defaultTempDirPath := Join host (TempDir host) "cirrus-ci-build" in
      if StatIsNotExist host defaultTempDirPath then
        <["CIRRUS_WORKING_DIR" :=
            filepath.ToSlash (Separator host) defaultTempDirPath]> responseEnvironment
      else if negb (commandFrom executor =? "") then
        (* Default folder exists and we continue execution. Therefore we
           need to use it. *)
        <["CIRRUS_WORKING_DIR" :=
            filepath.ToSlash (Separator host) defaultTempDirPath]> responseEnvironment
      else
        let uniqueTempDirPath :=
          MkdirTemp host (TempDir host)
            ("cirrus-task-" +:+ formatInt (taskId executor)) in
        <["CIRRUS_WORKING_DIR" :=
            filepath.ToSlash (Separator host) uniqueTempDirPath]> responseEnvironment
  end.

(** ** [CloneRepository] *)

(** What the Git library and the libraries around it answer during one
    clone.  [fetchErrors k] is the error of the [k]-th call of
    [repo.FetchContext] (counted from 0), [cloneErrors k] that of the
    [k]-th call of [git.PlainCloneContext] or [git.PlainClone]. [Atoi] is
    the number returned by [strconv.Atoi] (its error is dropped by the
    code), [ExpandText] is [env.ExpandText], and [MapToLower] is
    [strings.Map(unicode.ToLower, s)], which [strings.ToLower] calls on a
    text that is not ASCII. *)
Record GitWorld := {
  Atoi : string -> Z;
  ExpandText : Environment -> string -> string;
  MapToLower : string -> string;
  caCertsFail : bool;
  plainInitFails : bool;
  createRemoteFails : bool;
  fetchErrors : nat -> error;
  cloneErrors : nat -> error;
  worktreeFails : bool;
  checkoutFails : bool;
  headFails : bool;
  headIsChange : bool;
  resetFails : bool;
  submodulesFail : bool;
  submoduleUpdateFails : list bool
}.

Definition isErr (err : error) : bool :=
  match err with Some _ => true | None => false end.

(** [strings.Contains(err.Error(), substr)] for a non-nil [err] *)
Definition errorContains (err : error) (substr : string) : bool :=
  match err with
  | Some msg => Strings.Contains msg substr
  | None => false
  end.

(** The loop over the submodules: the writes of the first failing update,
    if any. *)
Fixpoint updateSubmodules (logUploader : nat) (fails : list bool)
    : list Event * bool :=
  match fails with
  | [] => ([], true)
  | true :: _ => ([LogWrite logUploader], false)
  | false :: rest => updateSubmodules logUploader rest
  end.

(** What follows the materialisation of the repository: the HEAD check,
    the hard reset and the submodules. *)
Definition finishClone (git : GitWorld) (logUploader : nat)
    (is_clone_modules : bool) : list Event * bool :=
  if headFails git then ([LogWrite logUploader], false)
  else
    let '(events, ok) :=
      if headIsChange git then ([], true)
      else
        let events := [LogWrite logUploader; LogWrite logUploader] in
        if worktreeFails git then (events ++ [LogWrite logUploader], false)
        else if resetFails git then (events ++ [LogWrite logUploader], false)
        else (events, true) in
    if negb ok then (events, false)
    else
      let '(events, ok) :=
        if is_clone_modules then
          let events := events ++ [LogWrite logUploader] in
          if worktreeFails git then (events ++ [LogWrite logUploader], false)
          else if submodulesFail git then (events ++ [LogWrite logUploader], false)
          else
            let '(subEvents, subOk) :=
              updateSubmodules logUploader (submoduleUpdateFails git) in
            if subOk then (events ++ subEvents ++ [LogWrite logUploader], true)
            else (events ++ subEvents, false)
        else (events, true) in
      if negb ok then (events, false)
      else (events ++ [LogWrite logUploader; LogWrite logUploader], true).

Definition CloneRepository (git : GitWorld) (logUploader : nat)
    (env : Environment) : list Event * bool :=
  let write := LogWrite logUploader in
  let working_dir := environment.Get env "CIRRUS_WORKING_DIR" in
  let branch := environment.Get env "CIRRUS_BRANCH" in
  let is_clone_modules :=
    environment.Get env "CIRRUS_CLONE_SUBMODULES" =? "true" in
  let clone_url :=
    match environment.Lookup env "CIRRUS_REPO_CLONE_TOKEN" with
    | Some _ =>
        ExpandText git env
          "https://x-access-token:${CIRRUS_REPO_CLONE_TOKEN}@${CIRRUS_REPO_CLONE_HOST}/${CIRRUS_REPO_FULL_NAME}.git"
    | None => environment.Get env "CIRRUS_REPO_CLONE_URL"
    end in
  let clone_depth :=
    match environment.Lookup env "CIRRUS_CLONE_DEPTH" with
    | Some depth_str => Atoi git depth_str
    | None => 0%Z
    end in
  let events :=
    write :: (if (0 <? clone_depth)%Z then [write] else []) in
  if caCertsFail git then (events ++ [write], false)
  else
    match environment.Lookup env "CIRRUS_PR" with
    | Some pr_number =>
        if plainInitFails git then (events ++ [write], false)
        else if createRemoteFails git then (events ++ [write], false)
        else
          let headRefSpec :=
            "+refs/pull/" +:+ pr_number +:+ "/head:refs/remotes/origin/pull/"
              +:+ pr_number in
          let events := events ++ [write; GitFetch headRefSpec clone_depth] in
          let err := fetchErrors git 0 in
          (* fall back to the merge ref *)
          let '(events, calls, refSpec, depth, err) :=
            if isErr err && errorContains err "couldn't find remote ref" then
              let mergeRefSpec :=
                "+refs/pull/" +:+ pr_number +:+ "/merge:refs/remotes/origin/pull/"
                  +:+ pr_number in
              (* increase by one since we are cloning with an extra "merge"
                 commit from GH *)
              let depth :=
                if (0 <? clone_depth)%Z then (clone_depth + 1)%Z
                else clone_depth in
              (events ++ [write; GitFetch mergeRefSpec depth], 2%nat,
               mergeRefSpec, depth, fetchErrors git 1)
            else (events, 1%nat, headRefSpec, clone_depth, err) in
          let '(events, err) :=
            if isErr err && retryableCloneError (MapToLower git) err then
              (events ++ [write; write; GitFetch refSpec depth],
               fetchErrors git calls)
            else (events, err) in
          if isErr err then (events ++ [write], false)
          else if worktreeFails git then (events ++ [write], false)
          else
            let events := events ++ [write] in
            if checkoutFails git then (events ++ [write], false)
            else
              let '(finishEvents, ok) :=
                finishClone git logUploader is_clone_modules in
              (events ++ finishEvents, ok)
    | None =>
        let referenceName :=
          match environment.Lookup env "CIRRUS_TAG" with
          | Some tag => "refs/tags/" +:+ tag
          | None => "refs/heads/" +:+ branch
          end in
        let events := events ++ [write; GitClone referenceName clone_depth] in
        let err := cloneErrors git 0 in
        let '(events, err) :=
          if isErr err && retryableCloneError (MapToLower git) err then
            (events ++ [write; RemoveAll working_dir;
                        EnsureFolderExists working_dir;
                        GitClone referenceName clone_depth],
             cloneErrors git 1)
          else (events, err) in
        if isErr err then (events ++ [write], false)
        else
          let '(finishEvents, ok) :=
            finishClone git logUploader is_clone_modules in
          (events ++ finishEvents, ok)
    end.

(** ** [CreateFile] *)

Definition CreateFile (expandText : Environment -> string -> string)
    (dir : string -> string) (writeFileFails : bool) (logUploader : nat)
    (fromEnvironmentVariable : option string) (destinationPath : string)
    (env : Environment) : list Event * bool :=
  match fromEnvironmentVariable with
  | Some envName =>
      match environment.Lookup env envName with
      | None => ([LogWrite logUploader], true)
      | Some content =>
          if Strings.HasPrefix content "ENCRYPTED" then
            ([LogWrite logUploader], true)
          else
            let filePath := expandText env destinationPath in
            ([EnsureFolderExists (dir filePath); WriteFile filePath content;
              LogWrite logUploader],
             negb writeFileFails)
      end
  | None => ([], false)
  end.

(** ** [performStep] *)

Inductive ScriptError :=
| TimeOutError
| OtherScriptError.

Global Instance ScriptError_eq_dec : EqDecision ScriptError.
Proof. solve_decision. Defined.

(** What the outside answers while one step runs. *)
Record StepWorld := {
  (** [NewLogUploader] returns an error *)
  newLogUploaderFails : bool;
  (** [cirrusenv.New]: the path of the scratch file, [None] on error *)
  cirrusEnvPath : option string;
  (** the answers of Git while the step clones *)
  git : GitWorld;
  (** [filepath.Dir], and whether [os.WriteFile] returns an error *)
  Dir : string -> string;
  writeFileFails : bool;
  (** the boolean of the cache, upload-cache or artifacts collaborator *)
  collaboratorSuccess : bool;
  (** [ExecuteScriptsStreamLogsAndWait]: its error, whether the process
      state reports success, and [Signaled()] when the state is a
      [syscall.WaitStatus] *)
  scriptError : option ScriptError;
  scriptStateSuccess : bool;
  scriptSignaled : option bool;
  (** [ExecuteScriptsAndStreamLogs] returns an error *)
  backgroundLaunchFails : bool;
  (** the operations received from the terminal wrapper: the messages of
      the log operations before the first exit operation, and the success
      flag of that exit operation *)
  terminalLogs : list string;
  terminalSuccess : bool;
  (** [cirrusEnv.Consume]: whether it fails, and the variables it returns *)
  consumeFails : bool;
  cirrusEnvVariables : gmap string string;
  (** [time.Since(start)] at the return *)
  stepDuration : Z
}.

(** The state after a step, what it did and what it returned.  [handles]
    counts the log sinks and processes created so far: the next one
    created gets that number. *)
Record Stepped := {
  steppedExecutor : Executor;
  steppedHandles : nat;
  steppedEvents : list Event;
  steppedReturn : StepReturn
}.

Definition isBackgroundScript (i : Instruction) : bool :=
  match i with
  | Command_BackgroundScriptInstruction _ => true
  | _ => false
  end.

Definition isExit (i : Instruction) : bool :=
  match i with
  | Command_ExitInstruction => true
  | _ => false
  end.

(** The state after the [switch] of [performStep]. *)
Record Switched := {
  switchedExecutor : Executor;
  switchedHandles : nat;
  switchedEvents : list Event;
  success : bool;
  signaledToExit : bool
}.

(** The [switch] of [performStep] for every instruction but Exit, which
    returns from [performStep] at once. *)
Definition dispatch (w : StepWorld) (executor : Executor) (handles : nat)
    (logUploader : nat) (currentStep : Command) : Switched :=
  let switched executor handles events success signaledToExit :=
    {| switchedExecutor := executor; switchedHandles := handles;
       switchedEvents := events; success := success;
       signaledToExit := signaledToExit |} in
  match Instr currentStep with
  | Command_ExitInstruction => switched executor handles [] false false
  | Command_CloneInstruction =>
      let cloned := CloneRepository (git w) logUploader (env executor) in
      switched executor handles (fst cloned) (snd cloned) false
  | Command_FileInstruction fromEnvironmentVariable destinationPath =>
      let created :=
        CreateFile (ExpandText (git w)) (Dir w) (writeFileFails w) logUploader
          fromEnvironmentVariable destinationPath (env executor) in
      switched executor handles (fst created) (snd created) false
  | Command_CacheInstruction
  | Command_UploadCacheInstruction
  | Command_ArtifactsInstruction =>
      switched executor handles [] (collaboratorSuccess w) false
  | Command_ScriptInstruction _ =>
      let success :=
        bool_decide (scriptError w = None) && scriptStateSuccess w in
      let signaledToExit :=
        match scriptError w, scriptSignaled w with
        | None, Some signaled => signaled
        | _, _ => false
        end in
      let signaledToExit :=
        if bool_decide (scriptError w = Some TimeOutError) then false
        else signaledToExit in
      switched executor handles [] success signaledToExit
  | Command_BackgroundScriptInstruction _ =>
      if backgroundLaunchFails w then
        switched executor handles
          [LogWrite logUploader; LogFinalize logUploader] false false
      else
        let cmd := handles in
        switched
          (with_backgroundCommands executor
             (backgroundCommands executor ++
                [{| BgName := Name currentStep; Cmd := cmd; Logs := logUploader |}]))
          (S handles) [] true false
  | Command_WaitForTerminalInstruction _ =>
      switched executor handles
        ((fun _ => LogWrite logUploader) <$> terminalLogs w)
        (terminalSuccess w) false
  | Command_NoInstruction => switched executor handles [] false false
  end.

Definition performStep (w : StepWorld) (executor : Executor) (handles : nat)
    (currentStep : Command) : Stepped :=
  let failure :=
    StepDone {| Success := false; SignaledToExit := false;
                Duration := stepDuration w |} in
  if newLogUploaderFails w then
    {| steppedExecutor := executor; steppedHandles := handles;
       steppedEvents := [RPC_ReportAgentWarning];
       steppedReturn := failure |}
  else
    let logUploader := handles in
    let handles := S handles in
    (* defer logUploader.Finalize(), unless the step is a background script *)
    let deferred :=
      if isBackgroundScript (Instr currentStep) then []
      else [LogFinalize logUploader] in
    match cirrusEnvPath w with
    | None =>
        {| steppedExecutor := executor; steppedHandles := handles;
           steppedEvents := LogWrite logUploader :: deferred;
           steppedReturn := failure |}
    | Some path =>
        let executor :=
          with_env executor (environment.Set_ (env executor) "CIRRUS_ENV" path) in
        if isExit (Instr currentStep) then
          (* case *api.Command_ExitInstruction: return nil, ErrStepExit *)
          {| steppedExecutor := executor; steppedHandles := handles;
             steppedEvents := deferred;
             steppedReturn := ErrStepExit |}
        else
          let switched := dispatch w executor handles logUploader currentStep in
          let executor := switchedExecutor switched in
          let consumeEvents :=
            if consumeFails w then [LogWrite logUploader] else [] in
          (* Pick up new CIRRUS_ENV variables *)
          let isSensitive :=
            bool_decide
              (is_Some (environment.Lookup (env executor) "CIRRUS_ENV_SENSITIVE")) in
          let executor :=
            with_env executor
              (environment.Merge (env executor) (cirrusEnvVariables w) isSensitive) in
          {| steppedExecutor := executor;
             steppedHandles := switchedHandles switched;
             steppedEvents := switchedEvents switched ++ consumeEvents ++ deferred;
             steppedReturn :=
               StepDone {| Success := success switched;
                           SignaledToExit := signaledToExit switched;
                           Duration := stepDuration w |} |}
    end.

(** ** The control loop *)

Record CommandsResponse := {
  ServerToken : string;
  ResponseEnvironment : gmap string string;
  Commands : list Command;
  TimeoutInSeconds : Z;
  SecretsToMask : list string;
  FailedAtLeastOnce : bool
}.

(** The three outcomes of [vaultunboxer.NewBoxedValue]: the sentinel
    [ErrNotABoxedValue], another parse error, or a boxed value. *)
Inductive BoxedParse :=
| ErrNotABoxedValue
| BoxedParseError
| Boxed.

(** What the outside answers during one [RunBuild].  [initialFailures] is
    the number of failed [InitialCommands] calls and [initialCommands] the
    response of the call after them, [None] when the context is cancelled
    first; [stepWorld i] is the world of the step at position [i] of the
    bounded command list; [killFails p] tells whether [Process.Kill] of
    process [p] returns an error; [metricsErrors] is the number of errors
    of the metrics result, [None] when it does not arrive in time;
    [reportFinishedFails] tells whether the first [ReportAgentFinished]
    fails. *)
Record World := {
  host : Host;
  initialFailures : nat;
  initialCommands : option CommandsResponse;
  NewBoxedValue : string -> BoxedParse;
  vaultNewClientFails : bool;
  vaultSetAddressFails : string -> bool;
  vaultLoginFails : string -> string -> bool;
  vaultUnbox : string -> option string;
  httpCacheStart : string;
  stepWorld : nat -> StepWorld;
  killFails : nat -> bool;
  metricsErrors : option nat;
  reportFinishedFails : bool
}.

Definition EnvCirrusVaultURL := "CIRRUS_VAULT_URL".
Definition EnvCirrusVaultNamespace := "CIRRUS_VAULT_NAMESPACE".
Definition EnvCirrusVaultRole := "CIRRUS_VAULT_ROLE".

(** [vaultunboxer.NewFromEnvironment]: whether a client is returned. *)
Definition NewFromEnvironment (w : World) (env : Environment) : bool :=
  if vaultNewClientFails w then false
  else
    match environment.Lookup env EnvCirrusVaultURL with
    | None => false
    | Some url =>
        if vaultSetAddressFails w url then false
        else
          match environment.Lookup env "CIRRUS_OIDC_TOKEN" with
          | Some jwtToken =>
              negb (vaultLoginFails w jwtToken
                      (environment.Get env EnvCirrusVaultRole))
          | None => true
          end
    end.

(** How the unboxing loop ends, with the environment it has reached:
    through all items, or at the first error, which is reported and makes
    [RunBuild] return. *)
Inductive Unboxing :=
| Unboxed (env : Environment)
| UnboxFailed (env : Environment).

(** The loop that unboxes the [VAULT[...]] variables, over the items in
    the order the map hands them out; [vaultUnboxer] tells whether the
    client exists already. *)
Fixpoint unboxItems (w : World) (items : list (string * string))
    (env : Environment) (vaultUnboxer : bool) : Unboxing :=
  match items with
  | [] => Unboxed env
  | (key, value) :: rest =>
      match NewBoxedValue w value with
      | ErrNotABoxedValue => unboxItems w rest env vaultUnboxer
      | BoxedParseError => UnboxFailed env
      | Boxed =>
          if negb vaultUnboxer && negb (NewFromEnvironment w env) then
            UnboxFailed env
          else
            match vaultUnbox w value with
            | None => UnboxFailed env
            | Some unboxedValue =>
                unboxItems w rest
                  (environment.AddSensitiveValues
                     (environment.Set_ env key unboxedValue) [unboxedValue])
                  true
            end
      end
  end.

(** The calls of [InitialCommands]: [Retry] is set from the second on. *)
Definition initialCalls (n : nat) : list Event :=
  match n with
  | O => []
  | S k => RPC_InitialCommands false :: replicate k (RPC_InitialCommands true)
  end.

(** The pre-scan for a terminal instruction: the server address of the
    first one, if there is one. *)
Fixpoint terminalInstruction (commands : list Command) : option string :=
  match commands with
  | [] => None
  | command :: rest =>
      match Instr command with
      | Command_WaitForTerminalInstruction (Some address) => Some address
      | Command_WaitForTerminalInstruction None => Some ""
      | _ => terminalInstruction rest
      end
  end.

Definition shouldRun (behaviour : ExecutionBehaviour) (failedAtLeastOnce : bool)
    : bool :=
  (bool_decide (behaviour = Command_ON_SUCCESS) && negb failedAtLeastOnce)
  || (bool_decide (behaviour = Command_ON_FAILURE) && failedAtLeastOnce)
  || bool_decide (behaviour = Command_ALWAYS).

Definition result (name : string) (status : Status) : CommandResult :=
  {| ResultName := name; ResultStatus := status;
     DurationInNanos := 0; ResultSignaledToExit := false |}.

(** The state when the loop over the commands is left; [loopedExit] tells
    that it was left by the [return] after [ErrStepExit]. *)
Record Looped := {
  loopedExecutor : Executor;
  loopedHandles : nat;
  loopedEvents : list Event;
  loopedFailed : bool;
  loopedExit : bool
}.

Definition after (events : list Event) (l : Looped) : Looped :=
  {| loopedExecutor := loopedExecutor l;
     loopedHandles := loopedHandles l;
     loopedEvents := events ++ loopedEvents l;
     loopedFailed := loopedFailed l;
     loopedExit := loopedExit l |}.

(** The [for _, command := range BoundedCommands(...)] loop of [RunBuild],
    entered at position [i] of the bounded list. *)
Fixpoint runCommands (w : World) (i : nat) (commands : list Command)
    (executor : Executor) (handles : nat) (failedAtLeastOnce : bool) : Looped :=
  match commands with
  | [] =>
      {| loopedExecutor := executor; loopedHandles := handles;
         loopedEvents := []; loopedFailed := failedAtLeastOnce;
         loopedExit := false |}
  | command :: rest =>
      if negb (shouldRun (Behaviour command) failedAtLeastOnce) then
        after [Queue (result (Name command) Status_SKIPPED)]
          (runCommands w (S i) rest executor handles failedAtLeastOnce)
      else
        let stepped := performStep (stepWorld w i) executor handles command in
        let events :=
          [Queue (result (Name command) Status_EXECUTING); Flush;
           PerformStep (Name command)] ++ steppedEvents stepped in
        match steppedReturn stepped with
        | ErrStepExit =>
            {| loopedExecutor := steppedExecutor stepped;
               loopedHandles := steppedHandles stepped;
               loopedEvents := events;
               loopedFailed := failedAtLeastOnce;
               loopedExit := true |}
        | StepDone stepResult =>
            let failedAtLeastOnce :=
              if negb (Success stepResult) then true else failedAtLeastOnce in
            let currentCommandStatus :=
              if Success stepResult then Status_COMPLETED else Status_FAILED in
            after
              (events ++
                 [Queue {| ResultName := Name command;
                           ResultStatus := currentCommandStatus;
                           DurationInNanos := Duration stepResult;
                           ResultSignaledToExit := SignaledToExit stepResult |}])
              (runCommands w (S i) rest (steppedExecutor stepped)
                 (steppedHandles stepped) failedAtLeastOnce)
        end
  end.

(** Modelled from the spec: package [updatebatcher] is not part of the
    sources at hand; [ub.History()] is the sequence of every result that
    has ever been queued. *)
Definition History (events : list Event) : list CommandResult :=
  omap (fun ev => match ev with Queue r => Some r | _ => None end) events.

(** The drain of the background registry, lines "Background commands to
    clean up after" of [RunBuild]: every entry is killed, a failed kill is
    written to the entry's log sink, and the sink is finalised.  The
    registry itself is left as it is. *)
Fixpoint drain (killFails : nat -> bool) (backgroundCommands : list CommandAndLogs)
    : list Event :=
  match backgroundCommands with
  | [] => []
  | backgroundCommand :: rest =>
      ProcessKill (Cmd backgroundCommand)
        :: (if killFails (Cmd backgroundCommand)
            then [LogWrite (Logs backgroundCommand)] else [])
        ++ LogFinalize (Logs backgroundCommand) :: drain killFails rest
  end.

(** What follows the loop when it runs to its end. *)
Definition teardown (w : World) (executor : Executor) (loopEvents : list Event)
    : list Event :=
  [Flush]
    ++ drain (killFails w) (backgroundCommands executor)
    ++ [MetricsCancel]
    ++ match metricsErrors w with
       | Some n => replicate n RPC_ReportAgentWarning
       | None => [RPC_ReportAgentWarning]
       end
    ++ (let finished := RPC_ReportAgentFinished (History loopEvents) in
        if reportFinishedFails w then [finished; finished] else [finished]).

Record Run := {
  runExecutor : Executor;
  runHandles : nat;
  runEvents : list Event;
  runEnding : Ending
}.

Definition RunBuild (w : World) (executor : Executor) (handles : nat) : Run :=
  let ended executor handles events ending :=
    {| runExecutor := executor; runHandles := handles;
       runEvents := events; runEnding := ending |} in
  match initialCommands w with
  | None =>
      (* Context was cancelled before we had a chance to get initial
         commands *)
      ended executor handles (initialCalls (initialFailures w)) Returned
  | Some response =>
      let events := initialCalls (S (initialFailures w)) in
      if negb (ServerToken response =? serverToken executor) then
        ended executor handles events (Panicked "Server token is incorrect!")
      else
        let executor :=
          with_env executor
            (environment.Merge (env executor)
               (getScriptEnvironment (host w) executor
                  (ResponseEnvironment response)) false) in
        (* Unbox VAULT[...] environment variables *)
        match unboxItems w (map_to_list (environment.Items (env executor)))
                (env executor) false with
        | UnboxFailed reached =>
            ended (with_env executor reached) handles
              (events ++ [RPC_ReportAgentError]) Returned
        | Unboxed unboxed =>
            let executor := with_env executor unboxed in
            let events :=
              events ++
              match environment.Lookup (env executor) "CIRRUS_WORKING_DIR" with
              | Some workingDir => [EnsureFolderExists workingDir; Chdir workingDir]
              | None => []
              end in
            let commands := Commands response in
            let executor :=
              match LookupEnv (host w) "CIRRUS_HTTP_CACHE_HOST" with
              | Some cacheHost =>
                  with_env executor
                    (environment.Set_ (env executor) "CIRRUS_HTTP_CACHE_HOST" cacheHost)
              | None => executor
              end in
            let presetCacheHost :=
              environment.Lookup (env executor) "CIRRUS_HTTP_CACHE_HOST" in
            let executor :=
              match presetCacheHost with
              | Some _ => executor
              | None =>
                  with_env executor
                    (environment.Set_ (env executor) "CIRRUS_HTTP_CACHE_HOST"
                       (httpCacheStart w))
              end in
            let events :=
              events ++
              match presetCacheHost with
              | Some _ => []
              | None => [HttpCacheStart]
              end in
            let executor :=
              with_httpCacheHost executor
                (environment.Get (env executor) "CIRRUS_HTTP_CACHE_HOST") in
            let executor :=
              with_env executor
                (environment.AddSensitiveValues (env executor)
                   (SecretsToMask response)) in
            match commands with
            | [] => ended executor handles events Returned
            | _ :: _ =>
                (* Launch terminal session for remote access (in case
                   requested by the user) *)
                let terminal := terminalInstruction commands in
                let executor :=
                  match terminal with
                  | Some terminalServerAddress =>
                      with_terminalWrapper executor (Some terminalServerAddress)
                  | None => executor
                  end in
                let events :=
                  events ++
                  match terminal with
                  | Some terminalServerAddress =>
                      [TerminalStart terminalServerAddress]
                  | None => []
                  end in
                match BoundedCommands commands (commandFrom executor)
                        (commandTo executor) with
                | None =>
                    ended executor handles events
                      (Panicked "slice bounds out of range")
                | Some bounded =>
                    let looped :=
                      runCommands w 0 bounded executor handles
                        (FailedAtLeastOnce response) in
                    let events := events ++ loopedEvents looped in
                    if loopedExit looped then
                      ended (loopedExecutor looped) (loopedHandles looped)
                        events Returned
                    else
                      ended (loopedExecutor looped) (loopedHandles looped)
                        (events ++
                           teardown w (loopedExecutor looped) (loopedEvents looped))
                        Returned
                end
            end
        end
  end.

(** ** Concrete worlds for the scenarios *)

Definition quietGit : GitWorld :=
  {| Atoi := fun _ => 0%Z;
     ExpandText := fun _ s => s;
     MapToLower := fun s => s;
     caCertsFail := false; plainInitFails := false;
     createRemoteFails := false;
     fetchErrors := fun _ => None; cloneErrors := fun _ => None;
     worktreeFails := false; checkoutFails := false;
     headFails := false; headIsChange := true; resetFails := false;
     submodulesFail := false; submoduleUpdateFails := [] |}.

(** A step in which everything succeeds and the scratch file stays empty;
    [succeeds] is the outcome of the script or collaborator. *)
Definition stepOf (succeeds : bool) (variables : gmap string string) : StepWorld :=
  {| newLogUploaderFails := false;
     cirrusEnvPath := Some "/tmp/cirrus-env";
     git := quietGit;
     Dir := fun path => path;
     writeFileFails := false;
     collaboratorSuccess := succeeds;
     scriptError := None;
     scriptStateSuccess := succeeds;
     scriptSignaled := Some false;
     backgroundLaunchFails := false;
     terminalLogs := [];
     terminalSuccess := succeeds;
     consumeFails := false;
     cirrusEnvVariables := variables;
     stepDuration := 1 |}.

Definition linux : Host :=
  {| GOOS := "linux"; GOARCH := "amd64"; Separator := "/";
     LookupEnv := fun _ => None;
     TempDir := "/tmp";
     Join := fun dir name => dir +:+ "/" +:+ name;
     StatIsNotExist := fun _ => true;
     MkdirTemp := fun dir pattern => dir +:+ "/" +:+ pattern +:+ "0001" |}.

Definition windows : Host :=
  {| GOOS := "windows"; GOARCH := "amd64"; Separator := "\";
     LookupEnv := fun _ => None;
     TempDir := "C:\Temp";
     Join := fun dir name => dir +:+ "\" +:+ name;
     StatIsNotExist := fun _ => true;
     MkdirTemp := fun dir pattern => dir +:+ "\" +:+ pattern +:+ "0001" |}.

Definition responseOf (token : string) (commands : list Command) : CommandsResponse :=
  {| ServerToken := token; ResponseEnvironment := ∅; Commands := commands;
     TimeoutInSeconds := 3600; SecretsToMask := []; FailedAtLeastOnce := false |}.

Definition worldOf (response : option CommandsResponse)
    (steps : nat -> StepWorld) : World :=
  {| host := linux;
     initialFailures := 0;
     initialCommands := response;
     NewBoxedValue := fun _ => ErrNotABoxedValue;
     vaultNewClientFails := false;
     vaultSetAddressFails := fun _ => false;
     vaultLoginFails := fun _ _ => false;
     vaultUnbox := fun _ => None;
     httpCacheStart := "127.0.0.1:12321";
     stepWorld := steps;
     killFails := fun _ => false;
     metricsErrors := Some 0%nat;
     reportFinishedFails := false |}.

Definition agent (commandFrom commandTo : string) : Executor :=
  NewExecutor 42 "client" "server" commandFrom commandTo "".

(** ** Observations on command lists and traces *)

Definition names (commands : list Command) : list string := Name <$> commands.

(** The index the scan of [BoundedCommands] ends with for a name: the
    last match, when the name is not empty. *)
Definition scanned (name : string) (commands : list Command) : option nat :=
  if name =? "" then None else lastIndexOf name commands.

Definition retryableSubstrings : list string :=
  ["timeout"; "tls"; "connection"; "authentication"; "not found"].

Fixpoint count (p : Event -> bool) (events : list Event) : nat :=
  match events with
  | [] => 0
  | ev :: rest => (if p ev then 1 else 0) + count p rest
  end.

Definition isGitFetch (ev : Event) : bool :=
  match ev with GitFetch _ _ => true | _ => false end.

Definition isGitClone (ev : Event) : bool :=
  match ev with GitClone _ _ => true | _ => false end.

Definition isLogWrite (ev : Event) : bool :=
  match ev with LogWrite _ => true | _ => false end.

Definition flakyGit : GitWorld :=
  {| Atoi := fun _ => 0%Z;
     ExpandText := fun _ s => s;
     MapToLower := fun s => s;
     caCertsFail := false; plainInitFails := false;
     createRemoteFails := false;
     fetchErrors := fun k =>
       match k with
       | O => Some "read tcp 10.0.0.2:443: Connection reset by peer"
       | _ => None
       end;
     cloneErrors := fun k =>
       match k with
       | O => Some "remote error: TLS handshake timeout"
       | _ => None
       end;
     worktreeFails := false; checkoutFails := false;
     headFails := false; headIsChange := true; resetFails := false;
     submodulesFail := false; submoduleUpdateFails := [] |}.

Definition pullRequestEnv : Environment :=
  environment.Set_ environment.NewEmpty "CIRRUS_PR" "7".

(** An error text with a letter that is not ASCII: the bytes C4 B0 are
    U+0130, the capital I with a dot above. *)
Definition dottedConnection : string :=
  "connect" +:+ String "196" (String "176" "on refused").

(** What [strings.Map(unicode.ToLower, s)] answers on that text: U+0130
    becomes [i]. *)
Definition dottedLower (s : string) : string :=
  if s =? dottedConnection then "connection refused" else s.

(** A Git server whose first answer to a clone is that error. *)
Definition dottedGit : GitWorld :=
  {| Atoi := fun _ => 0%Z;
     ExpandText := fun _ s => s;
     MapToLower := dottedLower;
     caCertsFail := false; plainInitFails := false;
     createRemoteFails := false;
     fetchErrors := fun _ => None;
     cloneErrors := fun k =>
       match k with
       | O => Some dottedConnection
       | _ => None
       end;
     worktreeFails := false; checkoutFails := false;
     headFails := false; headIsChange := true; resetFails := false;
     submodulesFail := false; submoduleUpdateFails := [] |}.

(** A path is in forward-slash form when [filepath.ToSlash] leaves it as
    it is. *)
Definition slashForm (separator : ascii) (path : string) : Prop :=
  filepath.ToSlash separator path = path.

(** The priority order of [CIRRUS_WORKING_DIR]. *)
Definition resolvedWorkingDir (host : Host) (executor : Executor)
    (responseEnvironment : gmap string string) : string :=
  match responseEnvironment !! "CIRRUS_WORKING_DIR" with
  | Some serverValue => serverValue
  | None =>
      if negb (preCreatedWorkingDir executor =? "")
      then preCreatedWorkingDir executor
      else
        let defaultTempDirPath := Join host (TempDir host) "cirrus-ci-build" in
        if StatIsNotExist host defaultTempDirPath
           || negb (commandFrom executor =? "")
        then filepath.ToSlash (Separator host) defaultTempDirPath
        else
          filepath.ToSlash (Separator host)
            (MkdirTemp host (TempDir host)
               ("cirrus-task-" +:+ formatInt (taskId executor)))
  end.

(** The file of a step that declares itself sensitive. *)
Definition selfSensitive : gmap string string :=
  <["CIRRUS_ENV_SENSITIVE" := "true"]> (<["TOKEN" := "s3cr3t"]> ∅).

Definition isInitialCommands (ev : Event) : bool :=
  match ev with RPC_InitialCommands _ => true | _ => false end.

Definition isPerformStep (ev : Event) : bool :=
  match ev with PerformStep _ => true | _ => false end.

Definition isQueue (ev : Event) : bool :=
  match ev with Queue _ => true | _ => false end.

Definition isFlush (ev : Event) : bool :=
  match ev with Flush => true | _ => false end.

Definition isReportAgentFinished (ev : Event) : bool :=
  match ev with RPC_ReportAgentFinished _ => true | _ => false end.

Definition isTerminalStart (ev : Event) : bool :=
  match ev with TerminalStart _ => true | _ => false end.

Definition isFinalizeOf (sink : nat) (ev : Event) : bool :=
  match ev with LogFinalize s => Nat.eqb s sink | _ => false end.

Definition isKillOf (process : nat) (ev : Event) : bool :=
  match ev with ProcessKill p => Nat.eqb p process | _ => false end.

(** The events of the prelude of [RunBuild], before the terminal pre-scan. *)
Definition isPrelude (ev : Event) : bool :=
  match ev with
  | RPC_InitialCommands _ | RPC_ReportAgentError
  | EnsureFolderExists _ | Chdir _ | HttpCacheStart => true
  | _ => false
  end.




(** The number of entries of the registry whose field [field] is [x]. *)
Definition occurrences (field : CommandAndLogs -> nat) (x : nat)
    (registry : list CommandAndLogs) : nat :=
  List.length (List.filter (fun b => Nat.eqb (field b) x) registry).

(** The number of entries of the registry whose log sink is [sink]. *)
Definition registered (sink : nat) (registry : list CommandAndLogs) : nat :=
  occurrences Logs sink registry.

(** Two drains in sequence: the drain leaves the registry as it is, so
    the second one runs over the same entries. *)
Definition drainTwice (killFails1 killFails2 : nat -> bool)
    (registry : list CommandAndLogs) : list Event :=
  drain killFails1 registry ++ drain killFails2 registry.

Definition sleeper : CommandAndLogs :=
  {| BgName := "bg"; Cmd := 1; Logs := 0 |}.

(** The events a step can emit. *)
Definition isStepEvent (ev : Event) : bool :=
  match ev with
  | LogWrite _ | LogFinalize _ | RPC_ReportAgentWarning
  | GitFetch _ _ | GitClone _ _ | RemoveAll _ | EnsureFolderExists _
  | WriteFile _ _ => true
  | _ => false
  end.

(** The events of a clone or of a file creation: log writes, Git and
    file operations. *)
Definition isHandlerEvent (ev : Event) : bool :=
  match ev with
  | LogWrite _ | GitFetch _ _ | GitClone _ _ | RemoveAll _
  | EnsureFolderExists _ | WriteFile _ _ => true
  | _ => false
  end.

Definition isFailed (r : CommandResult) : bool :=
  bool_decide (ResultStatus r = Status_FAILED).

Definition isTerminal (r : CommandResult) : bool :=
  negb (bool_decide (ResultStatus r = Status_EXECUTING)).

(** The value of [failedAtLeastOnce] after the results of [history] have
    been queued: the initial value, or true once a step has failed. *)
Definition failedSoFar (initial : bool) (history : list CommandResult) : bool :=
  initial || existsb isFailed history.

(** The names of the commands that have their final result (skipped,
    completed or failed) in [history], in the order of the history. *)
Definition terminalNames (history : list CommandResult) : list string :=
  ResultName <$> List.filter isTerminal history.

Definition exitStep : Command :=
  {| Name := "stop"; Behaviour := Command_ALWAYS;
     Instr := Command_ExitInstruction |}.

Definition backgroundStep : Command :=
  {| Name := "bg"; Behaviour := Command_ALWAYS;
     Instr := Command_BackgroundScriptInstruction ["sleep 300"] |}.

(** A task that starts a background script and then asks to exit. *)
Definition exitAfterBackground : World :=
  worldOf (Some (responseOf "server" [backgroundStep; exitStep]))
    (fun _ => stepOf true ∅).

(** The same task without the exit. *)
Definition backgroundOnly : World :=
  worldOf (Some (responseOf "server" [backgroundStep]))
    (fun _ => stepOf true ∅).

(** The registry holds distinct sinks and distinct processes, all created
    before [handles]. *)
Definition wellFormed (handles : nat) (registry : list CommandAndLogs) : Prop :=
  NoDup (Logs <$> registry)
  /\ NoDup (Cmd <$> registry)
  /\ Forall (fun b => (Logs b < handles)%nat /\ (Cmd b < handles)%nat) registry.

(** The events of [RunBuild] before the loop. *)
Definition isSetup (ev : Event) : bool := isPrelude ev || isTerminalStart ev.

(** The events of the loop. *)
Definition isLoopEvent (ev : Event) : bool :=
  isQueue ev || isFlush ev || isPerformStep ev || isStepEvent ev.

(** ** Observations for the further properties *)

(** [shouldKillProcesses]: the processes of a script are killed with it
    unless [CIRRUS_ESCAPING_PROCESSES] is defined. *)
Definition shouldKillProcesses (executor : Executor) : bool :=
  let shouldNotKillProcesses :=
    bool_decide
      (is_Some (environment.Lookup (env executor) "CIRRUS_ESCAPING_PROCESSES")) in
  negb shouldNotKillProcesses.

(** Every [PerformStep] of the trace comes right after the EXECUTING
    result of that command has been queued and the batcher flushed. *)
Definition announced (events : list Event) : Prop :=
  forall i name,
    events !! i = Some (PerformStep name) ->
    exists k, i = S (S k)
              /\ events !! k = Some (Queue (result name Status_EXECUTING))
              /\ events !! S k = Some Flush.

(** The fields of the executor that are set at launch or in the prelude
    of [RunBuild]. *)
Definition sameSettings (e e' : Executor) : Prop :=
  taskId e' = taskId e
  /\ clientToken e' = clientToken e
  /\ serverToken e' = serverToken e
  /\ httpCacheHost e' = httpCacheHost e
  /\ commandFrom e' = commandFrom e
  /\ commandTo e' = commandTo e
  /\ preCreatedWorkingDir e' = preCreatedWorkingDir e
  /\ terminalWrapper e' = terminalWrapper e.

(** The environment after [performStep], case by case. *)
Definition envAfterStep (w : StepWorld) (before : Environment)
    (currentStep : Command) : Environment :=
  if newLogUploaderFails w then before
  else
    match cirrusEnvPath w with
    | None => before
    | Some path =>
        let prepared := environment.Set_ before "CIRRUS_ENV" path in
        if isExit (Instr currentStep) then prepared
        else
          environment.Merge prepared (cirrusEnvVariables w)
            (bool_decide
               (is_Some (environment.Lookup before "CIRRUS_ENV_SENSITIVE")))
    end.

(** Whether [performStep] registers a background command. *)
Definition registers (w : StepWorld) (currentStep : Command) : bool :=
  isBackgroundScript (Instr currentStep)
  && negb (newLogUploaderFails w)
  && bool_decide (is_Some (cirrusEnvPath w))
  && negb (backgroundLaunchFails w).

Definition isChdir (ev : Event) : bool :=
  match ev with Chdir _ => true | _ => false end.

Definition isReportAgentError (ev : Event) : bool :=
  match ev with RPC_ReportAgentError => true | _ => false end.

Definition isRemoveAll (ev : Event) : bool :=
  match ev with RemoveAll _ => true | _ => false end.

Definition isWriteFile (ev : Event) : bool :=
  match ev with WriteFile _ _ => true | _ => false end.

Definition isHttpCacheStart (ev : Event) : bool :=
  match ev with HttpCacheStart => true | _ => false end.

(** The SKIPPED results of a list of commands, in order. *)
Definition skippedResults (commands : list Command) : list Event :=
  (fun command => Queue (result (Name command) Status_SKIPPED)) <$> commands.

(** ** The stages of [RunBuild], named *)

(** The environment after the merge of [getScriptEnvironment]. *)
Definition mergedEnvironment (w : World) (executor : Executor)
    (response : CommandsResponse) : Environment :=
  environment.Merge (env executor)
    (getScriptEnvironment (host w) executor (ResponseEnvironment response))
    false.

(** The outcome of the unboxing loop of [RunBuild]. *)
Definition unboxing (w : World) (executor : Executor)
    (response : CommandsResponse) : Unboxing :=
  let merged := mergedEnvironment w executor response in
  unboxItems w (map_to_list (environment.Items merged)) merged false.

(** The environment once the host's [CIRRUS_HTTP_CACHE_HOST] is taken
    over, before the cache proxy is considered. *)
Definition presetEnvironment (w : World) (unboxed : Environment) : Environment :=
  match LookupEnv (host w) "CIRRUS_HTTP_CACHE_HOST" with
  | Some cacheHost =>
      environment.Set_ unboxed "CIRRUS_HTTP_CACHE_HOST" cacheHost
  | None => unboxed
  end.

(** The executor when the command list is looked at. *)
Definition loopExecutor (w : World) (executor : Executor)
    (response : CommandsResponse) (unboxed : Environment) : Executor :=
  let preset := presetEnvironment w unboxed in
  let cached :=
    match environment.Lookup preset "CIRRUS_HTTP_CACHE_HOST" with
    | Some _ => preset
    | None =>
        environment.Set_ preset "CIRRUS_HTTP_CACHE_HOST" (httpCacheStart w)
    end in
  let prepared :=
    with_env
      (with_httpCacheHost executor
         (environment.Get cached "CIRRUS_HTTP_CACHE_HOST"))
      (environment.AddSensitiveValues cached (SecretsToMask response)) in
  match terminalInstruction (Commands response) with
  | Some terminalServerAddress =>
      with_terminalWrapper prepared (Some terminalServerAddress)
  | None => prepared
  end.

(** The events up to the loop. *)
Definition setupEvents (w : World) (response : CommandsResponse)
    (unboxed : Environment) : list Event :=
  ((initialCalls (S (initialFailures w))
      ++ match environment.Lookup unboxed "CIRRUS_WORKING_DIR" with
         | Some workingDir => [EnsureFolderExists workingDir; Chdir workingDir]
         | None => []
         end)
     ++ match environment.Lookup (presetEnvironment w unboxed)
                "CIRRUS_HTTP_CACHE_HOST" with
        | Some _ => []
        | None => [HttpCacheStart]
        end)
    ++ match terminalInstruction (Commands response) with
       | Some terminalServerAddress => [TerminalStart terminalServerAddress]
       | None => []
       end.

(** [RunBuild] from the command list on. *)
Definition runFrom (w : World) (executor : Executor) (handles : nat)
    (response : CommandsResponse) (unboxed : Environment) : Run :=
  let entered := loopExecutor w executor response unboxed in
  let setup := setupEvents w response unboxed in
  match Commands response with
  | [] =>
      {| runExecutor := entered; runHandles := handles;
         runEvents := setup; runEnding := Returned |}
  | _ :: _ =>
      match BoundedCommands (Commands response) (commandFrom executor)
              (commandTo executor) with
      | None =>
          {| runExecutor := entered; runHandles := handles;
             runEvents := setup;
             runEnding := Panicked "slice bounds out of range" |}
      | Some bounded =>
          let looped :=
            runCommands w 0 bounded entered handles (FailedAtLeastOnce response) in
          {| runExecutor := loopedExecutor looped;
             runHandles := loopedHandles looped;
             runEvents :=
               setup ++ loopedEvents looped
                 ++ (if loopedExit looped then []
                     else teardown w (loopedExecutor looped) (loopedEvents looped));
             runEnding := Returned |}
      end
  end.

(** The events of the teardown. *)
Definition isTeardownEvent (ev : Event) : bool :=
  match ev with
  | Flush | ProcessKill _ | LogWrite _ | LogFinalize _ | MetricsCancel
  | RPC_ReportAgentWarning | RPC_ReportAgentFinished _ => true
  | _ => false
  end.

(** The events of a run before the loop when nothing goes wrong. *)
Definition isEntryEvent (ev : Event) : bool :=
  match ev with
  | RPC_InitialCommands _ | EnsureFolderExists _ | Chdir _ | HttpCacheStart
  | TerminalStart _ => true
  | _ => false
  end.



(** * Properties *)

(** ** Scenarios *)

Example ex_transportSettings_default :
  transportSettings "https://grpc.cirrus-ci.com:443" = ("grpc.cirrus-ci.com:443", false).
Proof. reflexivity. Qed.

Example ex_transportSettings_http :
  transportSettings "http://localhost:8080" = ("localhost:8080", true).
Proof. reflexivity. Qed.

Example ex_transportSettings_unix :
  transportSettings "unix:///var/run/agent.sock" = ("unix:///var/run/agent.sock", true).
Proof. reflexivity. Qed.

Example ex_transportSettings_bare :
  transportSettings "grpc.cirrus-ci.com:443" = ("grpc.cirrus-ci.com:443", false).
Proof. reflexivity. Qed.

Example retryable_tls mapToLower :
  retryableCloneError mapToLower (Some "remote error: TLS handshake failure")
  = true.
Proof. reflexivity. Qed.

Example retryable_other mapToLower :
  retryableCloneError mapToLower (Some "reference has changed concurrently")
  = false.
Proof. reflexivity. Qed.

Example retryable_dotted_capital_i :
  retryableCloneError dottedLower (Some dottedConnection) = true.
Proof. reflexivity. Qed.

Example BoundedCommands_resumption :
  BoundedCommands abcd "b" "d"
  = Some [script "b" Command_ALWAYS; script "c" Command_ALWAYS].
Proof. reflexivity. Qed.

Example BoundedCommands_absent_names :
  BoundedCommands abcd "x" "y" = Some abcd.
Proof. reflexivity. Qed.

Example BoundedCommands_repeated_from :
  BoundedCommands
    [script "a" Command_ALWAYS; script "b" Command_ALWAYS; script "a" Command_ON_FAILURE]
    "a" ""
  = Some [script "a" Command_ON_FAILURE].
Proof. reflexivity. Qed.

Example formatInt_42 : formatInt 42 = "42".
Proof. reflexivity. Qed.

Example formatInt_neg : formatInt (-7) = "-7".
Proof. reflexivity. Qed.

(** Scenario "happy path": two scripts, both executed and completed. *)
Example scenario_happy_path :
  let commands := [script "main" Command_ALWAYS; script "after" Command_ON_SUCCESS] in
  let run :=
    RunBuild (worldOf (Some (responseOf "server" commands)) (fun _ => stepOf true ∅))
      (agent "" "") 0 in
  (fun r => (ResultName r, ResultStatus r)) <$> History (runEvents run)
  = [("main", Status_EXECUTING); ("main", Status_COMPLETED);
     ("after", Status_EXECUTING); ("after", Status_COMPLETED)]
  /\ count isReportAgentFinished (runEvents run) = 1%nat.
Proof. by vm_compute. Qed.

(** Scenario "failure fans out skips": the first script fails. *)
Example scenario_failure_fans_out :
  let commands :=
    [script "a" Command_ALWAYS; script "b" Command_ON_SUCCESS;
     script "c" Command_ON_FAILURE] in
  let run :=
    RunBuild
      (worldOf (Some (responseOf "server" commands))
         (fun i => stepOf (negb (Nat.eqb i 0)) ∅))
      (agent "" "") 0 in
  (fun r => (ResultName r, ResultStatus r)) <$> History (runEvents run)
  = [("a", Status_EXECUTING); ("a", Status_FAILED); ("b", Status_SKIPPED);
     ("c", Status_EXECUTING); ("c", Status_COMPLETED)].
Proof. by vm_compute. Qed.

(** Scenario "resumption": from [b] (inclusive) to [d] (exclusive). *)
Example scenario_resumption :
  let run :=
    RunBuild (worldOf (Some (responseOf "server" abcd)) (fun _ => stepOf true ∅))
      (agent "b" "d") 0 in
  (fun r => (ResultName r, ResultStatus r)) <$> History (runEvents run)
  = [("b", Status_EXECUTING); ("b", Status_COMPLETED);
     ("c", Status_EXECUTING); ("c", Status_COMPLETED)].
Proof. by vm_compute. Qed.


(** ** Strings *)

Local Arguments String.append : simpl nomatch.
Local Arguments Strings.HasPrefix : simpl never.

Section StringFacts.

Implicit Types s p sub : string.

Lemma prefix_empty s : String.prefix "" s = true.
Proof. by destruct s. Qed.

Lemma append_assoc s1 s2 s3 : (s1 +:+ s2) +:+ s3 = s1 +:+ (s2 +:+ s3).
Proof. induction s1 as [|c s1 IH]; simpl; congruence. Qed.

Lemma HasPrefix_spec s p :
  Strings.HasPrefix s p = true <-> exists post, s = p +:+ post.
Proof.
  unfold Strings.HasPrefix. revert s.
  induction p as [|c p IH]; intros s.
  - rewrite prefix_empty. split; [eauto | done].
  - destruct s as [|d s]; simpl.
    + split; [done | intros [post H]; discriminate].
    + destruct (ascii_dec c d) as [->|Hne].
      * rewrite IH. split; intros [post H]; exists post; congruence.
      * split; [done | intros [post H]; congruence].
Qed.

Lemma HasPrefix_append p s : Strings.HasPrefix (p +:+ s) p = true.
Proof. apply HasPrefix_spec. eauto. Qed.

Lemma Contains_spec s sub :
  Strings.Contains s sub = true <-> Strings.substring_of sub s.
Proof.
  unfold Strings.substring_of.
  induction s as [|c s IH]; simpl.
  - rewrite orb_false_r, HasPrefix_spec. split.
    + intros [post H]. by exists "", post.
    + intros [[|d pre] [post H]]; [eauto | discriminate].
  - rewrite orb_true_iff, IH, HasPrefix_spec. split.
    + intros [[post H] | (pre & post & H)].
      * by exists "", post.
      * exists (String c pre), post. simpl. congruence.
    + intros [[|d pre] [post H]].
      * left. eauto.
      * right. exists pre, post. simpl in H. congruence.
Qed.

Lemma Contains_false_HasPrefix s sub :
  Strings.Contains s sub = false -> Strings.HasPrefix s sub = false.
Proof. destruct s; simpl; intros H; by apply orb_false_iff in H as [? _]. Qed.

(** A string that contains a longer pattern contains each part of it. *)
Lemma Contains_part s a sub b :
  Strings.Contains s (a +:+ sub +:+ b) = true -> Strings.Contains s sub = true.
Proof.
  rewrite !Contains_spec. intros (pre & post & ->).
  exists (pre +:+ a), (b +:+ post). by rewrite !append_assoc.
Qed.

Lemma skip_append p s : Strings.skip (String.length p) (p +:+ s) = s.
Proof. by induction p. Qed.

Lemma TrimPrefix_append p s : Strings.TrimPrefix (p +:+ s) p = s.
Proof.
  unfold Strings.TrimPrefix. by rewrite HasPrefix_append, skip_append.
Qed.

Lemma TrimPrefix_none s p :
  Strings.HasPrefix s p = false -> Strings.TrimPrefix s p = s.
Proof. unfold Strings.TrimPrefix. by intros ->. Qed.

(** A host[:port] has no slash, so it cannot contain a scheme. *)
Lemma no_slash_no_scheme s :
  Strings.Contains s "/" = false -> Strings.Contains s "https://" = false.
Proof.
  intros H. destruct (Strings.Contains s "https://") eqn:E; [|done].
  apply (Contains_part s "https:" "/" "/") in E. congruence.
Qed.

End StringFacts.

(** ** The transport settings of the launcher *)

Section TransportSettings.

Lemma Contains_scheme_https rest :
  Strings.Contains ("https://" +:+ rest) "https://" = true.
Proof. apply Contains_spec. by exists "", rest. Qed.

Lemma Contains_scheme_separator scheme rest :
  Strings.Contains (scheme +:+ "://" +:+ rest) "://" = true.
Proof. apply Contains_spec. by exists scheme, rest. Qed.

Lemma transportSettings_https rest :
  transportSettings ("https://" +:+ rest) = (rest, false).
Proof.
  unfold transportSettings. rewrite Contains_scheme_https. simpl orb. cbv iota.
  rewrite (TrimPrefix_none ("https://" +:+ rest) "http://") by reflexivity.
  by rewrite TrimPrefix_append.
Qed.

Lemma transportSettings_http rest :
  Strings.Contains rest "https://" = false ->
  transportSettings ("http://" +:+ rest) = (rest, true).
Proof.
  intros H. unfold transportSettings.
  assert (Strings.Contains ("http://" +:+ rest) "https://" = false) as ->
    by (simpl; exact H).
  assert (Strings.Contains ("http://" +:+ rest) "://" = true) as ->
    by apply (Contains_scheme_separator "http" rest).
  simpl orb. cbv iota.
  rewrite TrimPrefix_append.
  by rewrite TrimPrefix_none by by apply Contains_false_HasPrefix.
Qed.

Lemma transportSettings_unix path :
  Strings.Contains path "https://" = false ->
  transportSettings ("unix://" +:+ path) = ("unix://" +:+ path, true).
Proof.
  intros H. unfold transportSettings.
  assert (Strings.Contains ("unix://" +:+ path) "https://" = false) as ->
    by (simpl; exact H).
  assert (Strings.Contains ("unix://" +:+ path) "://" = true) as ->
    by apply (Contains_scheme_separator "unix" path).
  simpl orb. cbv iota.
  rewrite (TrimPrefix_none ("unix://" +:+ path) "http://") by reflexivity.
  by rewrite TrimPrefix_none by reflexivity.
Qed.

Lemma transportSettings_no_scheme endpoint :
  Strings.Contains endpoint "://" = false ->
  transportSettings endpoint = (endpoint, false).
Proof.
  intros H. unfold transportSettings. rewrite H, orb_true_r.
  assert (Strings.HasPrefix endpoint "http://" = false) as H1.
  { destruct (Strings.HasPrefix endpoint "http://") eqn:E; [|done].
    apply HasPrefix_spec in E as [post ->].
    pose proof (Contains_scheme_separator "http" post) as C.
    simpl in C, H. congruence. }
  assert (Strings.HasPrefix endpoint "https://" = false) as H2.
  { destruct (Strings.HasPrefix endpoint "https://") eqn:E; [|done].
    apply HasPrefix_spec in E as [post ->].
    pose proof (Contains_scheme_separator "https" post) as C.
    simpl in C, H. congruence. }
  by rewrite (TrimPrefix_none _ _ H1), (TrimPrefix_none _ _ H2).
Qed.

End TransportSettings.

(** C7 (amended).  The launch endpoint selects mode and target: a string
    [https://rest] is secure with target [rest]; [http://rest] is insecure
    with target [rest] and [unix://path] is insecure with the endpoint
    unchanged as target, both provided the part after the scheme does not
    itself contain [https://] (a host[:port] never does, see
    [no_slash_no_scheme]); a string without [://] is secure with the
    endpoint verbatim as target. *)
Theorem transportSettings_selects_mode_and_target :
  (forall hostport,
      transportSettings ("https://" +:+ hostport) = (hostport, false))
  /\ (forall hostport,
        Strings.Contains hostport "https://" = false ->
        transportSettings ("http://" +:+ hostport) = (hostport, true))
  /\ (forall path,
        Strings.Contains path "https://" = false ->
        transportSettings ("unix://" +:+ path) = ("unix://" +:+ path, true))
  /\ (forall endpoint,
        Strings.Contains endpoint "://" = false ->
        transportSettings endpoint = (endpoint, false)).
Proof.
  split; [exact transportSettings_https |].
  split; [exact transportSettings_http |].
  split; [exact transportSettings_unix | exact transportSettings_no_scheme].
Qed.

Lemma transportSettings_selects_mode_and_target_witness :
  transportSettings ("http://" +:+ "localhost:8080") = ("localhost:8080", true)
  /\ transportSettings ("unix://" +:+ "/var/run/agent.sock")
     = ("unix://" +:+ "/var/run/agent.sock", true)
  /\ transportSettings "grpc.cirrus-ci.com:443" = ("grpc.cirrus-ci.com:443", false).
Proof.
  split; [| split].
  - apply (proj1 (proj2 transportSettings_selects_mode_and_target)).
    reflexivity.
  - apply (proj1 (proj2 (proj2 transportSettings_selects_mode_and_target))).
    reflexivity.
  - apply (proj2 (proj2 (proj2 transportSettings_selects_mode_and_target))).
    reflexivity.
Defined.

(** C7 as stated fails: a unix socket path may contain [https://] (a
    directory named [https:]), and such an endpoint is dialled in secure
    mode. *)
Lemma transportSettings_unix_path_with_https :
  ~ (forall path,
       transportSettings ("unix://" +:+ path) = ("unix://" +:+ path, true)).
Proof.
  intros H. specialize (H "/srv/https://agent.sock"). discriminate H.
Qed.

(** ** The classifier of retryable clone errors and the retries *)

Section Retries.

Lemma count_app p events1 events2 :
  count p (events1 ++ events2) = (count p events1 + count p events2)%nat.
Proof. induction events1 as [|ev rest IH]; simpl; [done | lia]. Qed.

Lemma count_writes p events :
  (forall sink, p (LogWrite sink) = false) ->
  forallb isLogWrite events = true ->
  count p events = 0%nat.
Proof.
  intros Hp. induction events as [|[] rest IH]; simpl; try done.
  intros H. by rewrite Hp, IH.
Qed.

Lemma forallb_isLogWrite_app events1 events2 :
  forallb isLogWrite (events1 ++ events2)
  = forallb isLogWrite events1 && forallb isLogWrite events2.
Proof. apply forallb_app. Qed.

Lemma updateSubmodules_writes logUploader fails :
  forallb isLogWrite (fst (updateSubmodules logUploader fails)) = true.
Proof. induction fails as [|[] rest IH]; simpl; done. Qed.

Lemma finishClone_writes git logUploader is_clone_modules :
  forallb isLogWrite (fst (finishClone git logUploader is_clone_modules)) = true.
Proof.
  unfold finishClone.
  pose proof (updateSubmodules_writes logUploader (submoduleUpdateFails git)) as Hsub.
  destruct (updateSubmodules logUploader (submoduleUpdateFails git))
    as [subEvents subOk]; simpl in Hsub.
  destruct (headFails git), (headIsChange git), (worktreeFails git),
    (resetFails git), is_clone_modules, (submodulesFail git), subOk;
    simpl; rewrite ?forallb_isLogWrite_app, ?Hsub; done.
Qed.

Lemma retryableCloneError_nil mapToLower :
  retryableCloneError mapToLower None = false.
Proof. reflexivity. Qed.

Lemma retryableCloneError_isErr mapToLower err :
  isErr err && retryableCloneError mapToLower err
  = retryableCloneError mapToLower err.
Proof. by destruct err. Qed.

Lemma errorContains_isErr err sub :
  isErr err && errorContains err sub = errorContains err sub.
Proof. by destruct err. Qed.

Lemma retryableCloneError_spec mapToLower msg :
  retryableCloneError mapToLower (Some msg) = true
  <-> exists sub, In sub retryableSubstrings
                  /\ Strings.substring_of sub (Strings.ToLower mapToLower msg).
Proof.
  unfold retryableCloneError, retryableSubstrings. cbv zeta. split.
  - intros H.
    repeat match type of H with
    | (if Strings.Contains ?s ?sub then _ else _) = _ =>
        destruct (Strings.Contains s sub) eqn:?;
        [ exists sub; split; [simpl; tauto | by apply Contains_spec] | ]
    end.
    discriminate.
  - intros (sub & Hin & Hsub). apply Contains_spec in Hsub.
    simpl in Hin.
    destruct Hin as [<-|[<-|[<-|[<-|[<-|[]]]]]]; rewrite ?Hsub;
      repeat match goal with
      | |- (if ?c then _ else _) = _ => destruct c
      end; done.
Qed.

End Retries.

Section CloneAttempts.

Variables (git : GitWorld) (logUploader : nat) (env : Environment).

Lemma finishClone_no_clone m :
  count isGitClone (fst (finishClone git logUploader m)) = 0%nat.
Proof. apply count_writes; [done | apply finishClone_writes]. Qed.

Lemma finishClone_no_fetch m :
  count isGitFetch (fst (finishClone git logUploader m)) = 0%nat.
Proof. apply count_writes; [done | apply finishClone_writes]. Qed.

(** Branch and tag mode: one clone, and one more exactly when the first
    fails with a retryable error. *)
Lemma CloneRepository_clone_attempts :
  environment.Lookup env "CIRRUS_PR" = None ->
  caCertsFail git = false ->
  count isGitClone (fst (CloneRepository git logUploader env))
  = if retryableCloneError (MapToLower git) (cloneErrors git 0)
    then 2%nat else 1%nat.
Proof.
  intros Hpr Hca. unfold CloneRepository. cbv zeta.
  rewrite Hpr, Hca, retryableCloneError_isErr.
  match goal with
  | |- context [finishClone git logUploader ?m] =>
      pose proof (finishClone_no_clone m) as Hfin;
      destruct (finishClone git logUploader m) as [finishEvents ok]
  end.
  simpl in Hfin.
  destruct (retryableCloneError (MapToLower git) (cloneErrors git 0));
    [destruct (isErr (cloneErrors git 1)) | destruct (isErr (cloneErrors git 0))];
    match goal with
    | |- context [(0 <? ?d)%Z] => destruct (0 <? d)%Z
    end;
    simpl; rewrite ?count_app; simpl; rewrite ?Hfin; done.
Qed.

(** PR mode: one fetch of the head ref, one of the merge ref when the
    head ref is missing, and one more exactly when the failure that
    remains is retryable. *)
Lemma CloneRepository_fetch_attempts pr_number :
  environment.Lookup env "CIRRUS_PR" = Some pr_number ->
  caCertsFail git = false ->
  plainInitFails git = false ->
  createRemoteFails git = false ->
  let missingRef := errorContains (fetchErrors git 0) "couldn't find remote ref" in
  let failure := if missingRef then fetchErrors git 1 else fetchErrors git 0 in
  count isGitFetch (fst (CloneRepository git logUploader env))
  = ((if missingRef then 2 else 1)
     + (if retryableCloneError (MapToLower git) failure then 1 else 0))%nat.
Proof.
  intros Hpr Hca Hinit Hremote. unfold CloneRepository. cbv zeta.
  rewrite Hpr, Hca, Hinit, Hremote, errorContains_isErr.
  match goal with
  | |- context [finishClone git logUploader ?m] =>
      pose proof (finishClone_no_fetch m) as Hfin;
      destruct (finishClone git logUploader m) as [finishEvents ok]
  end.
  simpl in Hfin.
  destruct (errorContains (fetchErrors git 0) "couldn't find remote ref");
    rewrite retryableCloneError_isErr;
    [ destruct (retryableCloneError (MapToLower git) (fetchErrors git 1));
      [destruct (isErr (fetchErrors git 2)) | destruct (isErr (fetchErrors git 1))]
    | destruct (retryableCloneError (MapToLower git) (fetchErrors git 0));
      [destruct (isErr (fetchErrors git 1)) | destruct (isErr (fetchErrors git 0))] ];
    match goal with
    | |- context [(0 <? ?d)%Z] => destruct (0 <? d)%Z
    end;
    destruct (worktreeFails git), (checkoutFails git);
    simpl; rewrite ?count_app; simpl; rewrite ?count_app; simpl;
    rewrite ?Hfin; done.
Qed.

End CloneAttempts.

(** C9.  The classifier returns false for a nil error; for a non-nil error
    it returns true iff the lower-cased text — the result of
    [strings.ToLower], also for a text that is not ASCII — contains one of
    [timeout], [tls], [connection], [authentication], [not found]; and a
    clone or
    fetch failure classified retryable triggers exactly one additional
    attempt (none is triggered otherwise): a clone is attempted twice
    when its first failure is retryable and once otherwise, and in PR
    mode the fetch of the head ref (followed by the fetch of the merge
    ref when the head ref is missing) is followed by one more fetch
    exactly when the remaining failure is retryable. *)
Theorem retryableCloneError_classifies_and_retries_once :
  (forall mapToLower, retryableCloneError mapToLower None = false)
  /\ (forall mapToLower msg,
        retryableCloneError mapToLower (Some msg) = true
        <-> exists sub,
              In sub retryableSubstrings
              /\ Strings.substring_of sub (Strings.ToLower mapToLower msg))
  /\ (forall git logUploader env,
        environment.Lookup env "CIRRUS_PR" = None ->
        caCertsFail git = false ->
        count isGitClone (fst (CloneRepository git logUploader env))
        = if retryableCloneError (MapToLower git) (cloneErrors git 0)
    then 2%nat else 1%nat)
  /\ (forall git logUploader env pr_number,
        environment.Lookup env "CIRRUS_PR" = Some pr_number ->
        caCertsFail git = false ->
        plainInitFails git = false ->
        createRemoteFails git = false ->
        let missingRef :=
          errorContains (fetchErrors git 0) "couldn't find remote ref" in
        let failure :=
          if missingRef then fetchErrors git 1 else fetchErrors git 0 in
        count isGitFetch (fst (CloneRepository git logUploader env))
        = ((if missingRef then 2 else 1)
           + (if retryableCloneError (MapToLower git) failure then 1 else 0))%nat).
Proof.
  split; [exact retryableCloneError_nil |].
  split; [exact retryableCloneError_spec |].
  split; [exact CloneRepository_clone_attempts |
          exact CloneRepository_fetch_attempts].
Qed.

Lemma retryableCloneError_classifies_and_retries_once_witness :
  count isGitClone (fst (CloneRepository flakyGit 0 environment.NewEmpty)) = 2%nat
  /\ count isGitFetch (fst (CloneRepository flakyGit 0 pullRequestEnv)) = 2%nat
  /\ count isGitClone (fst (CloneRepository dottedGit 0 environment.NewEmpty))
     = 2%nat.
Proof.
  split; [| split].
  - apply (proj1 (proj2 (proj2 retryableCloneError_classifies_and_retries_once))
             flakyGit 0%nat environment.NewEmpty); reflexivity.
  - apply (proj2 (proj2 (proj2 retryableCloneError_classifies_and_retries_once))
             flakyGit 0%nat pullRequestEnv "7"); reflexivity.
  - apply (proj1 (proj2 (proj2 retryableCloneError_classifies_and_retries_once))
             dottedGit 0%nat environment.NewEmpty); reflexivity.
Defined.

(** ** Bounded commands *)

Section Bounded.

Implicit Types (commands : list Command) (name : string).

Lemma scanned_cons name command rest :
  scanned name (command :: rest)
  = match scanned name rest with
    | Some j => Some (S j)
    | None =>
        if negb (name =? "") && (Name command =? name) then Some 0%nat
        else None
    end.
Proof.
  unfold scanned. simpl. destruct (name =? ""); [done |].
  by destruct (lastIndexOf name rest).
Qed.

Lemma scanBounds_scanned fromName toName commands : forall i left right,
  scanBounds fromName toName i commands (left, right)
  = (match scanned fromName commands with Some j => (i + j)%nat | None => left end,
     match scanned toName commands with Some j => (i + j)%nat | None => right end).
Proof.
  induction commands as [|command rest IH]; intros i left right.
  - unfold scanned. simpl. by destruct (fromName =? ""), (toName =? "").
  - simpl scanBounds. rewrite IH, !scanned_cons.
    destruct (scanned fromName rest), (scanned toName rest);
      destruct (negb (fromName =? "") && (Name command =? fromName)),
               (negb (toName =? "") && (Name command =? toName));
      simpl; f_equal; lia.
Qed.

Lemma boundOf_scanned name commands default :
  boundOf lastIndexOf name commands default
  = match scanned name commands with Some j => j | None => default end.
Proof. unfold boundOf, scanned. by destruct (name =? ""). Qed.

Lemma BoundedCommands_goSlice commands fromName toName :
  BoundedCommands commands fromName toName
  = goSlice commands
      (boundOf lastIndexOf fromName commands 0)
      (boundOf lastIndexOf toName commands (List.length commands)).
Proof.
  unfold BoundedCommands. rewrite scanBounds_scanned, !boundOf_scanned. simpl.
  by destruct (scanned fromName commands), (scanned toName commands).
Qed.

Lemma lastIndexOf_lookup name commands j :
  lastIndexOf name commands = Some j ->
  exists command, commands !! j = Some command /\ Name command = name.
Proof.
  revert j. induction commands as [|command rest IH]; intros j; simpl; [done |].
  destruct (lastIndexOf name rest) as [k|].
  - intros [= <-]. by apply IH.
  - destruct (Name command =? name) eqn:E; [|done].
    intros [= <-]. exists command. split; [done |]. by apply String.eqb_eq.
Qed.

Lemma lastIndexOf_None name commands :
  lastIndexOf name commands = None <-> name ∉ names commands.
Proof.
  unfold names. induction commands as [|command rest IH]; simpl.
  - split; [intros _; apply not_elem_of_nil | done].
  - rewrite not_elem_of_cons, <- IH.
    destruct (lastIndexOf name rest); [split; [done | by intros [_ ?]] |].
    destruct (Name command =? name) eqn:E.
    + apply String.eqb_eq in E. split; [done | intros [? _]; congruence].
    + apply String.eqb_neq in E. split; [intros _; split; congruence | done].
Qed.

Lemma lastIndexOf_lt name commands j :
  lastIndexOf name commands = Some j -> (j < List.length commands)%nat.
Proof.
  intros H. apply lastIndexOf_lookup in H as (command & H & _).
  by apply lookup_lt_Some in H.
Qed.

Lemma boundOf_le name commands default :
  (default <= List.length commands)%nat ->
  (boundOf lastIndexOf name commands default <= List.length commands)%nat.
Proof.
  intros H. unfold boundOf. destruct (name =? ""); [done |].
  destruct (lastIndexOf name commands) as [j|] eqn:E; [|done].
  apply lastIndexOf_lt in E. lia.
Qed.

(** With unique names the last match is the first match. *)
Lemma lastIndexOf_unique name commands :
  NoDup (names commands) ->
  lastIndexOf name commands = firstIndexOf name commands.
Proof.
  unfold names. induction commands as [|command rest IH]; simpl; [done |].
  intros [Hnotin Hrest]%NoDup_cons. specialize (IH Hrest).
  destruct (Name command =? name) eqn:E.
  - apply String.eqb_eq in E. subst name.
    apply lastIndexOf_None in Hnotin. by rewrite Hnotin.
  - rewrite IH. by destruct (firstIndexOf name rest).
Qed.

Lemma goSlice_Some {A} (s : list A) low high :
  (high <= List.length s)%nat ->
  goSlice s low high
  = if (low <=? high)%nat then Some (take (high - low) (drop low s)) else None.
Proof.
  intros H. unfold goSlice.
  by rewrite (proj2 (Nat.leb_le high (List.length s)) H), andb_true_r.
Qed.

Lemma goSlice_elem {A} (s : list A) low high bounded x :
  goSlice s low high = Some bounded ->
  x ∈ bounded ->
  exists k, (low <= k < high)%nat /\ s !! k = Some x.
Proof.
  unfold goSlice.
  destruct ((low <=? high)%nat && (high <=? List.length s)%nat) eqn:E; [|done].
  apply andb_true_iff in E as [E1%Nat.leb_le E2%Nat.leb_le].
  intros [= <-] [k Hk]%list_elem_of_lookup.
  apply lookup_take_Some in Hk as [Hk Hlt]. rewrite lookup_drop in Hk.
  exists (low + k)%nat. split; [lia | done].
Qed.

Lemma goSlice_first {A} (s : list A) low high first rest :
  goSlice s low high = Some (first :: rest) -> s !! low = Some first.
Proof.
  unfold goSlice.
  destruct ((low <=? high)%nat && (high <=? List.length s)%nat); [|done].
  intros [= H].
  assert (take (high - low) (drop low s) !! 0%nat = Some first) as Hk
    by by rewrite H.
  apply lookup_take_Some in Hk as [Hk _]. rewrite lookup_drop in Hk.
  by rewrite Nat.add_0_r in Hk.
Qed.

End Bounded.

(** C3 (amended).  [BoundedCommands(commands, "", "")] is [commands].  For
    every pair of names, with [left] the index of the last command named
    [fromName] (0 if the name is empty or absent) and [right] the index of
    the last command named [toName] (the length if the name is empty or
    absent), the result is the contiguous sub-slice [commands[left:right]]
    whenever [left <= right] (there is no result otherwise).  With unique
    names the last match is the first match.  The first element of a
    non-empty result is named [fromName] whenever that name is a non-empty
    member, and with unique names no element named [toName] is included. *)
Theorem BoundedCommands_half_open_range commands :
  BoundedCommands commands "" "" = Some commands
  /\ (forall fromName toName,
        let left := boundOf lastIndexOf fromName commands 0 in
        let right := boundOf lastIndexOf toName commands (List.length commands) in
        BoundedCommands commands fromName toName
        = if (left <=? right)%nat
          then Some (take (right - left) (drop left commands))
          else None)
  /\ (NoDup (names commands) ->
      forall name, lastIndexOf name commands = firstIndexOf name commands)
  /\ (forall fromName toName first rest,
        fromName <> "" ->
        fromName ∈ names commands ->
        BoundedCommands commands fromName toName = Some (first :: rest) ->
        Name first = fromName)
  /\ (forall fromName toName bounded,
        NoDup (names commands) ->
        toName <> "" ->
        BoundedCommands commands fromName toName = Some bounded ->
        forall command, command ∈ bounded -> Name command <> toName).
Proof.
  split; [| split; [| split; [| split]]].
  - rewrite BoundedCommands_goSlice. unfold boundOf, goSlice. simpl.
    rewrite Nat.leb_refl, Nat.sub_0_r. simpl. by rewrite firstn_all.
  - intros fromName toName left right. rewrite BoundedCommands_goSlice.
    apply goSlice_Some. by apply boundOf_le.
  - intros Hnodup name. by apply lastIndexOf_unique.
  - intros fromName toName first rest Hne Hin H.
    rewrite BoundedCommands_goSlice in H. apply goSlice_first in H.
    unfold boundOf in H. apply String.eqb_neq in Hne. rewrite Hne in H.
    destruct (lastIndexOf fromName commands) as [j|] eqn:E.
    + apply lastIndexOf_lookup in E as (command & Hj & Hname). congruence.
    + by apply lastIndexOf_None in E.
  - intros fromName toName bounded Hnodup Hne H command Hin Hname.
    rewrite BoundedCommands_goSlice in H.
    destruct (goSlice_elem _ _ _ _ _ H Hin) as (k & [_ Hk] & Hlook).
    unfold boundOf in Hk at 1. apply String.eqb_neq in Hne. rewrite Hne in Hk.
    destruct (lastIndexOf toName commands) as [j|] eqn:E.
    + apply lastIndexOf_lookup in E as (other & Hj & Hother).
      assert (k = j); [| lia].
      apply (NoDup_lookup (names commands) k j toName Hnodup);
        unfold names; rewrite list_lookup_fmap.
      * by rewrite Hlook; simpl; rewrite Hname.
      * by rewrite Hj; simpl; rewrite Hother.
    + apply lastIndexOf_None in E. apply E. unfold names.
      apply list_elem_of_fmap. exists command. split; [done |].
      by apply list_elem_of_lookup; exists k.
Qed.

Lemma BoundedCommands_half_open_range_witness :
  Name (script "b" Command_ALWAYS) = "b"
  /\ (forall command,
        command ∈ [script "b" Command_ALWAYS; script "c" Command_ALWAYS] ->
        Name command <> "d").
Proof.
  split.
  - apply (proj1 (proj2 (proj2 (proj2 (BoundedCommands_half_open_range abcd))))
             "b" "d" (script "b" Command_ALWAYS) [script "c" Command_ALWAYS]).
    + discriminate.
    + apply (bool_decide_unpack _). reflexivity.
    + reflexivity.
  - apply (proj2 (proj2 (proj2 (proj2 (BoundedCommands_half_open_range abcd))))
             "b" "d").
    + apply (bool_decide_unpack _). reflexivity.
    + discriminate.
    + reflexivity.
Defined.

(** C3 as stated fails on lists with unique names: when the command named
    [fromName] comes after the one named [toName] the slice expression
    has its bounds out of range and there is no result; when both names
    are the same the result is empty, so its first element is not named
    [fromName] although that name is a member.  And on a list that
    repeats a name the lower bound is the last command of that name, not
    the first. *)
Lemma BoundedCommands_from_not_before_to :
  BoundedCommands abcd "c" "b" = None
  /\ BoundedCommands abcd "b" "b" = Some []
  /\ BoundedCommands
       [script "a" Command_ALWAYS; script "b" Command_ALWAYS;
        script "a" Command_ON_FAILURE] "a" ""
     = Some [script "a" Command_ON_FAILURE].
Proof. repeat split. Qed.

(** ** The working directory *)

Section WorkingDir.

Lemma replaceByte_idem sep s :
  Ascii.eqb sep "/" = false ->
  filepath.replaceByte sep "/" (filepath.replaceByte sep "/" s)
  = filepath.replaceByte sep "/" s.
Proof.
  intros Hsep. induction s as [|c s IH]; simpl; [done |].
  rewrite IH. destruct (Ascii.eqb c sep) eqn:E; [|by rewrite E].
  by rewrite Ascii.eqb_sym, Hsep.
Qed.

Lemma ToSlash_slashForm sep path : slashForm sep (filepath.ToSlash sep path).
Proof.
  unfold slashForm, filepath.ToSlash.
  destruct (Ascii.eqb sep "/") eqn:E; [done | by apply replaceByte_idem].
Qed.

Lemma getScriptEnvironment_working_dir host executor responseEnvironment :
  getScriptEnvironment host executor responseEnvironment !! "CIRRUS_WORKING_DIR"
  = Some (resolvedWorkingDir host executor responseEnvironment).
Proof.
  unfold getScriptEnvironment, resolvedWorkingDir. cbv zeta.
  set (withOS :=
    match responseEnvironment !! "OS" with
    | Some _ => responseEnvironment
    | None =>
        match LookupEnv host "OS" with
        | Some _ => responseEnvironment
        | None => <["OS" := GOOS host]> responseEnvironment
        end
    end).
  assert (withOS !! "CIRRUS_WORKING_DIR"
          = responseEnvironment !! "CIRRUS_WORKING_DIR") as HOS.
  { unfold withOS. destruct (responseEnvironment !! "OS"); [done |].
    destruct (LookupEnv host "OS"); [done |]. by rewrite lookup_insert_ne. }
  set (synthesised :=
    <["CIRRUS_ARCH" := GOARCH host]> (<["CIRRUS_OS" := GOOS host]> withOS)).
  assert (synthesised !! "CIRRUS_WORKING_DIR"
          = responseEnvironment !! "CIRRUS_WORKING_DIR") as Hsyn.
  { unfold synthesised. by rewrite !lookup_insert_ne. }
  destruct (responseEnvironment !! "CIRRUS_WORKING_DIR") as [serverValue|] eqn:E.
  - rewrite bool_decide_true by (rewrite Hsyn; eauto). simpl.
    by rewrite Hsyn.
  - rewrite bool_decide_false by (rewrite Hsyn; by intros [? ?]). simpl.
    destruct (preCreatedWorkingDir executor =? ""); simpl.
    + rewrite Hsyn.
      destruct (StatIsNotExist host (Join host (TempDir host) "cirrus-ci-build"));
        simpl; [by rewrite lookup_insert_eq |].
      destruct (commandFrom executor =? ""); simpl; by rewrite lookup_insert_eq.
    + rewrite lookup_insert_eq. by rewrite lookup_insert_eq.
Qed.

End WorkingDir.

(** C8 (amended).  For every server-supplied environment map the resolved
    [CIRRUS_WORKING_DIR] is chosen in priority order: the server-supplied
    value if present; else the launcher's [preCreatedWorkingDir] if
    non-empty; else the temp-dir path [cirrus-ci-build] when that
    directory does not yet exist, or when it exists and the run is a
    resumption; else a directory freshly created in the temp dir from the
    pattern [cirrus-task-<taskId>].  The two temp-dir choices are put in
    forward-slash form; the server-supplied value and
    [preCreatedWorkingDir] are used verbatim. *)
Theorem getScriptEnvironment_working_dir_priority host executor responseEnvironment :
  getScriptEnvironment host executor responseEnvironment !! "CIRRUS_WORKING_DIR"
  = Some (resolvedWorkingDir host executor responseEnvironment)
  /\ (responseEnvironment !! "CIRRUS_WORKING_DIR" = None ->
      preCreatedWorkingDir executor = "" ->
      slashForm (Separator host)
        (resolvedWorkingDir host executor responseEnvironment)).
Proof.
  split; [apply getScriptEnvironment_working_dir |].
  intros Hserver Hpre. unfold resolvedWorkingDir. rewrite Hserver, Hpre. simpl.
  match goal with |- context [if ?c then _ else _] => destruct c end;
    apply ToSlash_slashForm.
Qed.

Lemma getScriptEnvironment_working_dir_priority_witness :
  slashForm (Separator windows)
    (resolvedWorkingDir windows (NewExecutor 42 "client" "server" "" "" "") ∅).
Proof.
  apply (proj2 (getScriptEnvironment_working_dir_priority windows
                  (NewExecutor 42 "client" "server" "" "" "") ∅));
    reflexivity.
Defined.

(** C8 as stated fails: on a host whose separator is the backslash, a
    [preCreatedWorkingDir] written with backslashes is the resolved
    working directory as it is, not in forward-slash form. *)
Lemma getScriptEnvironment_precreated_keeps_backslashes :
  let executor := NewExecutor 42 "client" "server" "" "" "C:\agent\work" in
  getScriptEnvironment windows executor ∅ !! "CIRRUS_WORKING_DIR"
  = Some "C:\agent\work"
  /\ ~ slashForm (Separator windows) "C:\agent\work".
Proof. split; [by vm_compute | by vm_compute]. Qed.

(** ** The epilogue of a step *)

Section Epilogue.

Variables (w : StepWorld) (executor : Executor) (handles : nat)
          (currentStep : Command).

Lemma dispatch_env e h logUploader :
  env (switchedExecutor (dispatch w e h logUploader currentStep)) = env e.
Proof.
  unfold dispatch. destruct (Instr currentStep); simpl; try done.
  by destruct (backgroundLaunchFails w).
Qed.

(** The environment after a step that reaches its epilogue. *)
Lemma performStep_env path :
  newLogUploaderFails w = false ->
  cirrusEnvPath w = Some path ->
  isExit (Instr currentStep) = false ->
  let before := environment.Set_ (env executor) "CIRRUS_ENV" path in
  env (steppedExecutor (performStep w executor handles currentStep))
  = environment.Merge before (cirrusEnvVariables w)
      (bool_decide
         (is_Some (environment.Lookup (env executor) "CIRRUS_ENV_SENSITIVE"))).
Proof.
  intros Hlog Hpath Hexit before. unfold performStep. cbv zeta.
  rewrite Hlog, Hpath, Hexit. cbn [steppedExecutor with_env env].
  rewrite dispatch_env. cbn [with_env env]. fold before.
  f_equal. unfold before, environment.Lookup, environment.Set_.
  cbn [vars]. by rewrite lookup_insert_ne.
Qed.

End Epilogue.

(** C5 (amended).  At the end of every [performStep] that reaches its
    epilogue (the log uploader and the scratch file were created and the
    instruction is not Exit), the variables parsed from the step's
    [CIRRUS_ENV] file are merged into the environment with [markSensitive]
    true iff [CIRRUS_ENV_SENSITIVE] is defined in the environment before
    that merge.  So the values of the file are registered as sensitive
    when the flag was defined before the step, and a step whose flag is
    defined only inside its own file leaves the sensitive values as they
    were: its variables are merged, but not marked. *)
Theorem performStep_CIRRUS_ENV_sensitivity w executor handles currentStep path :
  newLogUploaderFails w = false ->
  cirrusEnvPath w = Some path ->
  isExit (Instr currentStep) = false ->
  let after := env (steppedExecutor (performStep w executor handles currentStep)) in
  let flag := environment.Lookup (env executor) "CIRRUS_ENV_SENSITIVE" in
  after
  = environment.Merge (environment.Set_ (env executor) "CIRRUS_ENV" path)
      (cirrusEnvVariables w) (bool_decide (is_Some flag))
  /\ (forall key value,
        cirrusEnvVariables w !! key = Some value ->
        environment.Lookup after key = Some value)
  /\ (is_Some flag ->
      forall key value,
        cirrusEnvVariables w !! key = Some value ->
        value ∈ sensitiveValues after)
  /\ (flag = None -> sensitiveValues after = sensitiveValues (env executor)).
Proof.
  intros Hlog Hpath Hexit after flag.
  pose proof (performStep_env w executor handles currentStep path Hlog Hpath Hexit)
    as Henv.
  cbv zeta in Henv. fold after flag in Henv.
  split; [exact Henv |]. rewrite Henv. split; [| split].
  - intros key value Hkv. unfold environment.Lookup, environment.Merge.
    cbn [vars]. by apply lookup_union_Some_l.
  - intros Hflag key value Hkv. rewrite bool_decide_true by done.
    unfold environment.Merge. cbn [sensitiveValues].
    apply elem_of_union_r, elem_of_list_to_set, list_elem_of_fmap.
    exists (key, value). split; [done |]. by apply elem_of_map_to_list.
  - intros Hflag. rewrite Hflag.
    rewrite bool_decide_false by (by intros [? ?]). done.
Qed.

Lemma performStep_CIRRUS_ENV_sensitivity_witness :
  let after :=
    env (steppedExecutor
           (performStep (stepOf true selfSensitive) (agent "" "") 0
              (script "main" Command_ALWAYS))) in
  sensitiveValues after = sensitiveValues (env (agent "" "")).
Proof.
  apply (proj2 (proj2 (proj2
    (performStep_CIRRUS_ENV_sensitivity (stepOf true selfSensitive)
       (agent "" "") 0 (script "main" Command_ALWAYS) "/tmp/cirrus-env"
       eq_refl eq_refl eq_refl)))).
  reflexivity.
Defined.

(** C5 as stated fails in its last part: a step that defines
    [CIRRUS_ENV_SENSITIVE] only inside its own file has the flag and its
    other variables merged, but its values are not marked sensitive. *)
Lemma performStep_own_flag_not_sensitive :
  let after :=
    env (steppedExecutor
           (performStep (stepOf true selfSensitive) (agent "" "") 0
              (script "main" Command_ALWAYS))) in
  environment.Lookup after "CIRRUS_ENV_SENSITIVE" = Some "true"
  /\ environment.Lookup after "TOKEN" = Some "s3cr3t"
  /\ "s3cr3t" ∉ sensitiveValues after.
Proof.
  split; [by vm_compute |]. split; [by vm_compute |].
  assert (sensitiveValues
            (env (steppedExecutor
                    (performStep (stepOf true selfSensitive) (agent "" "") 0
                       (script "main" Command_ALWAYS)))) = ∅) as -> by reflexivity.
  apply not_elem_of_empty.
Qed.

(** ** The control loop: what a run emits *)

Section Prelude.

Lemma count_none p q events :
  (forall ev, q ev = true -> p ev = false) ->
  forallb q events = true ->
  count p events = 0%nat.
Proof.
  intros Hpq. induction events as [|ev rest IH]; simpl; [done |].
  intros [Hq Hrest]%andb_true_iff. by rewrite (Hpq ev Hq), IH.
Qed.

Lemma initialCalls_only n : forallb isInitialCommands (initialCalls n) = true.
Proof.
  destruct n as [|k]; simpl; [done |]. by induction k.
Qed.

Lemma initialCalls_prelude n : forallb isPrelude (initialCalls n) = true.
Proof.
  destruct n as [|k]; simpl; [done |]. by induction k.
Qed.

Variables (w : World) (executor : Executor) (handles : nat)
          (response : CommandsResponse).
Hypothesis Hinitial : initialCommands w = Some response.

(** A response with another server token: the run panics after the
    calls of [InitialCommands]. *)
Lemma RunBuild_mismatch :
  ServerToken response <> serverToken executor ->
  RunBuild w executor handles
  = {| runExecutor := executor; runHandles := handles;
       runEvents := initialCalls (S (initialFailures w));
       runEnding := Panicked "Server token is incorrect!" |}.
Proof.
  intros Hne. unfold RunBuild. rewrite Hinitial.
  apply String.eqb_neq in Hne. by rewrite Hne.
Qed.


End Prelude.

(** C4.  When the server token of the response differs from the launch
    token, [RunBuild] ends in the panic "Server token is incorrect!"
    having done nothing but call [InitialCommands]: [performStep] is
    invoked for no command, no [CommandResult] is queued, the update
    batcher is never flushed (no [ReportCommandUpdates]) and
    [ReportAgentFinished] is never issued. *)
Theorem RunBuild_token_mismatch w executor handles response :
  initialCommands w = Some response ->
  ServerToken response <> serverToken executor ->
  let run := RunBuild w executor handles in
  runEnding run = Panicked "Server token is incorrect!"
  /\ forallb isInitialCommands (runEvents run) = true
  /\ count isPerformStep (runEvents run) = 0%nat
  /\ count isQueue (runEvents run) = 0%nat
  /\ count isFlush (runEvents run) = 0%nat
  /\ count isReportAgentFinished (runEvents run) = 0%nat.
Proof.
  intros Hinitial Hne run. unfold run.
  rewrite (RunBuild_mismatch w executor handles response Hinitial Hne).
  cbn [runEnding runEvents].
  pose proof (initialCalls_only (S (initialFailures w))) as Hcalls.
  split; [done |]. split; [done |].
  repeat split; apply (count_none _ isInitialCommands); try done;
    by intros [].
Qed.

Lemma RunBuild_token_mismatch_witness :
  let run :=
    RunBuild (worldOf (Some (responseOf "X" abcd)) (fun _ => stepOf true ∅))
      (NewExecutor 42 "client" "Y" "" "" "") 0 in
  runEnding run = Panicked "Server token is incorrect!"
  /\ forallb isInitialCommands (runEvents run) = true
  /\ count isPerformStep (runEvents run) = 0%nat
  /\ count isQueue (runEvents run) = 0%nat
  /\ count isFlush (runEvents run) = 0%nat
  /\ count isReportAgentFinished (runEvents run) = 0%nat.
Proof.
  apply (RunBuild_token_mismatch
           (worldOf (Some (responseOf "X" abcd)) (fun _ => stepOf true ∅))
           (NewExecutor 42 "client" "Y" "" "" "") 0 (responseOf "X" abcd)).
  - reflexivity.
  - discriminate.
Defined.




(** ** The drain of the background registry *)

Section Drain.

Lemma drain_finalizes killFails registry sink :
  count (isFinalizeOf sink) (drain killFails registry) = registered sink registry.
Proof.
  unfold registered, occurrences.
  induction registry as [|b rest IH]; simpl; [done |].
  rewrite count_app. simpl. rewrite IH.
  destruct (killFails (Cmd b)); simpl; by destruct (Logs b =? sink)%nat.
Qed.

Lemma drain_kills killFails registry process :
  count (isKillOf process) (drain killFails registry)
  = occurrences Cmd process registry.
Proof.
  unfold occurrences.
  induction registry as [|b rest IH]; simpl; [done |].
  rewrite count_app. simpl. rewrite IH.
  destruct (killFails (Cmd b)); simpl; by destruct (Cmd b =? process)%nat.
Qed.

Lemma occurrences_unique field registry b :
  NoDup (field <$> registry) ->
  b ∈ registry ->
  occurrences field (field b) registry = 1%nat.
Proof.
  unfold occurrences. induction registry as [|c rest IH]; simpl.
  - by intros _ ?%elem_of_nil.
  - intros [Hnotin Hrest]%NoDup_cons [->|Hin]%elem_of_cons.
    + rewrite Nat.eqb_refl. simpl. f_equal.
      apply length_zero_iff_nil.
      destruct (List.filter _ rest) as [|d ?] eqn:E; [done |].
      exfalso. apply Hnotin.
      assert (In d (List.filter (fun b : CommandAndLogs => (field b =? field c)%nat) rest))
        as Hd by (rewrite E; by left).
      apply filter_In in Hd as [Hd Heq]. apply Nat.eqb_eq in Heq.
      rewrite <- Heq. apply list_elem_of_fmap. exists d.
      split; [done | by apply list_elem_of_In].
    + destruct (field c =? field b)%nat eqn:E; [| by apply IH].
      apply Nat.eqb_eq in E. exfalso. apply Hnotin. rewrite E.
      apply list_elem_of_fmap. by exists b.
Qed.

Lemma registered_unique registry b :
  NoDup (Logs <$> registry) ->
  b ∈ registry ->
  registered (Logs b) registry = 1%nat.
Proof. apply occurrences_unique. Qed.

End Drain.

(** C6 (amended).  One drain kills the process and finalises the log sink
    of every registry entry, once per entry — exactly once when the sinks
    of the registry are distinct — and leaves the registry as it is; a
    second drain in sequence therefore finalises every sink again: after
    two drains each sink has been finalised twice as often as after
    one. *)
Theorem drain_finalizes_each_time killFails1 killFails2 registry sink :
  count (isFinalizeOf sink) (drain killFails1 registry) = registered sink registry
  /\ (forall process,
        count (isKillOf process) (drain killFails1 registry)
        = occurrences Cmd process registry)
  /\ count (isFinalizeOf sink) (drainTwice killFails1 killFails2 registry)
     = (2 * registered sink registry)%nat
  /\ (NoDup (Logs <$> registry) ->
      forall b, b ∈ registry ->
                count (isFinalizeOf (Logs b)) (drain killFails1 registry) = 1%nat).
Proof.
  split; [apply drain_finalizes |].
  split; [intros process; apply drain_kills |]. split.
  - unfold drainTwice. rewrite count_app, !drain_finalizes. lia.
  - intros Hnodup b Hin. rewrite drain_finalizes. by apply registered_unique.
Qed.

Lemma drain_finalizes_each_time_witness :
  count (isFinalizeOf (Logs sleeper)) (drain (fun _ => false) [sleeper]) = 1%nat.
Proof.
  apply (proj2 (proj2 (proj2 (drain_finalizes_each_time
                                (fun _ => false) (fun _ => false) [sleeper] 0%nat)))).
  - apply (bool_decide_unpack _). reflexivity.
  - constructor.
Defined.

(** C6 as stated fails: the second of two drains kills and finalises the
    entry again. *)
Lemma drain_twice_finalizes_twice :
  drain (fun _ => false) [sleeper] = [ProcessKill 1; LogFinalize 0]
  /\ drainTwice (fun _ => false) (fun _ => false) [sleeper]
     = [ProcessKill 1; LogFinalize 0; ProcessKill 1; LogFinalize 0]
  /\ count (isFinalizeOf 0) (drainTwice (fun _ => false) (fun _ => false) [sleeper])
     = 2%nat.
Proof. repeat split. Qed.

(** ** The loop over the commands *)

Section StepEvents.

Lemma forallb_weaken (p q : Event -> bool) events :
  (forall ev, p ev = true -> q ev = true) ->
  forallb p events = true -> forallb q events = true.
Proof.
  intros Hpq. induction events as [|ev rest IH]; simpl; [done |].
  intros [Hp Hrest]%andb_true_iff. by rewrite (Hpq ev Hp), IH.
Qed.

Lemma finishClone_handler_events git logUploader m :
  forallb isHandlerEvent (fst (finishClone git logUploader m)) = true.
Proof.
  apply (forallb_weaken isLogWrite); [by intros [] |].
  apply finishClone_writes.
Qed.

Lemma CloneRepository_handler_events git logUploader env :
  forallb isHandlerEvent (fst (CloneRepository git logUploader env)) = true.
Proof.
  unfold CloneRepository. cbv zeta.
  match goal with
  | |- context [finishClone git logUploader ?m] =>
      pose proof (finishClone_handler_events git logUploader m) as Hfin;
      destruct (finishClone git logUploader m) as [finishEvents ok]
  end.
  simpl in Hfin.
  repeat match goal with
  | |- context [if ?c then _ else _] => destruct c
  | |- context [match ?x with _ => _ end] => destruct x
  end;
    simpl; rewrite ?forallb_app; simpl; rewrite ?forallb_app; simpl;
    rewrite ?Hfin; done.
Qed.

Lemma CreateFile_handler_events expand dir fails logUploader source path env :
  forallb isHandlerEvent
    (fst (CreateFile expand dir fails logUploader source path env)) = true.
Proof.
  unfold CreateFile.
  by repeat match goal with
  | |- context [if ?c then _ else _] => destruct c
  | |- context [match ?x with _ => _ end] => destruct x
  end.
Qed.

Lemma CloneRepository_step_events git logUploader env :
  forallb isStepEvent (fst (CloneRepository git logUploader env)) = true.
Proof.
  apply (forallb_weaken isHandlerEvent); [by intros [] |].
  apply CloneRepository_handler_events.
Qed.

Lemma dispatch_step_events w e h logUploader currentStep :
  forallb isStepEvent
    (switchedEvents (dispatch w e h logUploader currentStep)) = true.
Proof.
  unfold dispatch. destruct (Instr currentStep); simpl; try done.
  - apply CloneRepository_step_events.
  - apply (forallb_weaken isHandlerEvent); [by intros [] |].
    apply CreateFile_handler_events.
  - by destruct (backgroundLaunchFails w).
  - by induction (terminalLogs w).
Qed.

Lemma performStep_step_events w e h currentStep :
  forallb isStepEvent (steppedEvents (performStep w e h currentStep)) = true.
Proof.
  unfold performStep. cbv zeta.
  destruct (newLogUploaderFails w); [done |].
  destruct (cirrusEnvPath w) as [path|];
    [| by destruct (isBackgroundScript (Instr currentStep))].
  destruct (isExit (Instr currentStep));
    [by destruct (isBackgroundScript (Instr currentStep)) |].
  cbn [steppedEvents]. rewrite !forallb_app, dispatch_step_events.
  by destruct (consumeFails w), (isBackgroundScript (Instr currentStep)).
Qed.

Lemma History_app events1 events2 :
  History (events1 ++ events2) = History events1 ++ History events2.
Proof. apply omap_app. Qed.

Lemma History_step_events events :
  forallb isStepEvent events = true -> History events = [].
Proof.
  induction events as [|ev rest IH]; simpl; [done |].
  intros [Hev Hrest]%andb_true_iff. unfold History in *. simpl.
  rewrite (IH Hrest). by destruct ev.
Qed.

Lemma History_performStep w e h currentStep :
  History (steppedEvents (performStep w e h currentStep)) = [].
Proof. apply History_step_events, performStep_step_events. Qed.

End StepEvents.

Section Loop.

Variable w : World.

Lemma after_nil l : after [] l = l.
Proof. by destruct l. Qed.

Lemma after_after events1 events2 l :
  after events1 (after events2 l) = after (events1 ++ events2) l.
Proof. unfold after. simpl. by rewrite app_assoc. Qed.

(** The loop over a concatenation: the loop over the first part and,
    unless that was left by the exit, the loop over the second part
    from the state reached. *)
Lemma runCommands_app pre post : forall i executor handles failed,
  runCommands w i (pre ++ post) executor handles failed
  = let before := runCommands w i pre executor handles failed in
    if loopedExit before then before
    else after (loopedEvents before)
           (runCommands w (i + List.length pre) post (loopedExecutor before)
              (loopedHandles before) (loopedFailed before)).
Proof.
  induction pre as [|command pre IH]; intros i executor handles failed.
  - simpl. by rewrite Nat.add_0_r, after_nil.
  - cbn [app runCommands List.length]. cbv zeta.
    replace (i + S (List.length pre))%nat with (S i + List.length pre)%nat by lia.
    destruct (negb (shouldRun (Behaviour command) failed)).
    + rewrite IH. cbv zeta. cbn [after loopedExit].
      destruct (loopedExit (runCommands w (S i) pre executor handles failed));
        [done |].
      by rewrite after_after.
    + destruct (steppedReturn (performStep (stepWorld w i) executor handles command))
        as [stepResult|]; [| done].
      rewrite IH. cbv zeta. cbn [after loopedExit].
      match goal with
      | |- context [loopedExit ?l] => destruct (loopedExit l); [done |]
      end.
      by rewrite after_after.
Qed.

(** [failedAtLeastOnce] is the initial value until a step fails, and
    true from then on: it is true after the loop iff it was true before
    or a FAILED result was queued. *)
Lemma loopedFailed_history commands : forall i executor handles failed,
  loopedFailed (runCommands w i commands executor handles failed)
  = failedSoFar failed
      (History (loopedEvents (runCommands w i commands executor handles failed))).
Proof.
  unfold failedSoFar.
  induction commands as [|command rest IH]; intros i executor handles failed.
  - simpl. by rewrite orb_false_r.
  - cbn [runCommands]. cbv zeta.
    destruct (negb (shouldRun (Behaviour command) failed)).
    + cbn [after loopedFailed loopedEvents]. rewrite IH.
      change (History ([?q] ++ ?l)) with (History ([q] ++ l)).
      rewrite History_app. simpl. done.
    + destruct (steppedReturn (performStep (stepWorld w i) executor handles command))
        as [stepResult|] eqn:Hret.
      * cbn [after loopedFailed loopedEvents]. rewrite IH.
        rewrite !History_app, History_performStep. simpl.
        unfold isFailed at 2. simpl.
        destruct (Success stepResult); simpl.
        -- done.
        -- by rewrite orb_true_r.
      * cbn [loopedFailed loopedEvents].
        rewrite History_app, History_performStep. simpl.
        by rewrite orb_false_r.
Qed.

(** The final results are queued in the order of the command list. *)
Lemma terminalNames_prefix commands : forall i executor handles failed,
  let looped := runCommands w i commands executor handles failed in
  terminalNames (History (loopedEvents looped)) `prefix_of` names commands
  /\ (loopedExit looped = false ->
      terminalNames (History (loopedEvents looped)) = names commands).
Proof.
  unfold terminalNames, names.
  induction commands as [|command rest IH]; intros i executor handles failed.
  - simpl. split; [apply prefix_nil | done].
  - cbn [runCommands]. cbv zeta.
    destruct (negb (shouldRun (Behaviour command) failed)).
    + cbn [after loopedEvents loopedExit].
      destruct (IH (S i) executor handles failed) as [Hpre Heq].
      change ([?q] ++ ?l) with (q :: l). simpl.
      split; [by apply prefix_cons | intros H; f_equal; by apply Heq].
    + destruct (steppedReturn (performStep (stepWorld w i) executor handles command))
        as [stepResult|] eqn:Hret.
      * cbn [after loopedEvents loopedExit].
        rewrite !History_app, History_performStep.
        match goal with
        | |- context [runCommands w (S i) rest ?e ?h ?f] =>
            destruct (IH (S i) e h f) as [Hpre Heq]
        end.
        destruct (Success stepResult); simpl;
          (split; [by apply prefix_cons | intros H; f_equal; by apply Heq]).
      * cbn [loopedEvents loopedExit].
        rewrite History_app, History_performStep. simpl.
        split; [apply prefix_nil | done].
Qed.

End Loop.

(** C2 (amended).  For every command list and every initial value of
    [failedAtLeastOnce], the loop handles the commands in order until a
    step returns the exit sentinel, and nothing after it.  At every
    command reached, [failedAtLeastOnce] is the initial value or true
    once an earlier step has failed (a FAILED result was queued), and the
    command is executed iff [shouldRun] holds under that value: a command
    with [shouldRun] false has a SKIPPED result queued and no step is
    performed for it; a command with [shouldRun] true has EXECUTING
    queued and flushed and [performStep] invoked, followed by its
    COMPLETED or FAILED result, unless the step returns the exit
    sentinel, which ends the loop.  The final results are queued in
    command-list order, one for every command when the loop is not left
    by the exit. *)
Theorem runCommands_execution_behaviour w executor handles initial pre command post :
  let before := runCommands w 0 pre executor handles initial in
  let whole := runCommands w 0 (pre ++ command :: post) executor handles initial in
  let failedAtLeastOnce := failedSoFar initial (History (loopedEvents before)) in
  let i := List.length pre in
  loopedFailed before = failedAtLeastOnce
  /\ (loopedExit before = true -> whole = before)
  /\ (loopedExit before = false ->
      shouldRun (Behaviour command) failedAtLeastOnce = false ->
      whole
      = after (loopedEvents before
                 ++ [Queue (result (Name command) Status_SKIPPED)])
          (runCommands w (S i) post (loopedExecutor before)
             (loopedHandles before) failedAtLeastOnce))
  /\ (loopedExit before = false ->
      shouldRun (Behaviour command) failedAtLeastOnce = true ->
      let stepped :=
        performStep (stepWorld w i) (loopedExecutor before)
          (loopedHandles before) command in
      let started :=
        loopedEvents before
          ++ [Queue (result (Name command) Status_EXECUTING); Flush;
              PerformStep (Name command)]
          ++ steppedEvents stepped in
      match steppedReturn stepped with
      | ErrStepExit => loopedEvents whole = started /\ loopedExit whole = true
      | StepDone stepResult =>
          whole
          = after (started
                     ++ [Queue {| ResultName := Name command;
                                  ResultStatus :=
                                    if Success stepResult then Status_COMPLETED
                                    else Status_FAILED;
                                  DurationInNanos := Duration stepResult;
                                  ResultSignaledToExit :=
                                    SignaledToExit stepResult |}])
              (runCommands w (S i) post (steppedExecutor stepped)
                 (steppedHandles stepped)
                 (if negb (Success stepResult) then true else failedAtLeastOnce))
      end)
  /\ terminalNames (History (loopedEvents whole))
       `prefix_of` names (pre ++ command :: post)
  /\ (loopedExit whole = false ->
      terminalNames (History (loopedEvents whole)) = names (pre ++ command :: post)).
Proof.
  intros before whole failedAtLeastOnce i.
  assert (loopedFailed before = failedAtLeastOnce) as Hflag
    by apply loopedFailed_history.
  assert (whole
          = if loopedExit before then before
            else after (loopedEvents before)
                   (runCommands w i (command :: post) (loopedExecutor before)
                      (loopedHandles before) failedAtLeastOnce)) as Hwhole.
  { unfold whole. rewrite runCommands_app. cbv zeta. fold before.
    by rewrite Hflag. }
  split; [exact Hflag |]. split; [| split; [| split]].
  - intros Hexit. by rewrite Hwhole, Hexit.
  - intros Hexit Hskip. rewrite Hwhole, Hexit. cbn [runCommands].
    rewrite Hskip. cbn [negb]. by rewrite after_after.
  - intros Hexit Hrun stepped started. rewrite Hwhole, Hexit.
    cbn [runCommands]. rewrite Hrun. cbn [negb]. cbv zeta. fold stepped.
    destruct (steppedReturn stepped) as [stepResult|].
    + rewrite after_after. unfold started. by rewrite <- !app_assoc.
    + by unfold after, started.
  - apply terminalNames_prefix.
Qed.

Lemma runCommands_execution_behaviour_witness :
  let w := worldOf None (fun i => stepOf (negb (Nat.eqb i 0)) ∅) in
  let a := script "a" Command_ALWAYS in
  let b := script "b" Command_ON_SUCCESS in
  let c := script "c" Command_ON_FAILURE in
  let before := runCommands w 0 [a] (agent "" "") 0 false in
  runCommands w 0 ([a] ++ b :: [c]) (agent "" "") 0 false
  = after (loopedEvents before ++ [Queue (result "b" Status_SKIPPED)])
      (runCommands w 2 [c] (loopedExecutor before) (loopedHandles before)
         (failedSoFar false (History (loopedEvents before)))).
Proof.
  intros w a b c before.
  apply (proj1 (proj2 (proj2
    (runCommands_execution_behaviour w (agent "" "") 0 false [a] b [c]))));
    reflexivity.
Defined.

(** C2 as stated fails: after a step that returns the exit sentinel no
    command is handled any more, whatever its behaviour: the command [a]
    with [shouldRun] true is not executed, and for the command [b] with
    [shouldRun] false no SKIPPED result is queued. *)
Lemma runCommands_nothing_after_exit :
  let a := script "a" Command_ALWAYS in
  let b := script "b" Command_ON_FAILURE in
  let looped :=
    runCommands (worldOf None (fun _ => stepOf true ∅)) 0 [exitStep; a; b]
      (agent "" "") 0 false in
  shouldRun (Behaviour a) (loopedFailed looped) = true
  /\ shouldRun (Behaviour b) (loopedFailed looped) = false
  /\ loopedEvents looped
     = [Queue (result "stop" Status_EXECUTING); Flush; PerformStep "stop";
        LogFinalize 0].
Proof. repeat split. Qed.

(** ** The background registry at the end of a run *)

(** C1 fails on the code.  On the exit path [RunBuild] returns from inside
    the loop: the background script started before is still in the
    registry, its process was never killed and its log sink never
    finalised; neither the flush nor the final report happen.  Without
    the exit step the same task is drained: the process is killed and the
    sink finalised once. *)
Theorem RunBuild_exit_skips_drain :
  let run := RunBuild exitAfterBackground (agent "" "") 0 in
  let drained := RunBuild backgroundOnly (agent "" "") 0 in
  runEnding run = Returned
  /\ backgroundCommands (runExecutor run) = [sleeper]
  /\ count (isKillOf (Cmd sleeper)) (runEvents run) = 0%nat
  /\ count (isFinalizeOf (Logs sleeper)) (runEvents run) = 0%nat
  /\ count isReportAgentFinished (runEvents run) = 0%nat
  /\ backgroundCommands (runExecutor drained) = [sleeper]
  /\ count (isKillOf (Cmd sleeper)) (runEvents drained) = 1%nat
  /\ count (isFinalizeOf (Logs sleeper)) (runEvents drained) = 1%nat.
Proof. by vm_compute. Qed.

Section Registry.

Lemma wellFormed_mono h h' registry :
  (h <= h')%nat -> wellFormed h registry -> wellFormed h' registry.
Proof.
  intros Hle (HL & HC & HB). repeat split; try done.
  eapply Forall_impl; [exact HB |]. simpl. intros b [? ?]. lia.
Qed.

Lemma wellFormed_snoc h registry name :
  wellFormed h registry ->
  wellFormed (S (S h))
    (registry ++ [{| BgName := name; Cmd := S h; Logs := h |}]).
Proof.
  intros (HL & HC & HB). rewrite Forall_forall in HB.
  repeat split.
  - rewrite fmap_app. apply NoDup_app. split; [done |]. split.
    + intros s [b [-> Hb]]%list_elem_of_fmap Hs. simpl in Hs.
      apply list_elem_of_singleton in Hs. destruct (HB b Hb). lia.
    + simpl. apply NoDup_singleton.
  - rewrite fmap_app. apply NoDup_app. split; [done |]. split.
    + intros s [b [-> Hb]]%list_elem_of_fmap Hs. simpl in Hs.
      apply list_elem_of_singleton in Hs. destruct (HB b Hb). lia.
    + simpl. apply NoDup_singleton.
  - apply Forall_app. split.
    + apply Forall_forall. intros b Hb. destruct (HB b Hb). lia.
    + apply Forall_singleton. simpl. lia.
Qed.

Lemma count_kill_step_events process events :
  forallb isStepEvent events = true ->
  count (isKillOf process) events = 0%nat.
Proof. apply count_none. by intros []. Qed.

Lemma count_finalize_handler_events sink events :
  forallb isHandlerEvent events = true ->
  count (isFinalizeOf sink) events = 0%nat.
Proof. apply count_none. by intros []. Qed.

Lemma count_finalize_singleton sink h :
  count (isFinalizeOf sink) [LogFinalize h] <> 0%nat -> sink = h.
Proof.
  simpl. destruct (h =? sink)%nat eqn:E; [| done].
  by apply Nat.eqb_eq in E.
Qed.

(** The switch either leaves the registry alone, and then finalises no
    sink but the step's own, or registers the step's sink with a new
    process and emits nothing. *)
Lemma dispatch_registry w e h logUploader currentStep :
  let d := dispatch w e h logUploader currentStep in
  (backgroundCommands (switchedExecutor d) = backgroundCommands e
   /\ switchedHandles d = h
   /\ forall sink, sink <> logUploader ->
                   count (isFinalizeOf sink) (switchedEvents d) = 0%nat)
  \/ (isBackgroundScript (Instr currentStep) = true
      /\ backgroundCommands (switchedExecutor d)
         = backgroundCommands e
             ++ [{| BgName := Name currentStep; Cmd := h; Logs := logUploader |}]
      /\ switchedHandles d = S h
      /\ switchedEvents d = []).
Proof.
  unfold dispatch. destruct (Instr currentStep); simpl;
    try (left; repeat split; done).
  - left. repeat split. intros sink _.
    apply count_finalize_handler_events, CloneRepository_handler_events.
  - left. repeat split. intros sink _.
    apply count_finalize_handler_events, CreateFile_handler_events.
  - destruct (backgroundLaunchFails w); simpl.
    + left. repeat split. intros sink Hne.
      destruct (logUploader =? sink)%nat eqn:E; [| done].
      apply Nat.eqb_eq in E. congruence.
    + right. by repeat split.
  - left. repeat split. intros sink _.
    by induction (terminalLogs w).
Qed.

(** A step kills no process.  It either leaves the registry alone, and
    then finalises no sink but the one it has created itself, or it
    registers the sink and the process it has created and finalises
    nothing. *)
Lemma performStep_registry w e h currentStep :
  let stepped := performStep w e h currentStep in
  (forall process, count (isKillOf process) (steppedEvents stepped) = 0%nat)
  /\ ((backgroundCommands (steppedExecutor stepped) = backgroundCommands e
       /\ (h <= steppedHandles stepped)%nat
       /\ forall sink,
            count (isFinalizeOf sink) (steppedEvents stepped) <> 0%nat ->
            sink = h /\ (h < steppedHandles stepped)%nat)
      \/ (backgroundCommands (steppedExecutor stepped)
          = backgroundCommands e
              ++ [{| BgName := Name currentStep; Cmd := S h; Logs := h |}]
          /\ steppedHandles stepped = S (S h)
          /\ forall sink,
               count (isFinalizeOf sink) (steppedEvents stepped) = 0%nat)).
Proof.
  intros stepped. split.
  { intros process.
    apply count_kill_step_events, performStep_step_events. }
  unfold stepped, performStep. cbv zeta.
  destruct (newLogUploaderFails w).
  { left. simpl. repeat split; [lia | done | done]. }
  destruct (cirrusEnvPath w) as [path|].
  2: { left. cbn [steppedExecutor steppedHandles steppedEvents].
       split; [done |]. split; [lia |]. intros sink Hsink.
       destruct (isBackgroundScript (Instr currentStep)); [done |].
       simpl in Hsink. apply count_finalize_singleton in Hsink. split; [done | lia]. }
  destruct (isExit (Instr currentStep)).
  { left. cbn [steppedExecutor steppedHandles steppedEvents with_env backgroundCommands].
    split; [done |]. split; [lia |]. intros sink Hsink.
    destruct (isBackgroundScript (Instr currentStep)); [done |].
    apply count_finalize_singleton in Hsink. split; [done | lia]. }
  cbn [steppedExecutor steppedHandles steppedEvents with_env backgroundCommands].
  match goal with
  | |- context [dispatch w ?e' (S h) h currentStep] =>
      destruct (dispatch_registry w e' (S h) h currentStep)
        as [(Hreg & Hh & Hfin) | (Hbg & Hreg & Hh & Hev)];
      cbn [with_env backgroundCommands] in Hreg;
      rewrite Hreg, Hh
  end.
  - left. split; [done |]. split; [lia |]. intros sink Hsink.
    destruct (decide (sink = h)) as [->|Hne]; [split; [done | lia] |].
    exfalso. apply Hsink. rewrite !count_app, (Hfin sink Hne).
    destruct (consumeFails w), (isBackgroundScript (Instr currentStep));
      simpl; try done;
      destruct (h =? sink)%nat eqn:E; try done;
      apply Nat.eqb_eq in E; congruence.
  - right. split; [done |]. split; [done |]. intros sink.
    rewrite Hev, Hbg. by destruct (consumeFails w).
Qed.

End Registry.

Section LoopRegistry.

Variable w : World.

(** The loop kills nothing, keeps the registry well formed, and never
    finalises the sink of an entry that is in the registry when the
    loop is left. *)
Lemma runCommands_registry commands : forall i e h failed,
  wellFormed h (backgroundCommands e) ->
  let looped := runCommands w i commands e h failed in
  wellFormed (loopedHandles looped) (backgroundCommands (loopedExecutor looped))
  /\ (h <= loopedHandles looped)%nat
  /\ (forall b, b ∈ backgroundCommands (loopedExecutor looped) ->
                b ∈ backgroundCommands e \/ (h <= Logs b)%nat)
  /\ (forall process, count (isKillOf process) (loopedEvents looped) = 0%nat)
  /\ (forall b, b ∈ backgroundCommands (loopedExecutor looped) ->
                count (isFinalizeOf (Logs b)) (loopedEvents looped) = 0%nat).
Proof.
  induction commands as [|command rest IH]; intros i e h failed Hwf.
  - simpl. split; [done |]. split; [lia |].
    split; [intros b Hb; by left |]. by split.
  - cbn [runCommands]. cbv zeta.
    destruct (negb (shouldRun (Behaviour command) failed)).
    { destruct (IH (S i) e h failed Hwf) as (H1 & H2 & H3 & H4 & H5).
      cbn [after loopedExecutor loopedHandles loopedEvents].
      split; [done |]. split; [done |]. split; [done |]. split.
      - intros process. rewrite count_app, H4. done.
      - intros b Hb. rewrite count_app, (H5 b Hb). done. }
    set (stepped := performStep (stepWorld w i) e h command).
    destruct (performStep_registry (stepWorld w i) e h command)
      as [Hkill Hcases].
    fold stepped in Hkill, Hcases.
    assert (wellFormed (steppedHandles stepped)
              (backgroundCommands (steppedExecutor stepped))) as Hwf1.
    { destruct Hcases as [(Hreg & Hle & _) | (Hreg & Hh & _)]; rewrite Hreg.
      - by apply (wellFormed_mono h).
      - rewrite Hh. by apply wellFormed_snoc. }
    assert (h <= steppedHandles stepped)%nat as Hle1.
    { destruct Hcases as [(_ & Hle & _) | (_ & Hh & _)]; lia. }
    assert (forall b, b ∈ backgroundCommands (steppedExecutor stepped) ->
                      b ∈ backgroundCommands e \/ (h <= Logs b)%nat) as Hgrow1.
    { intros b Hb.
      destruct Hcases as [(Hreg & _) | (Hreg & _)]; rewrite Hreg in Hb.
      - by left.
      - apply elem_of_app in Hb as [Hb | ->%list_elem_of_singleton];
          [by left | right; simpl; lia]. }
    assert (forall b' h',
              (steppedHandles stepped <= h')%nat ->
              (b' ∈ backgroundCommands (steppedExecutor stepped)
               \/ (steppedHandles stepped <= Logs b')%nat) ->
              count (isFinalizeOf (Logs b')) (steppedEvents stepped) = 0%nat)
      as Hfin1.
    { intros b' h' _ Hb'.
      destruct Hcases as [(Hreg & _ & Hfin) | (_ & _ & Hfin)]; [| apply Hfin].
      destruct (count (isFinalizeOf (Logs b')) (steppedEvents stepped)) eqn:E;
        [done |].
      exfalso. destruct (Hfin (Logs b')) as [Heq Hlt]; [lia |].
      destruct Hb' as [Hb' | Hb']; [| lia].
      rewrite Hreg in Hb'. destruct Hwf as (_ & _ & HB).
      rewrite Forall_forall in HB. destruct (HB b' Hb'). lia. }
    destruct (steppedReturn stepped) as [stepResult|].
    + match goal with
      | |- context [runCommands w (S i) rest ?e1 ?h1 ?f1] =>
          destruct (IH (S i) e1 h1 f1 Hwf1) as (H1 & H2 & H3 & H4 & H5)
      end.
      cbn [after loopedExecutor loopedHandles loopedEvents].
      split; [done |]. split; [lia |]. split; [| split].
      * intros b Hb. destruct (H3 b Hb) as [Hb1 | Hb1].
        -- by apply Hgrow1.
        -- right. lia.
      * intros process. rewrite !count_app, H4, Hkill. done.
      * intros b Hb. rewrite !count_app, (H5 b Hb).
        rewrite (Hfin1 b (steppedHandles stepped)); [done | lia |].
        by destruct (H3 b Hb); [left | right].
    + cbn [loopedExecutor loopedHandles loopedEvents].
      split; [done |]. split; [lia |]. split; [done |]. split.
      * intros process. rewrite !count_app, Hkill. done.
      * intros b Hb. rewrite !count_app.
        rewrite (Hfin1 b (steppedHandles stepped)); [done | lia | by left].
Qed.

End LoopRegistry.

Section RunRegistry.

Variables (w : World) (executor : Executor) (handles : nat).

(** Either the run ends before the loop, with the registry as it was,
    or it runs the loop over some commands from an executor with the
    same registry, and then the teardown unless the loop was left by
    the exit. *)
Lemma RunBuild_cases :
  let run := RunBuild w executor handles in
  (backgroundCommands (runExecutor run) = backgroundCommands executor
   /\ forallb isSetup (runEvents run) = true)
  \/ exists e0 setup bounded failed,
       backgroundCommands e0 = backgroundCommands executor
       /\ forallb isSetup setup = true
       /\ let looped := runCommands w 0 bounded e0 handles failed in
          runExecutor run = loopedExecutor looped
          /\ runEvents run
             = setup ++ loopedEvents looped
                 ++ (if loopedExit looped then []
                     else teardown w (loopedExecutor looped) (loopedEvents looped)).
Proof.
  unfold RunBuild. cbv beta zeta.
  assert (forall n, forallb isSetup (initialCalls n) = true) as Hcalls.
  { intros n. apply (forallb_weaken isPrelude); [| apply initialCalls_prelude].
    intros ev Hev. unfold isSetup. by rewrite Hev. }
  destruct (initialCommands w) as [response|];
    [| left; split; [done | apply Hcalls]].
  destruct (negb (ServerToken response =? serverToken executor));
    [left; split; [done | apply Hcalls] |].
  destruct (unboxItems _ _ _ _) as [unboxed|];
    [| left; cbn [runExecutor runEvents];
       split; [done | by rewrite forallb_app, Hcalls]].
  destruct (Commands response) as [|first others].
  { left. cbn [runExecutor runEvents]. split.
    - by repeat match goal with
      | |- context [match ?x with _ => _ end] => destruct x
      end.
    - rewrite !forallb_app, Hcalls.
      by repeat match goal with
      | |- context [match ?x with _ => _ end] => destruct x
      end. }
  destruct (BoundedCommands _ _ _) as [bounded|].
  2: { left. cbn [runExecutor runEvents]. split.
       - by repeat match goal with
         | |- context [match ?x with _ => _ end] => destruct x
         end.
       - rewrite !forallb_app, Hcalls.
         by repeat match goal with
         | |- context [match ?x with _ => _ end] => destruct x
         end. }
  right.
  match goal with
  | |- context [runCommands w 0 bounded ?e0 handles ?f] =>
      exists e0; eexists; exists bounded, f
  end.
  split; [| split].
  - by repeat match goal with
    | |- context [match ?x with _ => _ end] => destruct x
    end.
  - shelve.
  - cbv zeta.
    match goal with
    | |- context [loopedExit ?l] => destruct (loopedExit l)
    end; cbn [runExecutor runEvents]; (split; [done |]).
    + rewrite app_nil_r. reflexivity.
    + rewrite <- app_assoc. reflexivity.
  Unshelve.
  rewrite !forallb_app, Hcalls.
  by repeat match goal with
  | |- context [match ?x with _ => _ end] => destruct x
  end.
Qed.

End RunRegistry.

Section Teardown.

Variable w : World.

Lemma runCommands_loop_events commands : forall i e h failed,
  forallb isLoopEvent (loopedEvents (runCommands w i commands e h failed)) = true.
Proof.
  induction commands as [|command rest IH]; intros i e h failed; [done |].
  cbn [runCommands]. cbv zeta.
  assert (forallb isLoopEvent
            (steppedEvents (performStep (stepWorld w i) e h command)) = true)
    as Hstep.
  { apply (forallb_weaken isStepEvent); [| apply performStep_step_events].
    intros ev Hev. unfold isLoopEvent. by rewrite Hev, !orb_true_r. }
  destruct (negb (shouldRun (Behaviour command) failed)).
  - cbn [after loopedEvents]. by rewrite forallb_app, IH.
  - destruct (steppedReturn (performStep (stepWorld w i) e h command)).
    + cbn [after loopedEvents]. by rewrite !forallb_app, IH, Hstep.
    + cbn [loopedEvents]. by rewrite !forallb_app, Hstep.
Qed.

Lemma count_replicate_warning p n :
  p RPC_ReportAgentWarning = false ->
  count p (replicate n RPC_ReportAgentWarning) = 0%nat.
Proof. intros Hp. induction n as [|n IH]; simpl; [done |]. by rewrite Hp, IH. Qed.

Lemma teardown_finalizes e loopEvents sink :
  count (isFinalizeOf sink) (teardown w e loopEvents)
  = registered sink (backgroundCommands e).
Proof.
  unfold teardown. rewrite !count_app, drain_finalizes.
  destruct (metricsErrors w), (reportFinishedFails w); simpl;
    rewrite ?count_replicate_warning by done; lia.
Qed.

Lemma teardown_kills e loopEvents process :
  count (isKillOf process) (teardown w e loopEvents)
  = occurrences Cmd process (backgroundCommands e).
Proof.
  unfold teardown. rewrite !count_app, drain_kills.
  destruct (metricsErrors w), (reportFinishedFails w); simpl;
    rewrite ?count_replicate_warning by done; lia.
Qed.

Lemma drain_no_report killFails registry :
  count isReportAgentFinished (drain killFails registry) = 0%nat.
Proof.
  induction registry as [|b rest IH]; simpl; [done |].
  rewrite count_app. simpl. rewrite IH. by destruct (killFails (Cmd b)).
Qed.

Lemma teardown_reports e loopEvents :
  count isReportAgentFinished (teardown w e loopEvents) <> 0%nat.
Proof.
  unfold teardown. rewrite !count_app, drain_no_report.
  destruct (metricsErrors w), (reportFinishedFails w); simpl;
    rewrite ?count_replicate_warning by done; lia.
Qed.

(** The registry when [RunBuild] is over: if the final report was sent,
    every entry has been killed exactly once and its log sink finalised
    exactly once; if it was not sent — the loop was left by the exit —
    no entry has been killed and no sink of an entry finalised. *)
Lemma RunBuild_registry executor handles b :
  backgroundCommands executor = [] ->
  let run := RunBuild w executor handles in
  b ∈ backgroundCommands (runExecutor run) ->
  (count isReportAgentFinished (runEvents run) <> 0%nat ->
   count (isKillOf (Cmd b)) (runEvents run) = 1%nat
   /\ count (isFinalizeOf (Logs b)) (runEvents run) = 1%nat)
  /\ (count isReportAgentFinished (runEvents run) = 0%nat ->
      count (isKillOf (Cmd b)) (runEvents run) = 0%nat
      /\ count (isFinalizeOf (Logs b)) (runEvents run) = 0%nat).
Proof.
  intros Hempty run Hb.
  destruct (RunBuild_cases w executor handles)
    as [[Hreg _] | (e0 & setup & bounded & failed & Hreg & Hsetup & Hrun & Hevents)].
  { fold run in Hreg. rewrite Hreg, Hempty in Hb. by apply elem_of_nil in Hb. }
  fold run in Hrun, Hevents.
  assert (wellFormed handles (backgroundCommands e0)) as Hwf.
  { rewrite Hreg, Hempty. repeat split; simpl;
      [apply NoDup_nil_2 | apply NoDup_nil_2 | apply Forall_nil_2]. }
  destruct (runCommands_registry w bounded 0 e0 handles failed Hwf)
    as ((HL & HC & _) & _ & _ & Hkill & Hfin).
  pose proof (runCommands_loop_events bounded 0 e0 handles failed) as Hloop.
  set (looped := runCommands w 0 bounded e0 handles failed) in *.
  rewrite Hrun in Hb. rewrite Hevents, !count_app.
  rewrite (Hkill (Cmd b)), (Hfin b Hb).
  assert (forall p, (forall ev, isSetup ev = true -> p ev = false) ->
                    count p setup = 0%nat) as Hs
    by (intros p Hp; by apply (count_none p isSetup)).
  rewrite (Hs isReportAgentFinished) by by intros [].
  rewrite (Hs (isKillOf (Cmd b))) by by intros [].
  rewrite (Hs (isFinalizeOf (Logs b))) by by intros [].
  assert (count isReportAgentFinished (loopedEvents looped) = 0%nat) as ->
    by (apply (count_none _ isLoopEvent); [by intros [] | done]).
  destruct (loopedExit looped).
  - simpl. split; [done | by split].
  - rewrite teardown_kills, teardown_finalizes.
    unfold registered. rewrite !occurrences_unique by done.
    split; [done |]. intros H. exfalso.
    by apply (teardown_reports (loopedExecutor looped) (loopedEvents looped)).
Qed.

End Teardown.

(** * Further properties of the code *)

(** ** Bounded commands: what a resumption can and cannot select *)

Section BoundedMore.

Implicit Types (commands : list Command) (name : string).

Lemma scanned_absent name commands :
  name = "" \/ name ∉ names commands -> scanned name commands = None.
Proof.
  unfold scanned. intros [-> | Hnotin]; [done |].
  destruct (name =? ""); [done |]. by apply lastIndexOf_None.
Qed.

Lemma scanned_present name commands :
  name <> "" -> name ∈ names commands ->
  exists j, scanned name commands = Some j /\ (j < List.length commands)%nat.
Proof.
  intros Hne Hin. unfold scanned. apply String.eqb_neq in Hne. rewrite Hne.
  destruct (lastIndexOf name commands) as [j|] eqn:E.
  - exists j. split; [done | by apply lastIndexOf_lt in E].
  - by apply lastIndexOf_None in E.
Qed.

Lemma BoundedCommands_scanned commands fromName toName :
  BoundedCommands commands fromName toName
  = goSlice commands
      (default 0%nat (scanned fromName commands))
      (default (List.length commands) (scanned toName commands)).
Proof.
  rewrite BoundedCommands_goSlice, !boundOf_scanned.
  by destruct (scanned fromName commands), (scanned toName commands).
Qed.

End BoundedMore.

(** X1.  Whatever the names, a result of [BoundedCommands] is a contiguous
    piece of the command list: the list is some commands, then the
    result, then some commands.  Nothing is added, dropped from the
    middle, or reordered. *)
Theorem BoundedCommands_contiguous commands fromName toName bounded :
  BoundedCommands commands fromName toName = Some bounded ->
  exists before after, commands = before ++ bounded ++ after.
Proof.
  rewrite BoundedCommands_goSlice. unfold goSlice.
  destruct (_ && _); [| done]. intros [= <-].
  set (low := boundOf lastIndexOf fromName commands 0).
  set (high := boundOf lastIndexOf toName commands (List.length commands)).
  exists (take low commands), (drop (high - low) (drop low commands)).
  by rewrite take_drop, take_drop.
Qed.

Lemma BoundedCommands_contiguous_witness :
  exists before after,
    abcd = before ++ [script "b" Command_ALWAYS; script "c" Command_ALWAYS] ++ after.
Proof.
  apply (BoundedCommands_contiguous abcd "b" "d"). reflexivity.
Defined.

(** X2.  A name that is empty or that no command bears puts no bound: with
    both names so, [BoundedCommands] returns the whole list (a misspelt
    [--command-from] or [--command-to] runs everything). *)
Theorem BoundedCommands_unknown_names commands fromName toName :
  fromName = "" \/ fromName ∉ names commands ->
  toName = "" \/ toName ∉ names commands ->
  BoundedCommands commands fromName toName = Some commands.
Proof.
  intros Hfrom Hto.
  rewrite BoundedCommands_scanned, (scanned_absent _ _ Hfrom),
    (scanned_absent _ _ Hto).
  unfold goSlice. simpl. rewrite Nat.leb_refl, Nat.sub_0_r. simpl.
  by rewrite firstn_all.
Qed.

Lemma BoundedCommands_unknown_names_witness :
  BoundedCommands abcd "build" "" = Some abcd.
Proof.
  apply BoundedCommands_unknown_names.
  - right. apply (bool_decide_unpack _). reflexivity.
  - by left.
Defined.

(** X3.  Splitting a task at a command: for a non-empty name that some
    command bears, the run up to that name (exclusive) followed by the run
    from that name (inclusive) is the whole command list, each command
    once. *)
Theorem BoundedCommands_split commands name :
  name <> "" ->
  name ∈ names commands ->
  exists before after,
    BoundedCommands commands "" name = Some before
    /\ BoundedCommands commands name "" = Some after
    /\ before ++ after = commands.
Proof.
  intros Hne Hin.
  destruct (scanned_present name commands Hne Hin) as (j & Hj & Hlt).
  exists (take j commands), (drop j commands).
  rewrite !BoundedCommands_scanned, Hj.
  assert (scanned "" commands = None) as -> by done.
  cbn [default from_option id]. rewrite !goSlice_Some by lia.
  rewrite (proj2 (Nat.leb_le j (List.length commands))) by lia.
  cbn [Nat.leb]. rewrite Nat.sub_0_r. cbn [drop].
  split; [done |]. split; [| apply take_drop].
  f_equal. apply take_ge. rewrite length_drop. lia.
Qed.

Lemma BoundedCommands_split_witness :
  exists before after,
    BoundedCommands abcd "" "c" = Some before
    /\ BoundedCommands abcd "c" "" = Some after
    /\ before ++ after = abcd.
Proof.
  apply BoundedCommands_split.
  - discriminate.
  - apply (bool_decide_unpack _). reflexivity.
Defined.

(** X4.  [BoundedCommands] fails (the slice expression panics) exactly
    when both names are non-empty and present and the last command named
    [fromName] comes after the last command named [toName]. *)
Theorem BoundedCommands_panics_iff commands fromName toName :
  BoundedCommands commands fromName toName = None
  <-> exists i j,
        scanned fromName commands = Some i
        /\ scanned toName commands = Some j
        /\ (j < i)%nat.
Proof.
  rewrite BoundedCommands_scanned. unfold goSlice.
  assert (forall name j, scanned name commands = Some j ->
                         (j < List.length commands)%nat) as Hlt.
  { intros name j. unfold scanned. destruct (name =? ""); [done |].
    apply lastIndexOf_lt. }
  destruct (scanned fromName commands) as [i|] eqn:Ei,
           (scanned toName commands) as [j|] eqn:Ej; simpl.
  - pose proof (Hlt _ _ Ei). pose proof (Hlt _ _ Ej).
    rewrite (proj2 (Nat.leb_le j (List.length commands))) by lia.
    rewrite andb_true_r. destruct (i <=? j)%nat eqn:E.
    + apply Nat.leb_le in E. split; [done |].
      intros (i' & j' & [= <-] & [= <-] & ?). lia.
    + apply Nat.leb_gt in E. split; [| done]. intros _. by exists i, j.
  - pose proof (Hlt _ _ Ei).
    rewrite (proj2 (Nat.leb_le i (List.length commands))) by lia.
    rewrite Nat.leb_refl. simpl. split; [done | by intros (? & ? & _ & ? & _)].
  - pose proof (Hlt _ _ Ej).
    rewrite (proj2 (Nat.leb_le j (List.length commands))) by lia. simpl.
    split; [done | by intros (? & ? & ? & _)].
  - rewrite Nat.leb_refl. simpl. split; [done | by intros (? & ? & ? & _)].
Qed.

(** ** One step: state and sinks *)

Section StepState.

Variables (w : StepWorld) (e : Executor) (h : nat) (currentStep : Command).

Lemma performStep_envAfterStep :
  env (steppedExecutor (performStep w e h currentStep))
  = envAfterStep w (env e) currentStep.
Proof.
  unfold envAfterStep.
  destruct (newLogUploaderFails w) eqn:Hlog;
    [by unfold performStep; rewrite Hlog |].
  destruct (cirrusEnvPath w) as [path|] eqn:Hpath;
    [| by unfold performStep; rewrite Hlog, Hpath].
  destruct (isExit (Instr currentStep)) eqn:Hexit;
    [by unfold performStep; rewrite Hlog, Hpath, Hexit |].
  by apply performStep_env.
Qed.

Lemma dispatch_settings ex hs logUploader :
  sameSettings ex (switchedExecutor (dispatch w ex hs logUploader currentStep)).
Proof.
  unfold dispatch, sameSettings.
  destruct (Instr currentStep); simpl; try done.
  by destruct (backgroundLaunchFails w).
Qed.

Lemma performStep_settings :
  sameSettings e (steppedExecutor (performStep w e h currentStep)).
Proof.
  unfold performStep. cbv zeta.
  destruct (newLogUploaderFails w); [done |].
  destruct (cirrusEnvPath w) as [path|]; [| done].
  destruct (isExit (Instr currentStep)); [done |].
  cbn [steppedExecutor].
  match goal with
  | |- context [dispatch w ?ex ?hs ?lu currentStep] =>
      pose proof (dispatch_settings ex hs lu) as H
  end.
  unfold sameSettings in *. by simpl in *.
Qed.

Lemma performStep_backgroundCommands :
  backgroundCommands (steppedExecutor (performStep w e h currentStep))
  = backgroundCommands e
      ++ (if registers w currentStep
          then [{| BgName := Name currentStep; Cmd := S h; Logs := h |}]
          else []).
Proof.
  unfold registers, performStep. cbv zeta.
  destruct (newLogUploaderFails w).
  { destruct (isBackgroundScript (Instr currentStep)); simpl;
      by rewrite app_nil_r. }
  destruct (cirrusEnvPath w) as [path|].
  2: { rewrite bool_decide_false by (by intros [? ?]).
       destruct (isBackgroundScript (Instr currentStep)); simpl;
         by rewrite app_nil_r. }
  assert (bool_decide (is_Some (Some path)) = true) as ->
    by (apply bool_decide_true; by eexists).
  destruct (isExit (Instr currentStep)) eqn:Hexit.
  { destruct (Instr currentStep); try discriminate Hexit.
    simpl. by rewrite app_nil_r. }
  cbn [steppedExecutor with_env backgroundCommands].
  unfold dispatch.
  destruct (Instr currentStep); simpl; rewrite ?app_nil_r; try done.
  destruct (backgroundLaunchFails w); simpl; by rewrite ?app_nil_r.
Qed.

Lemma performStep_finalizes :
  count (isFinalizeOf h) (steppedEvents (performStep w e h currentStep))
  = if newLogUploaderFails w then 0%nat
    else if isBackgroundScript (Instr currentStep) then
      if bool_decide (is_Some (cirrusEnvPath w)) && backgroundLaunchFails w
      then 1%nat else 0%nat
    else 1%nat.
Proof.
  unfold performStep. cbv zeta.
  destruct (newLogUploaderFails w); [done |].
  destruct (cirrusEnvPath w) as [path|].
  2: { rewrite bool_decide_false by (by intros [? ?]).
       destruct (isBackgroundScript (Instr currentStep)); simpl; [done |].
       by rewrite Nat.eqb_refl. }
  assert (bool_decide (is_Some (Some path)) = true) as ->
    by (apply bool_decide_true; by eexists).
  destruct (isExit (Instr currentStep)) eqn:Hexit.
  { destruct (Instr currentStep); try discriminate Hexit.
    simpl. by rewrite Nat.eqb_refl. }
  cbn [steppedEvents]. rewrite !count_app.
  assert (count (isFinalizeOf h)
            (if consumeFails w then [LogWrite h] else []) = 0%nat) as ->
    by by destruct (consumeFails w).
  unfold dispatch.
  destruct (Instr currentStep) eqn:Hi; try discriminate Hexit;
    cbn [switchedEvents isBackgroundScript count isFinalizeOf andb];
    rewrite ?Nat.eqb_refl; try done.
  - by rewrite count_finalize_handler_events
      by apply CloneRepository_handler_events.
  - by rewrite count_finalize_handler_events
      by apply CreateFile_handler_events.
  - destruct (backgroundLaunchFails w); simpl; by rewrite ?Nat.eqb_refl.
  - assert (count (isFinalizeOf h)
              ((fun _ => LogWrite h) <$> terminalLogs w) = 0%nat) as ->
      by by induction (terminalLogs w).
    done.
Qed.

End StepState.

(** X5.  A step appends at most one entry to the background registry and
    changes no other entry: it appends one — named after the command,
    holding the log sink and the process the step has created — exactly
    when the command is a background script whose log uploader, scratch
    file and launch all succeed. *)
Theorem performStep_registers_background_script w e h currentStep :
  backgroundCommands (steppedExecutor (performStep w e h currentStep))
  = backgroundCommands e
      ++ (if isBackgroundScript (Instr currentStep)
             && negb (newLogUploaderFails w)
             && bool_decide (is_Some (cirrusEnvPath w))
             && negb (backgroundLaunchFails w)
          then [{| BgName := Name currentStep; Cmd := S h; Logs := h |}]
          else []).
Proof. apply performStep_backgroundCommands. Qed.

(** X6.  What a step does to the log sink it creates: a step that is not
    a background script finalises its sink exactly once, on every path
    (also when the scratch file cannot be created and when the step asks
    to exit); a background script finalises its sink once when the launch
    fails, and not at all when it is launched (the sink goes to the
    registry) or when its scratch file cannot be created (then the sink
    is neither finalised nor registered). *)
Theorem performStep_finalizes_its_sink w e h currentStep :
  newLogUploaderFails w = false ->
  let stepped := performStep w e h currentStep in
  (isBackgroundScript (Instr currentStep) = false ->
   count (isFinalizeOf h) (steppedEvents stepped) = 1%nat)
  /\ (isBackgroundScript (Instr currentStep) = true ->
      count (isFinalizeOf h) (steppedEvents stepped)
      = (if bool_decide (is_Some (cirrusEnvPath w)) && backgroundLaunchFails w
         then 1%nat else 0%nat))
  /\ (isBackgroundScript (Instr currentStep) = true ->
      cirrusEnvPath w = None ->
      count (isFinalizeOf h) (steppedEvents stepped) = 0%nat
      /\ backgroundCommands (steppedExecutor stepped) = backgroundCommands e).
Proof.
  intros Hlog stepped. unfold stepped.
  rewrite performStep_finalizes, performStep_backgroundCommands, Hlog.
  unfold registers. split; [by intros -> |]. split; [by intros -> |].
  intros -> ->. rewrite bool_decide_false by (by intros [? ?]).
  rewrite Hlog. simpl. by rewrite app_nil_r.
Qed.

Lemma performStep_finalizes_its_sink_witness :
  count (isFinalizeOf 0)
    (steppedEvents (performStep (stepOf true ∅) (agent "" "") 0 exitStep)) = 1%nat.
Proof.
  apply (proj1 (performStep_finalizes_its_sink (stepOf true ∅) (agent "" "") 0
                  exitStep eq_refl)).
  reflexivity.
Defined.

(** ** The loop: what it keeps *)

Section LoopInvariant.

Variable R : Executor -> Executor -> Prop.
Hypothesis R_refl : forall e, R e e.
Hypothesis R_trans : forall e1 e2 e3, R e1 e2 -> R e2 e3 -> R e1 e3.
Hypothesis R_step :
  forall sw e h command, R e (steppedExecutor (performStep sw e h command)).

(** A relation between executors that every step establishes holds
    between the executors before and after the loop. *)
Lemma runCommands_invariant w commands : forall i e h failed,
  R e (loopedExecutor (runCommands w i commands e h failed)).
Proof.
  induction commands as [|command rest IH]; intros i e h failed; [apply R_refl |].
  cbn [runCommands]. cbv zeta.
  destruct (negb (shouldRun (Behaviour command) failed)); [apply IH |].
  pose proof (R_step (stepWorld w i) e h command) as Hstep.
  destruct (steppedReturn (performStep (stepWorld w i) e h command)); [| done].
  cbn [after loopedExecutor]. eapply R_trans; [exact Hstep | apply IH].
Qed.

End LoopInvariant.

Section StepKeeps.

Lemma envAfterStep_sensitive sw before currentStep :
  sensitiveValues before ⊆ sensitiveValues (envAfterStep sw before currentStep).
Proof.
  unfold envAfterStep.
  destruct (newLogUploaderFails sw); [done |].
  destruct (cirrusEnvPath sw); [| done].
  destruct (isExit (Instr currentStep)); [done |].
  unfold environment.Merge. cbn [sensitiveValues].
  destruct (bool_decide _); [apply union_subseteq_l | done].
Qed.

Lemma envAfterStep_keys sw before currentStep key :
  is_Some (environment.Lookup before key) ->
  is_Some (environment.Lookup (envAfterStep sw before currentStep) key).
Proof.
  intros Hkey. unfold envAfterStep.
  destruct (newLogUploaderFails sw); [done |].
  destruct (cirrusEnvPath sw) as [path|]; [| done].
  assert (is_Some (environment.Lookup
                     (environment.Set_ before "CIRRUS_ENV" path) key)) as Hset.
  { unfold environment.Lookup, environment.Set_ in *. cbn [vars].
    rewrite lookup_insert. by case_decide. }
  destruct (isExit (Instr currentStep)); [done |].
  unfold environment.Lookup, environment.Merge in *. cbn [vars] in *.
  rewrite lookup_union. destruct Hset as [v ->].
  by destruct (cirrusEnvVariables sw !! key).
Qed.

End StepKeeps.

(** X7.  The loop over the commands changes nothing of the executor but
    its environment and its background registry: task identification,
    tokens, cache host, resumption bounds, pre-created working directory
    and terminal wrapper are after the loop what they were before it. *)
Theorem runCommands_keeps_settings w commands i e h failed :
  sameSettings e (loopedExecutor (runCommands w i commands e h failed)).
Proof.
  apply (runCommands_invariant sameSettings).
  - by intros ?.
  - unfold sameSettings. intros e1 e2 e3 H12 H23.
    destruct H12 as (?&?&?&?&?&?&?&?), H23 as (?&?&?&?&?&?&?&?).
    repeat split; congruence.
  - intros. apply performStep_settings.
Qed.

(** X8.  The loop never unmasks a value: every value that is sensitive
    before the loop is sensitive after it, whatever the steps write to
    their [CIRRUS_ENV] files. *)
Theorem runCommands_keeps_sensitive_values w commands i e h failed :
  sensitiveValues (env e)
  ⊆ sensitiveValues (env (loopedExecutor (runCommands w i commands e h failed))).
Proof.
  apply (runCommands_invariant
           (fun e1 e2 => sensitiveValues (env e1) ⊆ sensitiveValues (env e2))).
  - done.
  - intros e1 e2 e3 H12 H23. by etrans.
  - intros. rewrite performStep_envAfterStep. apply envAfterStep_sensitive.
Qed.

(** X9.  The loop never removes a variable from the environment: a key
    that is defined before the loop is defined after it.  In particular,
    once [CIRRUS_ESCAPING_PROCESSES] is defined — by the server or by the
    [CIRRUS_ENV] file of a step — [shouldKillProcesses] stays false for
    the rest of the run. *)
Theorem runCommands_keeps_keys w commands i e h failed :
  (forall key,
      is_Some (environment.Lookup (env e) key) ->
      is_Some (environment.Lookup
                 (env (loopedExecutor (runCommands w i commands e h failed))) key))
  /\ (shouldKillProcesses e = false ->
      shouldKillProcesses (loopedExecutor (runCommands w i commands e h failed))
      = false).
Proof.
  assert (forall key,
            is_Some (environment.Lookup (env e) key) ->
            is_Some (environment.Lookup
                       (env (loopedExecutor (runCommands w i commands e h failed)))
                       key)) as Hkeys.
  { intros key.
    apply (runCommands_invariant
             (fun e1 e2 => is_Some (environment.Lookup (env e1) key) ->
                           is_Some (environment.Lookup (env e2) key))).
    - done.
    - intros e1 e2 e3 H12 H23 H1. by apply H23, H12.
    - intros sw e1 h1 command. rewrite performStep_envAfterStep.
      apply envAfterStep_keys. }
  split; [exact Hkeys |].
  unfold shouldKillProcesses. cbv zeta. intros Hkill.
  apply negb_false_iff, bool_decide_eq_true in Hkill.
  apply negb_false_iff, bool_decide_eq_true. by apply Hkeys.
Qed.

Lemma runCommands_keeps_keys_witness :
  let e :=
    with_env (agent "" "")
      (environment.Set_ environment.NewEmpty "CIRRUS_ESCAPING_PROCESSES" "1") in
  shouldKillProcesses
    (loopedExecutor
       (runCommands (worldOf None (fun _ => stepOf true ∅)) 0 abcd e 0 false))
  = false.
Proof.
  intros e.
  apply (proj2 (runCommands_keeps_keys (worldOf None (fun _ => stepOf true ∅))
                  abcd 0 e 0 false)).
  reflexivity.
Defined.

(** X10.  The background registry is append-only during the loop: the
    registry before the loop is a prefix of the registry after it, and
    every entry the loop adds is named after a background-script command
    of the list. *)
Theorem runCommands_registry_grows w commands i e h failed :
  let grown :=
    backgroundCommands (loopedExecutor (runCommands w i commands e h failed)) in
  backgroundCommands e `prefix_of` grown
  /\ (forall b, b ∈ grown ->
        b ∈ backgroundCommands e
        \/ exists command,
             command ∈ commands
             /\ isBackgroundScript (Instr command) = true
             /\ BgName b = Name command).
Proof.
  cbv zeta. split.
  - apply (runCommands_invariant
             (fun e1 e2 => backgroundCommands e1 `prefix_of` backgroundCommands e2)).
    + done.
    + intros e1 e2 e3 H12 H23. by etrans.
    + intros sw e1 h1 command. rewrite performStep_backgroundCommands.
      by apply prefix_app_r.
  - revert i e h failed.
    induction commands as [|command rest IH]; intros i e h failed b Hb;
      [by left |].
    cbn [runCommands] in Hb. cbv zeta in Hb.
    assert (forall e1 h1 f1,
              b ∈ backgroundCommands
                    (loopedExecutor (runCommands w (S i) rest e1 h1 f1)) ->
              b ∈ backgroundCommands e1
              \/ exists c, c ∈ command :: rest
                           /\ isBackgroundScript (Instr c) = true
                           /\ BgName b = Name c) as Hrest.
    { intros e1 h1 f1 H. destruct (IH _ _ _ _ _ H) as [? | (c & ? & ? & ?)];
        [by left | right; exists c; split; [by right | done]]. }
    assert (b ∈ backgroundCommands
                  (steppedExecutor (performStep (stepWorld w i) e h command)) ->
            b ∈ backgroundCommands e
            \/ exists c, c ∈ command :: rest
                         /\ isBackgroundScript (Instr c) = true
                         /\ BgName b = Name c) as Hstep.
    { rewrite performStep_backgroundCommands. unfold registers.
      intros [? | Hnew]%elem_of_app; [by left |].
      destruct (isBackgroundScript (Instr command)) eqn:Hbg;
        [| by apply elem_of_nil in Hnew].
      destruct (_ && _); [| by apply elem_of_nil in Hnew].
      apply list_elem_of_singleton in Hnew as ->.
      right. exists command. split; [by left | done]. }
    destruct (negb (shouldRun (Behaviour command) failed)); [by apply Hrest in Hb |].
    destruct (steppedReturn (performStep (stepWorld w i) e h command)).
    + cbn [after loopedExecutor] in Hb.
      apply Hrest in Hb as [Hb | ?]; [by apply Hstep | by right].
    + by apply Hstep.
Qed.

(** ** The loop: what it emits *)

Section Announced.

Lemma announced_no_step events :
  count isPerformStep events = 0%nat -> announced events.
Proof.
  intros Hnone i name Hi. exfalso.
  revert i Hi. induction events as [|ev rest IH]; intros i Hi; [done |].
  simpl in Hnone. destruct i as [|i]; simpl in Hi.
  - injection Hi as ->. simpl in Hnone. lia.
  - apply (IH ltac:(lia) i Hi).
Qed.

Lemma announced_app events1 events2 :
  announced events1 -> announced events2 -> announced (events1 ++ events2).
Proof.
  intros H1 H2 i name Hi.
  apply lookup_app_Some in Hi as [Hi | [Hge Hi]].
  - destruct (H1 i name Hi) as (k & -> & Hk & Hk').
    exists k. split; [done |].
    split; apply lookup_app_l_Some; done.
  - destruct (H2 _ name Hi) as (k & Hik & Hk & Hk').
    exists (List.length events1 + k)%nat. split; [lia |].
    split.
    + rewrite lookup_app_r by lia.
      by replace (List.length events1 + k - List.length events1)%nat with k by lia.
    + rewrite lookup_app_r by lia.
      by replace (S (List.length events1 + k) - List.length events1)%nat
        with (S k) by lia.
Qed.

Lemma announced_start name :
  announced [Queue (result name Status_EXECUTING); Flush; PerformStep name].
Proof.
  intros i n Hi. destruct i as [|[|[|i]]]; simpl in Hi; try done.
  injection Hi as <-. by exists 0%nat.
Qed.

Lemma count_step_events_perform events :
  forallb isStepEvent events = true -> count isPerformStep events = 0%nat.
Proof. apply count_none. by intros []. Qed.

Lemma runCommands_announced w commands : forall i e h failed,
  announced (loopedEvents (runCommands w i commands e h failed)).
Proof.
  induction commands as [|command rest IH]; intros i e h failed.
  - by apply announced_no_step.
  - cbn [runCommands]. cbv zeta.
    assert (announced (steppedEvents (performStep (stepWorld w i) e h command)))
      as Hstep
      by apply announced_no_step, count_step_events_perform,
         performStep_step_events.
    destruct (negb (shouldRun (Behaviour command) failed)).
    + cbn [after loopedEvents].
      apply announced_app; [by apply announced_no_step | apply IH].
    + destruct (steppedReturn (performStep (stepWorld w i) e h command)).
      * cbn [after loopedEvents].
        repeat apply announced_app;
          [apply announced_start | exact Hstep | by apply announced_no_step
          | apply IH].
      * cbn [loopedEvents].
        apply announced_app; [apply announced_start | exact Hstep].
Qed.

Lemma teardown_no_step w e loopEvents :
  count isPerformStep (teardown w e loopEvents) = 0%nat.
Proof.
  unfold teardown. rewrite !count_app.
  assert (count isPerformStep (drain (killFails w) (backgroundCommands e)) = 0%nat)
    as ->.
  { induction (backgroundCommands e) as [|b rest IH]; simpl; [done |].
    rewrite count_app. simpl. rewrite IH. by destruct (killFails w (Cmd b)). }
  destruct (metricsErrors w), (reportFinishedFails w); simpl;
    rewrite ?count_replicate_warning by done; lia.
Qed.

End Announced.

(** X11.  Update ordering.  In every run, each invocation of
    [performStep] comes immediately after the EXECUTING result of that
    very command has been queued and the update batcher flushed: the
    controller is told that a step executes before the step starts. *)
Theorem RunBuild_announces_every_step w executor handles :
  announced (runEvents (RunBuild w executor handles)).
Proof.
  destruct (RunBuild_cases w executor handles)
    as [[_ Hsetup] | (e0 & setup & bounded & failed & _ & Hsetup & _ & ->)].
  - apply announced_no_step. apply (count_none _ isSetup); [by intros [] | done].
  - apply announced_app; [| apply announced_app].
    + apply announced_no_step.
      apply (count_none _ isSetup); [by intros [] | done].
    + apply runCommands_announced.
    + apply announced_no_step.
      destruct (loopedExit _); [done | apply teardown_no_step].
Qed.

(** X12.  When no command of the list is to run under the current value
    of [failedAtLeastOnce] (say a task that has not failed and whose
    remaining commands are all ON_FAILURE), the loop performs no step and
    leaves executor, handles and [failedAtLeastOnce] as they are; it
    queues a SKIPPED result for every command, in order, and nothing
    else. *)
Theorem runCommands_all_skipped w commands i e h failed :
  Forall (fun command => shouldRun (Behaviour command) failed = false) commands ->
  runCommands w i commands e h failed
  = {| loopedExecutor := e; loopedHandles := h;
       loopedEvents := skippedResults commands;
       loopedFailed := failed; loopedExit := false |}.
Proof.
  intros Hall. revert i.
  induction Hall as [|command rest Hskip _ IH]; intros i; [done |].
  cbn [runCommands]. rewrite Hskip. cbn [negb]. by rewrite IH.
Qed.

Lemma runCommands_all_skipped_witness :
  runCommands (worldOf None (fun _ => stepOf true ∅)) 0
    [script "on_failure" Command_ON_FAILURE; script "cleanup" Command_ON_FAILURE]
    (agent "" "") 0 false
  = {| loopedExecutor := agent "" ""; loopedHandles := 0;
       loopedEvents :=
         skippedResults
           [script "on_failure" Command_ON_FAILURE;
            script "cleanup" Command_ON_FAILURE];
       loopedFailed := false; loopedExit := false |}.
Proof.
  apply runCommands_all_skipped. repeat constructor.
Defined.

(** X13.  Unless the loop is left by an exit step, every ALWAYS command
    of the list is executed, whatever has failed before it, and so is
    every ON_FAILURE command once the task has failed at the start. *)
Theorem runCommands_always_runs w commands i e h failed command :
  loopedExit (runCommands w i commands e h failed) = false ->
  command ∈ commands ->
  Behaviour command = Command_ALWAYS
  \/ (failed = true /\ Behaviour command = Command_ON_FAILURE) ->
  PerformStep (Name command) ∈ loopedEvents (runCommands w i commands e h failed).
Proof.
  revert i e h failed.
  induction commands as [|first rest IH]; intros i e h failed Hexit Hin Hrun;
    [by apply elem_of_nil in Hin |].
  cbn [runCommands] in *. cbv zeta in *.
  destruct (negb (shouldRun (Behaviour first) failed)) eqn:Hskip.
  - cbn [after loopedEvents loopedExit] in *.
    apply elem_of_cons in Hin as [-> | Hin].
    + exfalso. apply negb_true_iff in Hskip. unfold shouldRun in Hskip.
      destruct Hrun as [Hb | [Hf Hb]]; rewrite Hb in Hskip;
        [by destruct failed | by rewrite Hf in Hskip].
    + apply elem_of_app. right. by apply IH.
  - destruct (steppedReturn (performStep (stepWorld w i) e h first))
      as [stepResult|]; [| done].
    cbn [after loopedEvents loopedExit] in *.
    apply elem_of_cons in Hin as [-> | Hin].
    + apply elem_of_app. left. apply elem_of_app. left. apply elem_of_app. left.
      repeat constructor.
    + apply elem_of_app. right. apply IH; [done | done |].
      destruct Hrun as [? | [-> ?]]; [by left | right].
      split; [by destruct (Success stepResult) | done].
Qed.

Lemma runCommands_always_runs_witness :
  PerformStep "c"
  ∈ loopedEvents
      (runCommands (worldOf None (fun _ => stepOf false ∅)) 0
         [script "a" Command_ALWAYS; script "b" Command_ON_SUCCESS;
          script "c" Command_ALWAYS]
         (agent "" "") 0 false).
Proof.
  apply (runCommands_always_runs (worldOf None (fun _ => stepOf false ∅))
           [script "a" Command_ALWAYS; script "b" Command_ON_SUCCESS;
            script "c" Command_ALWAYS]
           0 (agent "" "") 0 false (script "c" Command_ALWAYS)).
  - reflexivity.
  - repeat constructor.
  - by left.
Defined.

(** ** [RunBuild], stage by stage *)

Section Stages.

Variables (w : World) (executor : Executor) (handles : nat)
          (response : CommandsResponse).
Hypothesis Hinitial : initialCommands w = Some response.
Hypothesis Htoken : ServerToken response = serverToken executor.

(** A run whose unboxing fails. *)
Lemma RunBuild_unbox_failed reached :
  unboxing w executor response = UnboxFailed reached ->
  RunBuild w executor handles
  = {| runExecutor :=
         with_env (with_env executor (mergedEnvironment w executor response))
           reached;
       runHandles := handles;
       runEvents := initialCalls (S (initialFailures w)) ++ [RPC_ReportAgentError];
       runEnding := Returned |}.
Proof.
  intros Hunbox. unfold RunBuild. rewrite Hinitial.
  apply String.eqb_eq in Htoken. rewrite Htoken. cbn [negb]. cbv zeta.
  unfold unboxing, mergedEnvironment in Hunbox. cbv zeta in Hunbox.
  cbn [env with_env]. by rewrite Hunbox.
Qed.

(** A run whose unboxing succeeds goes on with the command list. *)
Lemma RunBuild_unboxed unboxed :
  unboxing w executor response = Unboxed unboxed ->
  RunBuild w executor handles = runFrom w executor handles response unboxed.
Proof.
  intros Hunbox. unfold RunBuild. rewrite Hinitial.
  apply String.eqb_eq in Htoken. rewrite Htoken. cbn [negb]. cbv zeta.
  unfold unboxing, mergedEnvironment in Hunbox. cbv zeta in Hunbox.
  cbn [env with_env]. rewrite Hunbox.
  unfold runFrom, loopExecutor, setupEvents, presetEnvironment. cbv zeta.
  destruct (LookupEnv (host w) "CIRRUS_HTTP_CACHE_HOST") as [cacheHost|];
    cbn [env with_env];
    match goal with
    | |- context [environment.Lookup ?e "CIRRUS_HTTP_CACHE_HOST"] =>
        destruct (environment.Lookup e "CIRRUS_HTTP_CACHE_HOST")
    end;
    cbn [env with_env with_httpCacheHost];
    destruct (Commands response) as [|first rest] eqn:Hcommands;
    try (change (terminalInstruction []) with (@None string); cbv iota;
         rewrite ?app_nil_r; reflexivity).
  all: destruct (terminalInstruction (first :: rest));
    cbn [commandFrom commandTo with_env with_httpCacheHost with_terminalWrapper];
    destruct (BoundedCommands (first :: rest) (commandFrom executor)
                (commandTo executor)) as [bounded|];
    rewrite ?app_nil_r; try reflexivity.
  all: match goal with
       | |- (if loopedExit (runCommands _ _ _ ?e1 _ _) then _ else _)
            = {| runExecutor := loopedExecutor (runCommands _ _ _ ?e2 _ _);
                 runHandles := _; runEvents := _; runEnding := _ |} =>
           change e1 with e2
       end.
  all: match goal with
       | |- context [runCommands ?a ?b ?c ?d ?e ?f] =>
           generalize (runCommands a b c d e f)
       end;
    intros looped; destruct (loopedExit looped);
    rewrite ?app_nil_r, <- ?app_assoc; reflexivity.
Qed.

End Stages.

(** ** Unboxing of Vault values *)

Section Unboxing.

Variable w : World.

Lemma unboxItems_not_boxed items : forall env vaultUnboxer,
  Forall (fun item => NewBoxedValue w item.2 = ErrNotABoxedValue) items ->
  unboxItems w items env vaultUnboxer = Unboxed env.
Proof.
  induction items as [|[key value] rest IH]; intros env vaultUnboxer Hall;
    [done |].
  apply Forall_cons in Hall as [Hhead Hrest]. simpl in *.
  rewrite Hhead. by apply IH.
Qed.

(** Every successful pass along the items leads from [env] to [env'] by
    steps that set one of the keys of the items and add sensitive
    values. *)
Lemma unboxItems_frame items : forall env vaultUnboxer env',
  unboxItems w items env vaultUnboxer = Unboxed env' ->
  (forall key, key ∉ items.*1 ->
               environment.Lookup env' key = environment.Lookup env key)
  /\ sensitiveValues env ⊆ sensitiveValues env'
  /\ (forall key, is_Some (environment.Lookup env key) ->
                  is_Some (environment.Lookup env' key)).
Proof.
  induction items as [|[key0 value0] rest IH]; intros env vaultUnboxer env' H.
  - injection H as <-. by repeat split.
  - simpl in H. destruct (NewBoxedValue w value0); [| done |].
    + destruct (IH _ _ _ H) as (Hother & Hsens & Hkeys).
      split; [| by split]. intros key Hkey. apply Hother.
      intros Hin. apply Hkey. simpl. by right.
    + destruct (negb vaultUnboxer && negb (NewFromEnvironment w env)); [done |].
      destruct (vaultUnbox w value0) as [secret|]; [| done].
      destruct (IH _ _ _ H) as (Hother & Hsens & Hkeys).
      split; [| split].
      * intros key Hkey. rewrite Hother by (intros Hin; apply Hkey; simpl; by right).
        unfold environment.Lookup. simpl. apply lookup_insert_ne.
        intros ->. apply Hkey. simpl. by left.
      * etrans; [| exact Hsens]. simpl. apply union_subseteq_l.
      * intros key Hkey. apply Hkeys. unfold environment.Lookup in *. simpl.
        rewrite lookup_insert. by case_decide.
Qed.

Lemma unboxItems_result items : forall env vaultUnboxer env' key value,
  NoDup items.*1 ->
  unboxItems w items env vaultUnboxer = Unboxed env' ->
  (key, value) ∈ items ->
  match NewBoxedValue w value with
  | Boxed =>
      exists secret,
        vaultUnbox w value = Some secret
        /\ environment.Lookup env' key = Some secret
        /\ secret ∈ sensitiveValues env'
  | _ => environment.Lookup env' key = environment.Lookup env key
  end.
Proof.
  induction items as [|[key0 value0] rest IH];
    intros env vaultUnboxer env' key value Hnodup H Hin;
    [by apply elem_of_nil in Hin |].
  simpl in Hnodup. apply NoDup_cons in Hnodup as [Hfresh Hnodup].
  simpl in H. apply elem_of_cons in Hin as [[= -> ->] | Hin].
  - destruct (NewBoxedValue w value0); [| done |].
    + destruct (unboxItems_frame _ _ _ _ H) as (Hother & _). by apply Hother.
    + destruct (negb vaultUnboxer && negb (NewFromEnvironment w env)); [done |].
      destruct (vaultUnbox w value0) as [secret|]; [| done].
      destruct (unboxItems_frame _ _ _ _ H) as (Hother & Hsens & _).
      exists secret. split; [done |]. split.
      * rewrite (Hother key0 Hfresh). unfold environment.Lookup. simpl.
        apply lookup_insert_eq.
      * apply Hsens. simpl. set_solver.
  - assert (key <> key0) as Hne.
    { intros ->. apply Hfresh. apply list_elem_of_fmap. by exists (key0, value). }
    destruct (NewBoxedValue w value0) eqn:Hparse0; [| done |].
    + by apply (IH _ _ _ _ _ Hnodup H Hin).
    + destruct (negb vaultUnboxer && negb (NewFromEnvironment w env)); [done |].
      destruct (vaultUnbox w value0) as [secret0|]; [| done].
      pose proof (IH _ _ _ _ _ Hnodup H Hin) as Hrest.
      destruct (NewBoxedValue w value); try done;
        rewrite Hrest; unfold environment.Lookup; simpl;
        by apply lookup_insert_ne.
Qed.

Lemma unboxItems_without_url items : forall env,
  environment.Lookup env EnvCirrusVaultURL = None ->
  Exists (fun item => NewBoxedValue w item.2 <> ErrNotABoxedValue) items ->
  unboxItems w items env false = UnboxFailed env.
Proof.
  induction items as [|[key value] rest IH]; intros env Hurl Hex;
    [by apply Exists_nil in Hex |].
  simpl. destruct (NewBoxedValue w value) eqn:Hparse.
  - apply IH; [done |]. apply Exists_cons in Hex as [Hhead | Hrest]; [| done].
    simpl in Hhead. congruence.
  - done.
  - unfold NewFromEnvironment. rewrite Hurl.
    by destruct (vaultNewClientFails w).
Qed.

End Unboxing.

(** X14.  A task none of whose variables is a Vault-boxed value is not
    touched by the unboxing: whatever the Vault settings (no URL, a
    failing client), the loop ends without error and leaves the
    environment as it is. *)
Theorem unboxItems_leaves_plain_values w items env vaultUnboxer :
  Forall (fun item => NewBoxedValue w item.2 = ErrNotABoxedValue) items ->
  unboxItems w items env vaultUnboxer = Unboxed env.
Proof. apply unboxItems_not_boxed. Qed.

Lemma unboxItems_leaves_plain_values_witness :
  unboxItems (worldOf None (fun _ => stepOf true ∅))
    [("CIRRUS_BRANCH", "main"); ("CI", "true")] environment.NewEmpty false
  = Unboxed environment.NewEmpty.
Proof.
  apply unboxItems_leaves_plain_values. repeat constructor.
Defined.

(** X15.  When the unboxing of [RunBuild] succeeds, every variable of the
    merged environment whose value is Vault-boxed holds the unboxed
    secret afterwards, and that secret is registered as sensitive; every
    variable whose value is not boxed keeps its value. *)
Theorem unboxing_substitutes_and_masks w executor response unboxed key value :
  unboxing w executor response = Unboxed unboxed ->
  environment.Lookup (mergedEnvironment w executor response) key = Some value ->
  match NewBoxedValue w value with
  | Boxed =>
      exists secret,
        vaultUnbox w value = Some secret
        /\ environment.Lookup unboxed key = Some secret
        /\ secret ∈ sensitiveValues unboxed
  | _ => environment.Lookup unboxed key = Some value
  end.
Proof.
  unfold unboxing. cbv zeta. intros Hunbox Hkey.
  pose proof (unboxItems_result w _ _ _ _ key value
                (NoDup_fst_map_to_list _) Hunbox) as H.
  assert ((key, value)
            ∈ map_to_list (environment.Items (mergedEnvironment w executor response)))
    as Hin by by apply elem_of_map_to_list.
  specialize (H Hin).
  destruct (NewBoxedValue w value); [by rewrite H | by rewrite H | done].
Qed.

(** A world whose Vault holds one secret. *)
Lemma unboxing_substitutes_and_masks_witness :
  let w :=
    {| host := linux; initialFailures := 0;
       initialCommands := None;
       NewBoxedValue := fun value =>
         if Strings.HasPrefix value "VAULT[" then Boxed else ErrNotABoxedValue;
       vaultNewClientFails := false;
       vaultSetAddressFails := fun _ => false;
       vaultLoginFails := fun _ _ => false;
       vaultUnbox := fun _ => Some "s3cr3t";
       httpCacheStart := "127.0.0.1:12321";
       stepWorld := fun _ => stepOf true ∅;
       killFails := fun _ => false;
       metricsErrors := Some 0%nat;
       reportFinishedFails := false |} in
  let response :=
    {| ServerToken := "server";
       ResponseEnvironment :=
         <["CIRRUS_VAULT_URL" := "https://vault"]>
           (<["KEY" := "VAULT[kv/data/my field]"]> ∅);
       Commands := []; TimeoutInSeconds := 3600; SecretsToMask := [];
       FailedAtLeastOnce := false |} in
  exists unboxed secret,
    unboxing w (agent "" "") response = Unboxed unboxed
    /\ vaultUnbox w "VAULT[kv/data/my field]" = Some secret
    /\ environment.Lookup unboxed "KEY" = Some secret
    /\ secret ∈ sensitiveValues unboxed.
Proof.
  intros w response.
  pose (unboxed := match unboxing w (agent "" "") response with
                   | Unboxed reached | UnboxFailed reached => reached
                   end).
  assert (unboxing w (agent "" "") response = Unboxed unboxed) as Hunbox
    by (vm_compute; reflexivity).
  destruct (unboxing_substitutes_and_masks w (agent "" "") response unboxed
              "KEY" "VAULT[kv/data/my field]" Hunbox)
    as (secret & Hsecret & Hkey & Hmasked); [vm_compute; reflexivity |].
  exists unboxed, secret. repeat split; assumption.
Defined.

(** ** Whole runs *)

Section WholeRun.

Variables (w : World) (executor : Executor) (handles : nat)
          (response : CommandsResponse).

Lemma forallb_elem (q : Event -> bool) events ev :
  forallb q events = true -> ev ∈ events -> q ev = true.
Proof.
  intros Hall Hin. apply list_elem_of_In in Hin.
  rewrite forallb_forall in Hall. by apply Hall.
Qed.

Lemma teardown_events e loopEvents :
  forallb isTeardownEvent (teardown w e loopEvents) = true.
Proof.
  unfold teardown. rewrite !forallb_app.
  assert (forallb isTeardownEvent (drain (killFails w) (backgroundCommands e)) = true)
    as ->.
  { induction (backgroundCommands e) as [|b rest IH]; simpl; [done |].
    rewrite forallb_app. simpl. rewrite IH. by destruct (killFails w (Cmd b)). }
  assert (forall n, forallb isTeardownEvent (replicate n RPC_ReportAgentWarning) = true)
    as Hwarn by (intros n; by induction n).
  destruct (metricsErrors w), (reportFinishedFails w); simpl; by rewrite ?Hwarn.
Qed.

Lemma setupEvents_entry unboxed :
  forallb isEntryEvent (setupEvents w response unboxed) = true.
Proof.
  unfold setupEvents. rewrite !forallb_app.
  assert (forallb isEntryEvent (initialCalls (S (initialFailures w))) = true) as ->.
  { apply (forallb_weaken isInitialCommands); [by intros [] |].
    apply initialCalls_only. }
  by repeat match goal with
  | |- context [match ?x with _ => _ end] => destruct x
  end.
Qed.

(** A predicate that holds of no loop and of no teardown event is counted
    in the setup only. *)
Lemma runFrom_count p unboxed :
  (forall ev, isLoopEvent ev = true -> p ev = false) ->
  (forall ev, isTeardownEvent ev = true -> p ev = false) ->
  count p (runEvents (runFrom w executor handles response unboxed))
  = count p (setupEvents w response unboxed).
Proof.
  intros Hloop Hteardown. unfold runFrom. cbv zeta.
  destruct (Commands response); [done |].
  destruct (BoundedCommands _ _ _) as [bounded|]; [| done].
  cbn [runEvents]. rewrite !count_app.
  set (looped := runCommands _ _ _ _ _ _).
  assert (count p (loopedEvents looped) = 0%nat) as ->
    by (apply (count_none p isLoopEvent); [done | apply runCommands_loop_events]).
  destruct (loopedExit looped); [simpl; lia |].
  assert (count p (teardown w (loopedExecutor looped) (loopedEvents looped)) = 0%nat)
    as -> by (apply (count_none p isTeardownEvent); [done | apply teardown_events]).
  lia.
Qed.

Lemma History_none (q : Event -> bool) events :
  (forall ev, q ev = true -> isQueue ev = false) ->
  forallb q events = true -> History events = [].
Proof.
  intros Hq. induction events as [|ev rest IH]; simpl; [done |].
  intros [Hev Hrest]%andb_true_iff. unfold History in *. simpl.
  rewrite (IH Hrest). specialize (Hq ev Hev). by destruct ev.
Qed.

Lemma merged_working_dir :
  is_Some (environment.Lookup (mergedEnvironment w executor response)
             "CIRRUS_WORKING_DIR").
Proof.
  unfold mergedEnvironment, environment.Lookup, environment.Merge. cbn [vars].
  eexists. apply lookup_union_Some_l, getScriptEnvironment_working_dir.
Qed.

Lemma unboxed_working_dir unboxed :
  unboxing w executor response = Unboxed unboxed ->
  is_Some (environment.Lookup unboxed "CIRRUS_WORKING_DIR").
Proof.
  intros Hunbox. unfold unboxing in Hunbox. cbv zeta in Hunbox.
  destruct (unboxItems_frame w _ _ _ _ Hunbox) as (_ & _ & Hkeys).
  apply Hkeys, merged_working_dir.
Qed.

End WholeRun.

(** X16.  Without [CIRRUS_VAULT_URL] in the merged environment, one value
    that is Vault-boxed (or that fails to parse as such) stops the task:
    [RunBuild] reports one agent error and returns; no step is performed,
    nothing is queued and no final report is sent. *)
Theorem RunBuild_boxed_value_without_vault_url w executor handles response key value :
  initialCommands w = Some response ->
  ServerToken response = serverToken executor ->
  environment.Lookup (mergedEnvironment w executor response) EnvCirrusVaultURL = None ->
  environment.Lookup (mergedEnvironment w executor response) key = Some value ->
  NewBoxedValue w value <> ErrNotABoxedValue ->
  let run := RunBuild w executor handles in
  runEvents run = initialCalls (S (initialFailures w)) ++ [RPC_ReportAgentError]
  /\ runEnding run = Returned
  /\ count isPerformStep (runEvents run) = 0%nat
  /\ count isQueue (runEvents run) = 0%nat
  /\ count isReportAgentFinished (runEvents run) = 0%nat.
Proof.
  intros Hinitial Htoken Hurl Hkey Hboxed run.
  assert (unboxing w executor response
          = UnboxFailed (mergedEnvironment w executor response)) as Hunbox.
  { unfold unboxing. cbv zeta. apply unboxItems_without_url; [done |].
    apply Exists_exists. exists (key, value). split; [| done].
    by apply elem_of_map_to_list. }
  unfold run.
  rewrite (RunBuild_unbox_failed w executor handles response Hinitial Htoken _ Hunbox).
  cbn [runEvents runEnding]. split; [done |]. split; [done |].
  rewrite !count_app.
  rewrite !(count_none _ isInitialCommands (initialCalls _))
    by (by intros [] || apply initialCalls_only).
  done.
Qed.

Lemma RunBuild_boxed_value_without_vault_url_witness :
  let w :=
    {| host := linux; initialFailures := 0;
       initialCommands :=
         Some {| ServerToken := "server";
                 ResponseEnvironment := <["KEY" := "VAULT[kv/data/my field]"]> ∅;
                 Commands := abcd; TimeoutInSeconds := 3600;
                 SecretsToMask := []; FailedAtLeastOnce := false |};
       NewBoxedValue := fun value =>
         if Strings.HasPrefix value "VAULT[" then Boxed else ErrNotABoxedValue;
       vaultNewClientFails := false;
       vaultSetAddressFails := fun _ => false;
       vaultLoginFails := fun _ _ => false;
       vaultUnbox := fun _ => Some "s3cr3t";
       httpCacheStart := "127.0.0.1:12321";
       stepWorld := fun _ => stepOf true ∅;
       killFails := fun _ => false;
       metricsErrors := Some 0%nat;
       reportFinishedFails := false |} in
  runEvents (RunBuild w (agent "" "") 0)
  = [RPC_InitialCommands false; RPC_ReportAgentError].
Proof.
  intros w.
  apply (RunBuild_boxed_value_without_vault_url w (agent "" "") 0
           {| ServerToken := "server";
              ResponseEnvironment := <["KEY" := "VAULT[kv/data/my field]"]> ∅;
              Commands := abcd; TimeoutInSeconds := 3600;
              SecretsToMask := []; FailedAtLeastOnce := false |}
           "KEY" "VAULT[kv/data/my field]");
    [reflexivity | reflexivity | by vm_compute | by vm_compute | by vm_compute].
Defined.

(** X17.  Every run that gets past the unboxing changes into the working
    directory, exactly once: [getScriptEnvironment] always defines
    [CIRRUS_WORKING_DIR], so the "not set" branch of [RunBuild] is never
    taken. *)
Theorem RunBuild_changes_directory_once w executor handles response unboxed :
  initialCommands w = Some response ->
  ServerToken response = serverToken executor ->
  unboxing w executor response = Unboxed unboxed ->
  exists workingDir,
    environment.Lookup unboxed "CIRRUS_WORKING_DIR" = Some workingDir
    /\ Chdir workingDir ∈ runEvents (RunBuild w executor handles)
    /\ count isChdir (runEvents (RunBuild w executor handles)) = 1%nat.
Proof.
  intros Hinitial Htoken Hunbox.
  destruct (unboxed_working_dir w executor response unboxed Hunbox)
    as [workingDir Hdir].
  exists workingDir. split; [done |].
  rewrite (RunBuild_unboxed w executor handles response Hinitial Htoken _ Hunbox).
  assert (count isChdir (setupEvents w response unboxed) = 1%nat) as Hcount.
  { unfold setupEvents. rewrite Hdir, !count_app.
    rewrite (count_none _ isInitialCommands (initialCalls _))
      by (by intros [] || apply initialCalls_only).
    by repeat match goal with
    | |- context [match ?x with _ => _ end] => destruct x
    end. }
  split.
  - assert (Chdir workingDir ∈ setupEvents w response unboxed) as Hin.
    { unfold setupEvents. rewrite Hdir.
      apply elem_of_app. left. apply elem_of_app. left. apply elem_of_app. right.
      repeat constructor. }
    unfold runFrom. cbv zeta.
    destruct (Commands response); [done |].
    destruct (BoundedCommands _ _ _); [| done].
    cbn [runEvents]. apply elem_of_app. by left.
  - rewrite runFrom_count; [done | by intros [] | by intros []].
Qed.

Lemma RunBuild_changes_directory_once_witness :
  exists workingDir,
    Chdir workingDir
    ∈ runEvents
        (RunBuild (worldOf (Some (responseOf "server" abcd)) (fun _ => stepOf true ∅))
           (agent "" "") 0).
Proof.
  destruct (RunBuild_changes_directory_once
              (worldOf (Some (responseOf "server" abcd)) (fun _ => stepOf true ∅))
              (agent "" "") 0 (responseOf "server" abcd)
              (mergedEnvironment
                 (worldOf (Some (responseOf "server" abcd)) (fun _ => stepOf true ∅))
                 (agent "" "") (responseOf "server" abcd))
              eq_refl eq_refl)
    as (workingDir & _ & Hin & _).
  - by vm_compute.
  - by exists workingDir.
Defined.

Section FromTheLoopOn.

Variables (w : World) (executor : Executor) (handles : nat)
          (response : CommandsResponse) (unboxed : Environment).

Lemma teardown_finished e loopEvents history :
  RPC_ReportAgentFinished history ∈ teardown w e loopEvents ->
  history = History loopEvents.
Proof.
  intros Hin.
  pose (q := fun ev => match ev with
                       | RPC_ReportAgentFinished reported =>
                           bool_decide (reported = History loopEvents)
                       | _ => true
                       end).
  assert (forallb q (teardown w e loopEvents) = true) as Hall.
  { unfold teardown. rewrite !forallb_app.
    assert (forallb q (drain (killFails w) (backgroundCommands e)) = true) as ->.
    { induction (backgroundCommands e) as [|b rest IH]; simpl; [done |].
      rewrite forallb_app. simpl. rewrite IH. by destruct (killFails w (Cmd b)). }
    assert (forall n, forallb q (replicate n RPC_ReportAgentWarning) = true)
      as Hwarn by (intros n; by induction n).
    destruct (metricsErrors w), (reportFinishedFails w); simpl;
      rewrite ?Hwarn, ?bool_decide_true; done. }
  pose proof (forallb_elem q _ _ Hall Hin) as Hq.
  by apply bool_decide_eq_true in Hq.
Qed.

Lemma runFrom_finished history :
  let run := runFrom w executor handles response unboxed in
  RPC_ReportAgentFinished history ∈ runEvents run ->
  history = History (runEvents run)
  /\ runEnding run = Returned
  /\ count isReportAgentError (runEvents run) = 0%nat.
Proof.
  intros run Hin.
  assert (count isReportAgentError (runEvents run) = 0%nat) as Herror.
  { unfold run. rewrite runFrom_count; [| by intros [] | by intros []].
    apply (count_none _ isEntryEvent); [by intros [] | apply setupEvents_entry]. }
  pose proof (setupEvents_entry w response unboxed) as Hsetup.
  assert (RPC_ReportAgentFinished history ∉ setupEvents w response unboxed)
    as Hnot by (intros Hbad; by pose proof (forallb_elem _ _ _ Hsetup Hbad)).
  unfold run, runFrom in *. cbv zeta in *.
  destruct (Commands response); [done |].
  destruct (BoundedCommands _ _ _) as [bounded|]; [| done].
  cbn [runEvents runEnding] in *.
  split; [| done].
  apply elem_of_app in Hin as [Hin | Hin]; [done |].
  apply elem_of_app in Hin as [Hin | Hin].
  { by pose proof (forallb_elem _ _ _ (runCommands_loop_events _ _ _ _ _ _) Hin). }
  destruct (loopedExit _); [by apply elem_of_nil in Hin |].
  apply teardown_finished in Hin as ->.
  rewrite !History_app.
  rewrite (History_none isEntryEvent _ ltac:(by intros []) Hsetup).
  rewrite (History_none isTeardownEvent (teardown _ _ _) ltac:(by intros [])
             (teardown_events _ _ _)).
  by rewrite app_nil_r.
Qed.

Lemma runFrom_executor :
  let run := runFrom w executor handles response unboxed in
  let entered := loopExecutor w executor response unboxed in
  sameSettings entered (runExecutor run)
  /\ sensitiveValues (env entered) ⊆ sensitiveValues (env (runExecutor run)).
Proof.
  intros run entered. unfold run, runFrom. cbv zeta. fold entered.
  assert (sameSettings entered entered) as Hsame by done.
  destruct (Commands response); [done |].
  destruct (BoundedCommands _ _ _) as [bounded|]; [| done].
  cbn [runExecutor]. split.
  - apply (runCommands_invariant sameSettings).
    + by intros ?.
    + unfold sameSettings. intros e1 e2 e3 H12 H23.
      destruct H12 as (?&?&?&?&?&?&?&?), H23 as (?&?&?&?&?&?&?&?).
      repeat split; congruence.
    + intros. apply performStep_settings.
  - apply (runCommands_invariant
             (fun e1 e2 => sensitiveValues (env e1) ⊆ sensitiveValues (env e2))).
    + done.
    + intros e1 e2 e3 H12 H23. by etrans.
    + intros. rewrite performStep_envAfterStep. apply envAfterStep_sensitive.
Qed.

Lemma loopExecutor_env :
  exists cached,
    env (loopExecutor w executor response unboxed)
    = environment.AddSensitiveValues cached (SecretsToMask response)
    /\ sensitiveValues cached = sensitiveValues unboxed.
Proof.
  unfold loopExecutor, presetEnvironment. cbv zeta.
  destruct (LookupEnv (host w) "CIRRUS_HTTP_CACHE_HOST") as [cacheHost|];
    match goal with
    | |- context [environment.Lookup ?e "CIRRUS_HTTP_CACHE_HOST"] =>
        destruct (environment.Lookup e "CIRRUS_HTTP_CACHE_HOST")
    end;
    destruct (terminalInstruction (Commands response));
    eexists; (split; [reflexivity | reflexivity]).
Qed.

Lemma loopExecutor_cache_host :
  httpCacheHost (loopExecutor w executor response unboxed)
  = match LookupEnv (host w) "CIRRUS_HTTP_CACHE_HOST" with
    | Some cacheHost => cacheHost
    | None =>
        match environment.Lookup unboxed "CIRRUS_HTTP_CACHE_HOST" with
        | Some cacheHost => cacheHost
        | None => httpCacheStart w
        end
    end.
Proof.
  unfold loopExecutor, presetEnvironment. cbv zeta.
  destruct (terminalInstruction (Commands response));
    cbn [httpCacheHost with_terminalWrapper with_env with_httpCacheHost];
    unfold environment.Get, environment.Lookup;
    (destruct (LookupEnv (host w) "CIRRUS_HTTP_CACHE_HOST") as [cacheHost|];
     [ unfold environment.Set_; cbn [vars]; rewrite !lookup_insert_eq; cbn [vars];
       by rewrite lookup_insert_eq
     | destruct (vars unboxed !! "CIRRUS_HTTP_CACHE_HOST") as [cacheHost|] eqn:Hhost;
       [ by rewrite Hhost
       | unfold environment.Set_; cbn [vars]; by rewrite lookup_insert_eq ] ]).
Qed.

Lemma setupEvents_cache_starts :
  count isHttpCacheStart (setupEvents w response unboxed)
  = match LookupEnv (host w) "CIRRUS_HTTP_CACHE_HOST",
          environment.Lookup unboxed "CIRRUS_HTTP_CACHE_HOST" with
    | None, None => 1%nat
    | _, _ => 0%nat
    end.
Proof.
  unfold setupEvents, presetEnvironment. rewrite !count_app.
  rewrite (count_none _ isInitialCommands (initialCalls _))
    by (by intros [] || apply initialCalls_only).
  destruct (LookupEnv (host w) "CIRRUS_HTTP_CACHE_HOST") as [cacheHost|].
  - unfold environment.Lookup at 2, environment.Set_. cbn [vars].
    rewrite lookup_insert_eq.
    by repeat match goal with
    | |- context [match ?x with _ => _ end] => destruct x
    end.
  - destruct (environment.Lookup unboxed "CIRRUS_HTTP_CACHE_HOST");
      by repeat match goal with
      | |- context [match ?x with _ => _ end] => destruct x
      end.
Qed.

Lemma setupEvents_terminal_starts :
  count isTerminalStart (setupEvents w response unboxed)
  = match terminalInstruction (Commands response) with
    | Some _ => 1%nat
    | None => 0%nat
    end
  /\ forall address,
       terminalInstruction (Commands response) = Some address ->
       TerminalStart address ∈ setupEvents w response unboxed.
Proof.
  unfold setupEvents. split.
  - rewrite !count_app.
    rewrite (count_none _ isInitialCommands (initialCalls _))
      by (by intros [] || apply initialCalls_only).
    by repeat match goal with
    | |- context [match ?x with _ => _ end] => destruct x
    end.
  - intros address ->. apply elem_of_app. right. repeat constructor.
Qed.

Lemma runFrom_setup ev :
  ev ∈ setupEvents w response unboxed ->
  ev ∈ runEvents (runFrom w executor handles response unboxed).
Proof.
  intros Hin. unfold runFrom. cbv zeta.
  destruct (Commands response); [done |].
  destruct (BoundedCommands _ _ _); [| done].
  cbn [runEvents]. apply elem_of_app. by left.
Qed.

End FromTheLoopOn.

(** X18.  A final report is sent only by a run that returns normally and
    has reported no agent error, and the results it carries are exactly the
    results queued during the run, in the order in which they were queued. *)
Theorem RunBuild_final_report_carries_history w executor handles history :
  let run := RunBuild w executor handles in
  RPC_ReportAgentFinished history ∈ runEvents run ->
  history = History (runEvents run)
  /\ runEnding run = Returned
  /\ count isReportAgentError (runEvents run) = 0%nat.
Proof.
  intros run Hin. unfold run in *. clear run.
  assert (forall n, RPC_ReportAgentFinished history ∉ initialCalls n) as Hcalls.
  { intros n Hbad.
    by pose proof (forallb_elem _ _ _ (initialCalls_only n) Hbad). }
  destruct (initialCommands w) as [response|] eqn:Hinitial.
  2: { unfold RunBuild in Hin. rewrite Hinitial in Hin. cbn [runEvents] in Hin.
       by apply Hcalls in Hin. }
  destruct (ServerToken response =? serverToken executor) eqn:Htoken.
  2: { apply String.eqb_neq in Htoken.
       rewrite (RunBuild_mismatch w executor handles response Hinitial Htoken)
         in Hin.
       cbn [runEvents] in Hin. by apply Hcalls in Hin. }
  apply String.eqb_eq in Htoken.
  destruct (unboxing w executor response) as [unboxed|reached] eqn:Hunbox.
  - rewrite (RunBuild_unboxed w executor handles response Hinitial Htoken _ Hunbox)
      in *.
    by apply runFrom_finished.
  - rewrite (RunBuild_unbox_failed w executor handles response Hinitial Htoken _
               Hunbox) in Hin.
    cbn [runEvents] in Hin. apply elem_of_app in Hin as [Hin | Hin].
    + by apply Hcalls in Hin.
    + apply list_elem_of_singleton in Hin. discriminate.
Qed.

Lemma RunBuild_final_report_carries_history_witness :
  let run :=
    RunBuild (worldOf (Some (responseOf "server" abcd)) (fun _ => stepOf true ∅))
      (agent "" "") 0 in
  ResultName <$> History (runEvents run)
  = ["a"; "a"; "b"; "b"; "c"; "c"; "d"; "d"]
  /\ runEnding run = Returned.
Proof.
  intros run.
  destruct (RunBuild_final_report_carries_history
              (worldOf (Some (responseOf "server" abcd)) (fun _ => stepOf true ∅))
              (agent "" "") 0
              (History (runEvents run)))
    as (_ & Hending & _).
  - apply (bool_decide_unpack _). vm_compute. reflexivity.
  - split; [vm_compute; reflexivity | exact Hending].
Defined.

(** X19.  The pre-scan for a terminal instruction looks at the whole
    command list of the response, not at the range selected by
    [commandFrom] and [commandTo]: a run that gets past the unboxing starts
    one terminal session, for the address of the first such instruction, as
    soon as the list holds one — also when that command is outside the
    range, and also when the range itself is invalid — and none otherwise.
    The wrapper is still the one of the scan when the run ends. *)
Theorem RunBuild_terminal_scan_ignores_bounds w executor handles response unboxed :
  initialCommands w = Some response ->
  ServerToken response = serverToken executor ->
  unboxing w executor response = Unboxed unboxed ->
  let run := RunBuild w executor handles in
  match terminalInstruction (Commands response) with
  | Some address =>
      count isTerminalStart (runEvents run) = 1%nat
      /\ TerminalStart address ∈ runEvents run
      /\ terminalWrapper (runExecutor run) = Some address
  | None =>
      count isTerminalStart (runEvents run) = 0%nat
      /\ terminalWrapper (runExecutor run) = terminalWrapper executor
  end.
Proof.
  intros Hinitial Htoken Hunbox run. unfold run.
  rewrite (RunBuild_unboxed w executor handles response Hinitial Htoken _ Hunbox).
  destruct (runFrom_executor w executor handles response unboxed)
    as [(_&_&_&_&_&_&_&Hwrapper) _].
  destruct (setupEvents_terminal_starts w response unboxed) as [Hcount Hstart].
  rewrite Hwrapper.
  rewrite runFrom_count; [| by intros [] | by intros []].
  rewrite Hcount. unfold loopExecutor. cbv zeta.
  destruct (terminalInstruction (Commands response)) as [address|].
  - split; [done |]. split; [| done]. apply runFrom_setup. by apply Hstart.
  - done.
Qed.

Lemma RunBuild_terminal_scan_ignores_bounds_witness :
  let commands :=
    abcd ++ [{| Name := "terminal"; Behaviour := Command_ALWAYS;
                Instr := Command_WaitForTerminalInstruction (Some "t.example:443") |}] in
  let run :=
    RunBuild (worldOf (Some (responseOf "server" commands)) (fun _ => stepOf true ∅))
      (agent "a" "c") 0 in
  count isPerformStep (runEvents run) = 2%nat
  /\ TerminalStart "t.example:443" ∈ runEvents run.
Proof.
  intros commands run. split; [by vm_compute |].
  pose proof (RunBuild_terminal_scan_ignores_bounds
                (worldOf (Some (responseOf "server" commands)) (fun _ => stepOf true ∅))
                (agent "a" "c") 0 (responseOf "server" commands)
                (mergedEnvironment
                   (worldOf (Some (responseOf "server" commands))
                      (fun _ => stepOf true ∅))
                   (agent "a" "c") (responseOf "server" commands))
                eq_refl eq_refl) as Hscan.
  cbv zeta in Hscan.
  change (terminalInstruction (Commands (responseOf "server" commands)))
    with (Some "t.example:443") in Hscan.
  apply Hscan. by vm_compute.
Defined.

(** X20.  What has been masked before the loop stays masked to the end of
    the run: the values unboxed from Vault and every entry of the
    response's [SecretsToMask] are sensitive values of the environment the
    run ends with, whatever the steps do. *)
Theorem RunBuild_keeps_secrets_masked w executor handles response unboxed :
  initialCommands w = Some response ->
  ServerToken response = serverToken executor ->
  unboxing w executor response = Unboxed unboxed ->
  let final := env (runExecutor (RunBuild w executor handles)) in
  sensitiveValues unboxed ⊆ sensitiveValues final
  /\ forall secret, secret ∈ SecretsToMask response -> secret ∈ sensitiveValues final.
Proof.
  intros Hinitial Htoken Hunbox final. unfold final.
  rewrite (RunBuild_unboxed w executor handles response Hinitial Htoken _ Hunbox).
  destruct (runFrom_executor w executor handles response unboxed) as [_ Hkept].
  destruct (loopExecutor_env w executor response unboxed) as (cached & Henv & Hcached).
  rewrite Henv in Hkept. unfold environment.AddSensitiveValues in Hkept.
  cbn [sensitiveValues] in Hkept. rewrite Hcached in Hkept.
  split.
  - etrans; [| exact Hkept]. apply union_subseteq_l.
  - intros secret Hsecret. apply Hkept, elem_of_union. right.
    by apply elem_of_list_to_set.
Qed.

Lemma RunBuild_keeps_secrets_masked_witness :
  "hunter2"
  ∈ sensitiveValues
      (env (runExecutor
              (RunBuild
                 (worldOf
                    (Some {| ServerToken := "server"; ResponseEnvironment := ∅;
                             Commands := abcd; TimeoutInSeconds := 3600;
                             SecretsToMask := ["hunter2"];
                             FailedAtLeastOnce := false |})
                    (fun _ => stepOf true (<["CIRRUS_ENV_SENSITIVE" := "0"]> ∅)))
                 (agent "" "") 0))).
Proof.
  refine (proj2 (RunBuild_keeps_secrets_masked
                   (worldOf
                      (Some {| ServerToken := "server"; ResponseEnvironment := ∅;
                               Commands := abcd; TimeoutInSeconds := 3600;
                               SecretsToMask := ["hunter2"];
                               FailedAtLeastOnce := false |})
                      (fun _ => stepOf true (<["CIRRUS_ENV_SENSITIVE" := "0"]> ∅)))
                   (agent "" "") 0 _ _ eq_refl eq_refl _) "hunter2" _).
  - by vm_compute.
  - repeat constructor.
Defined.

(** X21.  The HTTP cache host of a run: the host's own
    [CIRRUS_HTTP_CACHE_HOST] wins over the task's environment; the task's
    value is used when the host defines none; and the cache proxy is
    started, once, only when neither defines it.  The executor keeps that
    cache host to the end of the run. *)
Theorem RunBuild_cache_host_priority w executor handles response unboxed :
  initialCommands w = Some response ->
  ServerToken response = serverToken executor ->
  unboxing w executor response = Unboxed unboxed ->
  let run := RunBuild w executor handles in
  match LookupEnv (host w) "CIRRUS_HTTP_CACHE_HOST",
        environment.Lookup unboxed "CIRRUS_HTTP_CACHE_HOST" with
  | Some cacheHost, _ | None, Some cacheHost =>
      httpCacheHost (runExecutor run) = cacheHost
      /\ count isHttpCacheStart (runEvents run) = 0%nat
  | None, None =>
      httpCacheHost (runExecutor run) = httpCacheStart w
      /\ count isHttpCacheStart (runEvents run) = 1%nat
  end.
Proof.
  intros Hinitial Htoken Hunbox run. unfold run.
  rewrite (RunBuild_unboxed w executor handles response Hinitial Htoken _ Hunbox).
  destruct (runFrom_executor w executor handles response unboxed)
    as [(_&_&_&Hhost&_) _].
  rewrite Hhost, loopExecutor_cache_host.
  rewrite runFrom_count; [| by intros [] | by intros []].
  rewrite setupEvents_cache_starts.
  destruct (LookupEnv (host w) "CIRRUS_HTTP_CACHE_HOST"); [done |].
  by destruct (environment.Lookup unboxed "CIRRUS_HTTP_CACHE_HOST").
Qed.

Lemma RunBuild_cache_host_priority_witness :
  let response :=
    {| ServerToken := "server";
       ResponseEnvironment := <["CIRRUS_HTTP_CACHE_HOST" := "task.example:80"]> ∅;
       Commands := abcd; TimeoutInSeconds := 3600;
       SecretsToMask := []; FailedAtLeastOnce := false |} in
  let run :=
    RunBuild (worldOf (Some response) (fun _ => stepOf true ∅)) (agent "" "") 0 in
  httpCacheHost (runExecutor run) = "task.example:80"
  /\ count isHttpCacheStart (runEvents run) = 0%nat.
Proof.
  intros response run.
  pose proof (RunBuild_cache_host_priority
                (worldOf (Some response) (fun _ => stepOf true ∅)) (agent "" "") 0
                response
                (mergedEnvironment (worldOf (Some response) (fun _ => stepOf true ∅))
                   (agent "" "") response)
                eq_refl eq_refl) as Hhost.
  cbv zeta in Hhost.
  change (LookupEnv (host (worldOf (Some response) (fun _ => stepOf true ∅)))
            "CIRRUS_HTTP_CACHE_HOST") with (@None string) in Hhost.
  assert (environment.Lookup
            (mergedEnvironment (worldOf (Some response) (fun _ => stepOf true ∅))
               (agent "" "") response) "CIRRUS_HTTP_CACHE_HOST"
          = Some "task.example:80") as Htask by (by vm_compute).
  rewrite Htask in Hhost. apply Hhost. by vm_compute.
Defined.

(** ** Steps in sequence *)

(** X22.  [CIRRUS_ENV_SENSITIVE] takes effect from the next step on: when
    the [CIRRUS_ENV] file of one step defines it, every variable that the
    file of the following step defines is merged into the environment and
    its value is registered as sensitive. *)
Theorem performStep_flag_masks_next_step sw1 sw2 e h1 h2 step1 step2 key value :
  newLogUploaderFails sw1 = false -> is_Some (cirrusEnvPath sw1) ->
  isExit (Instr step1) = false ->
  newLogUploaderFails sw2 = false -> is_Some (cirrusEnvPath sw2) ->
  isExit (Instr step2) = false ->
  is_Some (cirrusEnvVariables sw1 !! "CIRRUS_ENV_SENSITIVE") ->
  cirrusEnvVariables sw2 !! key = Some value ->
  let e1 := steppedExecutor (performStep sw1 e h1 step1) in
  let e2 := steppedExecutor (performStep sw2 e1 h2 step2) in
  environment.Lookup (env e2) key = Some value
  /\ value ∈ sensitiveValues (env e2).
Proof.
  intros Hlog1 [path1 Hpath1] Hexit1 Hlog2 [path2 Hpath2] Hexit2 [flag Hflag] Hkey
    e1 e2.
  unfold e2, e1. rewrite !performStep_envAfterStep. unfold envAfterStep.
  rewrite Hlog1, Hpath1, Hexit1, Hlog2, Hpath2, Hexit2.
  match goal with
  | |- context [bool_decide (is_Some (environment.Lookup (environment.Merge ?a ?b ?c)
                                        "CIRRUS_ENV_SENSITIVE"))] =>
      assert (bool_decide (is_Some (environment.Lookup (environment.Merge a b c)
                                      "CIRRUS_ENV_SENSITIVE")) = true) as ->
  end.
  { apply bool_decide_eq_true. exists flag.
    unfold environment.Lookup, environment.Merge. cbn [vars].
    by apply lookup_union_Some_l. }
  unfold environment.Lookup, environment.Merge at 1 3. cbn [vars sensitiveValues].
  split.
  - by apply lookup_union_Some_l.
  - apply elem_of_union. right. apply elem_of_list_to_set.
    apply list_elem_of_fmap. exists (key, value). split; [done |].
    by apply elem_of_map_to_list.
Qed.

Lemma performStep_flag_masks_next_step_witness :
  let e1 :=
    steppedExecutor
      (performStep (stepOf true (<["CIRRUS_ENV_SENSITIVE" := "true"]> ∅)) (agent "" "") 0
         (script "a" Command_ALWAYS)) in
  let e2 :=
    steppedExecutor
      (performStep (stepOf true (<["TOKEN" := "s3cr3t"]> ∅)) e1 1
         (script "b" Command_ALWAYS)) in
  environment.Lookup (env e2) "TOKEN" = Some "s3cr3t"
  /\ "s3cr3t" ∈ sensitiveValues (env e2).
Proof.
  apply (performStep_flag_masks_next_step
           (stepOf true (<["CIRRUS_ENV_SENSITIVE" := "true"]> ∅))
           (stepOf true (<["TOKEN" := "s3cr3t"]> ∅)) (agent "" "") 0 1
           (script "a" Command_ALWAYS) (script "b" Command_ALWAYS)
           "TOKEN" "s3cr3t");
    try reflexivity; by eexists.
Defined.

(** ** The environment of the scripts *)

(** X23.  [getScriptEnvironment] always sets [CIRRUS_OS] and
    [CIRRUS_ARCH] to the platform of the agent, overriding what the server
    sent; [OS] is the server's value if there is one, is left undefined
    when the host itself defines [OS], and is the agent's operating system
    otherwise; every other variable but [CIRRUS_WORKING_DIR] is passed
    through as the server sent it. *)
Theorem getScriptEnvironment_platform_variables host executor responseEnvironment :
  let result := getScriptEnvironment host executor responseEnvironment in
  result !! "CIRRUS_OS" = Some (GOOS host)
  /\ result !! "CIRRUS_ARCH" = Some (GOARCH host)
  /\ result !! "OS"
     = match responseEnvironment !! "OS", LookupEnv host "OS" with
       | Some os, _ => Some os
       | None, Some _ => None
       | None, None => Some (GOOS host)
       end
  /\ forall key,
       key ∉ ["OS"; "CIRRUS_OS"; "CIRRUS_ARCH"; "CIRRUS_WORKING_DIR"] ->
       result !! key = responseEnvironment !! key.
Proof.
  intros result.
  set (withOS :=
         match responseEnvironment !! "OS" with
         | Some _ => responseEnvironment
         | None =>
             match LookupEnv host "OS" with
             | Some _ => responseEnvironment
             | None => <["OS" := GOOS host]> responseEnvironment
             end
         end).
  set (platform :=
         <["CIRRUS_ARCH" := GOARCH host]> (<["CIRRUS_OS" := GOOS host]> withOS)).
  assert (forall key,
            key <> "CIRRUS_WORKING_DIR" -> result !! key = platform !! key)
    as Hother.
  { intros key Hne. unfold result, getScriptEnvironment. cbv zeta.
    fold withOS. fold platform.
    repeat match goal with
    | |- context [if ?c then _ else _] => destruct c
    | |- context [match ?x !! "CIRRUS_WORKING_DIR" with _ => _ end] =>
        destruct (x !! "CIRRUS_WORKING_DIR")
    end;
      rewrite ?lookup_insert_ne by done; done. }
  assert (withOS !! "OS"
          = match responseEnvironment !! "OS", LookupEnv host "OS" with
            | Some os, _ => Some os
            | None, Some _ => None
            | None, None => Some (GOOS host)
            end) as Hos.
  { unfold withOS. destruct (responseEnvironment !! "OS") as [os|] eqn:Hos; [done |].
    destruct (LookupEnv host "OS"); [done | apply lookup_insert_eq]. }
  split; [| split; [| split]].
  - rewrite Hother by done. unfold platform.
    rewrite lookup_insert_ne by done. apply lookup_insert_eq.
  - rewrite Hother by done. apply lookup_insert_eq.
  - rewrite Hother by done. unfold platform. by rewrite !lookup_insert_ne.
  - intros key Hkey.
    apply not_elem_of_cons in Hkey as [Hos' Hkey].
    apply not_elem_of_cons in Hkey as [Hcirrus_os Hkey].
    apply not_elem_of_cons in Hkey as [Harch Hkey].
    apply not_elem_of_cons in Hkey as [Hdir _].
    rewrite Hother by done. unfold platform.
    rewrite !lookup_insert_ne by done. unfold withOS.
    destruct (responseEnvironment !! "OS"); [done |].
    destruct (LookupEnv host "OS"); [done |].
    by rewrite lookup_insert_ne.
Qed.

(** ** Clone errors and clone requests *)

Lemma lowerASCII_append a b :
  Strings.lowerASCII (a +:+ b) = Strings.lowerASCII a +:+ Strings.lowerASCII b.
Proof. induction a as [|c a IH]; simpl; [done | by rewrite IH]. Qed.

Lemma isASCII_append a b :
  Strings.isASCII (a +:+ b) = Strings.isASCII a && Strings.isASCII b.
Proof.
  induction a as [|c a IH]; simpl; [done |]. by rewrite IH, andb_assoc.
Qed.

Lemma lowerByte_idempotent c :
  Strings.lowerByte (Strings.lowerByte c) = Strings.lowerByte c.
Proof.
  destruct c as [[] [] [] [] [] [] [] []]; reflexivity.
Qed.

Lemma lowerByte_below c :
  (nat_of_ascii (Strings.lowerByte c) <? 128)%nat = (nat_of_ascii c <? 128)%nat.
Proof.
  destruct c as [[] [] [] [] [] [] [] []]; reflexivity.
Qed.

Lemma lowerASCII_idempotent s :
  Strings.lowerASCII (Strings.lowerASCII s) = Strings.lowerASCII s.
Proof.
  induction s as [|c s IH]; simpl; [done |].
  by rewrite lowerByte_idempotent, IH.
Qed.

Lemma isASCII_lowerASCII s :
  Strings.isASCII (Strings.lowerASCII s) = Strings.isASCII s.
Proof.
  induction s as [|c s IH]; simpl; [done |]. by rewrite lowerByte_below, IH.
Qed.

Lemma ToLower_ASCII mapToLower s :
  Strings.isASCII s = true -> Strings.ToLower mapToLower s = Strings.lowerASCII s.
Proof. intros Hascii. unfold Strings.ToLower. by rewrite Hascii. Qed.

(** X24.  On error texts of ASCII bytes the classification looks neither
    at the case of the text nor at what surrounds the telling words:
    lower-casing such a text leaves the answer as it is, and a text that
    is retryable stays retryable when it is wrapped in a longer ASCII
    text. *)
Theorem retryableCloneError_wrapped mapToLower msg before after :
  Strings.isASCII msg = true ->
  retryableCloneError mapToLower (Some (Strings.ToLower mapToLower msg))
  = retryableCloneError mapToLower (Some msg)
  /\ (Strings.isASCII before = true ->
      Strings.isASCII after = true ->
      retryableCloneError mapToLower (Some msg) = true ->
      retryableCloneError mapToLower (Some (before +:+ msg +:+ after)) = true).
Proof.
  intros Hascii. split.
  - unfold retryableCloneError. cbv zeta.
    rewrite (ToLower_ASCII mapToLower msg Hascii).
    rewrite (ToLower_ASCII mapToLower (Strings.lowerASCII msg))
      by (by rewrite isASCII_lowerASCII).
    by rewrite lowerASCII_idempotent.
  - intros Hbefore Hafter Hmsg.
    apply retryableCloneError_spec in Hmsg as (sub & Hsub & Hin).
    apply retryableCloneError_spec. exists sub. split; [done |].
    rewrite (ToLower_ASCII mapToLower msg Hascii) in Hin.
    rewrite ToLower_ASCII
      by (by rewrite !isASCII_append, Hbefore, Hascii, Hafter).
    destruct Hin as (pre & post & Hlower).
    exists (Strings.lowerASCII before +:+ pre),
           (post +:+ Strings.lowerASCII after).
    by rewrite !lowerASCII_append, Hlower, !append_assoc.
Qed.

Lemma retryableCloneError_wrapped_witness :
  retryableCloneError dottedLower
    (Some ("Get https://example.org: " +:+ "TLS handshake Timeout" +:+ " (attempt 1)"))
  = true.
Proof.
  apply (proj2 (retryableCloneError_wrapped dottedLower "TLS handshake Timeout"
                  "Get https://example.org: " " (attempt 1)" eq_refl));
    reflexivity.
Defined.

Section CloneRequests.

Variables (git : GitWorld) (logUploader : nat) (env : Environment).




Lemma finishClone_no_wipe is_clone_modules :
  count isRemoveAll (fst (finishClone git logUploader is_clone_modules)) = 0%nat.
Proof. apply count_writes; [done | apply finishClone_writes]. Qed.

End CloneRequests.


(** X26.  [CloneRepository] removes the working directory only to repeat
    a clone: exactly once when the first clone of a branch or tag fails
    with a retryable error, and never for a pull request, whose retry
    fetches into the repository that is there.  What it removes is the
    directory of [CIRRUS_WORKING_DIR]. *)
Theorem CloneRepository_wipes_only_to_clone_again git logUploader env :
  let events := fst (CloneRepository git logUploader env) in
  count isRemoveAll events
  = (if bool_decide (environment.Lookup env "CIRRUS_PR" = None)
        && negb (caCertsFail git)
        && retryableCloneError (MapToLower git) (cloneErrors git 0)
     then 1%nat else 0%nat)
  /\ forall dir,
       RemoveAll dir ∈ events -> dir = environment.Get env "CIRRUS_WORKING_DIR".
Proof.
  intros events. unfold events, CloneRepository. cbv zeta.
  match goal with
  | |- context [finishClone git logUploader ?m] =>
      pose proof (finishClone_no_wipe git logUploader m) as Hfin;
      pose proof (finishClone_writes git logUploader m) as Hwrites;
      destruct (finishClone git logUploader m) as [finishEvents ok]
  end.
  cbn [fst] in Hfin, Hwrites.
  assert (forall dir, RemoveAll dir ∉ finishEvents) as Hnot.
  { intros dir Hbad. by pose proof (forallb_elem _ _ _ Hwrites Hbad). }
  rewrite retryableCloneError_isErr.
  split.
  - destruct (environment.Lookup env "CIRRUS_PR") as [pr_number|].
    + rewrite bool_decide_false by done. cbn [andb].
      repeat match goal with
      | |- context [if ?c then _ else _] => destruct c
      end;
        cbn [fst]; rewrite ?count_app, ?Hfin; simpl; rewrite ?count_app, ?Hfin;
        done.
    + rewrite bool_decide_true by done.
      destruct (caCertsFail git); cbn [negb andb];
        destruct (retryableCloneError (MapToLower git) (cloneErrors git 0));
        repeat match goal with
        | |- context [if ?c then _ else _] => destruct c
        end;
        cbn [fst]; rewrite ?count_app, ?Hfin; simpl; rewrite ?count_app, ?Hfin;
        done.
  - intros dir.
    destruct (environment.Lookup env "CIRRUS_PR") as [pr_number|];
      repeat match goal with
      | |- context [if ?c then _ else _] => destruct c
      end;
      cbn [fst]; intros Hin;
      repeat match type of Hin with
      | _ ∈ _ ++ _ => apply elem_of_app in Hin as [Hin | Hin]
      | _ ∈ _ :: _ => apply elem_of_cons in Hin as [Hin | Hin]
      | _ ∈ [] => by apply elem_of_nil in Hin
      | _ = _ => by (discriminate Hin || by injection Hin)
      | _ ∈ finishEvents => by apply Hnot in Hin
      end.
Qed.

(** ** Files created from variables *)

(** X27.  [CreateFile] writes a file only from a variable that is defined
    and whose value does not start with [ENCRYPTED]: what it writes is the
    value of that variable, to the expanded destination path, after the
    folder of that path has been made sure of.  It fails only when the
    source is not a variable or the write itself fails; a variable that is
    missing or was not decrypted is skipped with success. *)
Theorem CreateFile_writes_decrypted_variable expandText dir writeFileFails
    logUploader source destinationPath env :
  let created :=
    CreateFile expandText dir writeFileFails logUploader source destinationPath
      env in
  (forall path content,
      WriteFile path content ∈ fst created ->
      exists envName,
        source = Some envName
        /\ environment.Lookup env envName = Some content
        /\ Strings.HasPrefix content "ENCRYPTED" = false
        /\ path = expandText env destinationPath
        /\ fst created
           = [EnsureFolderExists (dir path); WriteFile path content;
              LogWrite logUploader])
  /\ (snd created = false
      <-> source = None
          \/ (writeFileFails = true
              /\ exists path content, WriteFile path content ∈ fst created)).
Proof.
  intros created. unfold created, CreateFile. split.
  - intros path content.
    destruct source as [envName|]; [| by intros ?%elem_of_nil].
    destruct (environment.Lookup env envName) as [value|] eqn:Hvalue.
    2: { intros [Hin | Hin%elem_of_nil]%elem_of_cons; done. }
    destruct (Strings.HasPrefix value "ENCRYPTED") eqn:Hprefix.
    { intros [Hin | Hin%elem_of_nil]%elem_of_cons; done. }
    cbn [fst].
    intros [Hin | [Hin | [Hin | Hin%elem_of_nil]%elem_of_cons]%elem_of_cons]%elem_of_cons;
      try done.
    injection Hin as -> ->. by exists envName.
  - destruct source as [envName|]; [| by split; [left | ]].
    destruct (environment.Lookup env envName) as [value|].
    2: { cbn [fst snd]. split; [done |].
         intros [? | [_ (path & content & [Hin | Hin%elem_of_nil]%elem_of_cons)]];
           done. }
    destruct (Strings.HasPrefix value "ENCRYPTED").
    { cbn [fst snd]. split; [done |].
      intros [? | [_ (path & content & [Hin | Hin%elem_of_nil]%elem_of_cons)]];
        done. }
    cbn [fst snd]. split.
    + intros Hfails%negb_false_iff. right. split; [done |].
      eexists _, _. apply elem_of_cons. right. apply elem_of_cons. by left.
    + intros [? | [-> _]]; done.
Qed.

Lemma CreateFile_writes_decrypted_variable_witness :
  exists envName,
    Some "KEY" = Some envName
    /\ environment.Lookup (environment.Set_ environment.NewEmpty "KEY" "value")
         envName = Some "value".
Proof.
  destruct (proj1 (CreateFile_writes_decrypted_variable (fun _ s => s) (fun s => s)
                     false 0 (Some "KEY") "/tmp/key"
                     (environment.Set_ environment.NewEmpty "KEY" "value"))
              "/tmp/key" "value")
    as (envName & Hsource & Hvalue & _).
  - vm_compute. repeat constructor.
  - by exists envName.
Defined.

(** ** The dial target *)

Lemma TrimPrefix_cases s p :
  Strings.TrimPrefix s p = s \/ s = p +:+ Strings.TrimPrefix s p.
Proof.
  unfold Strings.TrimPrefix.
  destruct (Strings.HasPrefix s p) eqn:Hprefix; [| by left].
  apply HasPrefix_spec in Hprefix as [post ->]. right.
  by rewrite skip_append.
Qed.

(** X28.  The dial target of [transportSettings] is the endpoint without
    a scheme prefix: what is cut off in front is nothing, [http://],
    [https://] or [http://https://], and nothing else of the endpoint is
    changed. *)
Theorem transportSettings_target_is_suffix apiEndpoint :
  exists stripped,
    stripped ∈ [""; "http://"; "https://"; "http://https://"]
    /\ apiEndpoint = stripped +:+ fst (transportSettings apiEndpoint).
Proof.
  unfold transportSettings. cbn [fst].
  destruct (TrimPrefix_cases apiEndpoint "http://") as [Hplain | Hhttp];
    destruct (TrimPrefix_cases (Strings.TrimPrefix apiEndpoint "http://") "https://")
      as [Hkept | Hhttps].
  - exists "". split; [repeat constructor |]. by rewrite Hkept, Hplain.
  - exists "https://". split; [repeat constructor |].
    rewrite <- Hhttps. by rewrite Hplain.
  - exists "http://". split; [repeat constructor |]. by rewrite Hkept.
  - exists "http://https://". split; [repeat constructor |].
    rewrite Hhttp at 1. rewrite Hhttps at 1. reflexivity.
Qed.
